(** * FaceTrace: the reference-face video scan of [App.tsx]

    A shallow embedding of the application component: the React state of
    [App], its handlers ([loadModels], [handleImageUpload],
    [handleVideoUpload], [startProcessing] with its [processFrame] loop,
    [stopProcessing], [resetApp]) and what it renders; then of its two
    children, the login form ([components/Login.tsx]) and the match card
    ([components/MatchCard.tsx]) with the service the card calls
    ([services/geminiService.ts]).

    JavaScript numbers are IEEE 754 binary64 values, so they are modelled by
    Rocq's primitive floats, whose operations are the binary64 ones.  The face
    engine ([window.faceapi]), [Math.round], the video element and React's
    scheduler are the environment: their results enter as parameters or as
    events. *)

From Stdlib Require Import Floats ZArith Lia List Bool String.
Import ListNotations.

Set Warnings "-inexact-float".
Local Open Scope string_scope.
Local Open Scope list_scope.
Local Open Scope float_scope.

(** ** JavaScript numbers *)

Abbreviation number := float (only parsing).

(** [x > y], [x >= y] and [x < y]: false as soon as one side is [NaN]. *)
Definition js_gt (x y : number) : bool := y <? x.
Definition js_ge (x y : number) : bool := y <=? x.
Definition js_lt (x y : number) : bool := x <? y.

(** [Math.max(x, y)]: [NaN] if either is, and [+0] counts as larger than [-0]. *)
Definition Math_max (x y : number) : number :=
  if is_nan x || is_nan y then nan
  else if x <? y then y
  else if y <? x then x
  else if get_sign x then y else x.

(** ** [types.ts] and [constants.ts] *)

Inductive AppState : Set := LOADING_MODELS | IDLE | PROCESSING | FINISHED.

Record FaceMatchResult : Set := {
  score : number;
  frameDataUrl : string;
  timestamp : number;
  age : option number;
  gender : option string;
  genderProbability : option number;
  expression : option string
}.

Definition MODEL_URL : string :=
  "https://cdn.jsdelivr.net/gh/justadudewhohacks/face-api.js@master/weights".

Definition THRESHOLD : number := 0.5.

(** ** What the face engine returns *)

(** A face descriptor ([Float32Array]). *)
Definition Descriptor : Set := list number.

Record Box : Set := { box_x : number; box_y : number; box_width : number; box_height : number }.

(** One entry of [resizedDetections]. [expressions] keeps the key order of the
    engine's object. *)
Record Detection : Set := {
  descriptor : Descriptor;
  det_age : number;
  det_gender : string;
  det_genderProbability : number;
  expressions : list (string * number);
  box : Box
}.

(** What one iteration of [processFrame] sees of the video once
    [detectAllFaces] has resolved: the playback time, the JPEG data URL that
    drawing the frame on the off-screen canvas gives, and the detections. *)
Record VideoFrame : Set := {
  currentTime : number;
  snapshot : string;
  detections : list Detection
}.

(** ** The body of the [forEach] in [processFrame] *)

(** [Math.max(0, 1 - distance)]. *)
Definition similarity (distance : number) : number := Math_max 0 (1 - distance).

(** The thresholds.  As in JavaScript, the literals [0.4] and [0.5] denote the
    binary64 numbers nearest to them ([0.5] is exact). *)
Definition isTarget (similarity : number) : bool := js_ge similarity 0.5.
Definition isPossible (similarity : number) : bool :=
  js_ge similarity 0.4 && js_lt similarity 0.5.

(** The label of a box; the number is [similarity * 100], which the source
    prints with [toFixed(0)] and a percent sign. *)
Inductive LabelText : Set :=
| Scan (percent : number)
| TARGET_MATCH (percent : number)
| Possible (percent : number).

Record DrawBox : Set := {
  db_box : Box;
  label : LabelText;
  boxColor : string;
  lineWidth : Z;
  fontSize : Z;
  padding : Z;
  fontColor : string;
  globalAlpha : number
}.

Definition drawBox (b : Box) (similarity : number) : DrawBox :=
  let percent := similarity * 100 in
  let '(color, labelText, width) :=
    if isTarget similarity then ("#10b981", TARGET_MATCH percent, 3%Z)
    else if isPossible similarity then ("#f59e0b", Possible percent, 2%Z)
    else ("#ef4444", Scan percent, 1%Z) in
  {| db_box := b;
     label := labelText;
     boxColor := color;
     lineWidth := width;
     fontSize := if isTarget similarity then 18%Z else 12%Z;
     padding := if isTarget similarity then 10%Z else 4%Z;
     fontColor := if isTarget similarity then "#ffffff" else "#ef4444";
     globalAlpha := if isTarget similarity then 1.0 else 0.6 |}.

(** [Object.keys(expressions).sort((a, b) => expressions[b] - expressions[a])[0]]:
    a stable sort by the comparator, then the first key ([None] for
    [undefined]). *)
Fixpoint insertSorted (cmp : string * number -> string * number -> number)
    (x : string * number) (l : list (string * number)) : list (string * number) :=
  match l with
  | [] => [x]
  | y :: l' => if js_gt (cmp x y) 0 then y :: insertSorted cmp x l' else x :: l
  end.

Definition sortExpressions (expressions : list (string * number)) : list (string * number) :=
  fold_right (insertSorted (fun a b => snd b - snd a)) [] expressions.

Definition dominantExpression (expressions : list (string * number)) : option string :=
  match sortExpressions expressions with
  | [] => None
  | (key, _) :: _ => Some key
  end.

Section Host.

(** [window.faceapi.euclideanDistance] and [Math.round] are the host's. *)
Variable euclideanDistance : Descriptor -> Descriptor -> number.
Variable Math_round : number -> number.

(** ** The frame scan loop *)

Definition detectionSimilarity (targetDescriptor : Descriptor) (detection : Detection) : number :=
  similarity (euclideanDistance targetDescriptor (descriptor detection)).

(** The object literal returned by the updater passed to [setBestMatch]. *)
Definition capturedMatch (frameBestSim : number) (frame : VideoFrame) (detection : Detection)
    : FaceMatchResult :=
  {| score := frameBestSim;
     frameDataUrl := snapshot frame;
     timestamp := currentTime frame;
     age := Some (Math_round (det_age detection));
     gender := Some (det_gender detection);
     genderProbability := Some (det_genderProbability detection);
     expression := dominantExpression (expressions detection) |}.

(** The updater [(prev) => ...] of one detection.  The closure shares the
    variable [frameBestSim] of the enclosing [processFrame] call with the
    [forEach], so it reads the value the variable holds when React runs the
    updater; the argument [frameBestSim] is that value.  The snapshot and the
    time are taken when the updater runs too: the video is taken not to have
    moved on from [frame] by then. *)
Definition bestMatchUpdater (frameBestSim : number) (frame : VideoFrame) (detection : Detection)
    (prev : option FaceMatchResult) : option FaceMatchResult :=
  let replace :=
    match prev with
    | None => true
    | Some p => js_gt frameBestSim (score p)
    end in
  if replace then Some (capturedMatch frameBestSim frame detection) else prev.

(** The state of one [processFrame] call after [await detectAllFaces]: the
    local [frameBestSim], the updaters handed to [setBestMatch] that React
    has not run yet (one per detection, in order), the [bestMatch] state,
    every value [bestMatch] has taken (newest first), and the canvas. *)
Record ScanState : Set := {
  frameBestSim : number;
  queued : list Detection;
  best : option FaceMatchResult;
  log : list (option FaceMatchResult);
  canvas : list DrawBox
}.

(** React runs the queued updaters in order; each reads [frameBestSim] then. *)
Fixpoint runUpdaters (fb : number) (frame : VideoFrame) (updaters : list Detection)
    (b : option FaceMatchResult) (lg : list (option FaceMatchResult))
    : option FaceMatchResult * list (option FaceMatchResult) :=
  match updaters with
  | [] => (b, lg)
  | detection :: rest =>
      let b' := bestMatchUpdater fb frame detection b in
      runUpdaters fb frame rest b' (b' :: lg)
  end.

Definition flushUpdaters (frame : VideoFrame) (st : ScanState) : ScanState :=
  let '(b, lg) := runUpdaters (frameBestSim st) frame (queued st) (best st) (log st) in
  {| frameBestSim := frameBestSim st; queued := []; best := b; log := lg; canvas := canvas st |}.

(** One pass of the [forEach] callback.  [setBestMatch] hands React the
    updater; React runs the updaters it holds, in order, either inside the
    call or at a later render, and which one is its scheduler's choice,
    [flushNow].  The source of React is not part of the repository, so no
    choice is fixed here. *)
Definition forEachStep (flushNow : bool) (targetDescriptor : Descriptor) (frame : VideoFrame)
    (detection : Detection) (st : ScanState) : ScanState :=
  let distance := euclideanDistance targetDescriptor (descriptor detection) in
  let similarity := similarity distance in
  let st' :=
    {| frameBestSim := if js_gt similarity (frameBestSim st) then similarity else frameBestSim st;
       queued := queued st ++ [detection];
       best := best st;
       log := log st;
       canvas := canvas st ++ [drawBox (box detection) similarity] |} in
  if flushNow then flushUpdaters frame st' else st'.

Fixpoint forEachDetection (flush : nat -> bool) (targetDescriptor : Descriptor) (frame : VideoFrame)
    (index : nat) (dets : list Detection) (st : ScanState) : ScanState :=
  match dets with
  | [] => st
  | detection :: rest =>
      forEachDetection flush targetDescriptor frame (S index) rest
        (forEachStep (flush index) targetDescriptor frame detection st)
  end.

(** [processFrame] from the cleared canvas to [setCurrentSimilarity]: the
    updaters still queued after the [forEach] run at the render that follows.
    [flush i] says whether React runs the queue right after the [i]-th
    [setBestMatch] call. *)
Definition processDetections (flush : nat -> bool) (targetDescriptor : Descriptor)
    (frame : VideoFrame) (b : option FaceMatchResult) (lg : list (option FaceMatchResult))
    : ScanState :=
  flushUpdaters frame
    (forEachDetection flush targetDescriptor frame 0 (detections frame)
       {| frameBestSim := 0; queued := []; best := b; log := lg; canvas := [] |}).

(** A run of the loop over the frames of which detection results arrive, in
    playback order.  [schedule k] is React's choice during the [k]-th. *)
Fixpoint scanFrom (schedule : nat -> nat -> bool) (targetDescriptor : Descriptor) (k : nat)
    (frames : list VideoFrame) (b : option FaceMatchResult) (lg : list (option FaceMatchResult))
    : option FaceMatchResult * list (option FaceMatchResult) :=
  match frames with
  | [] => (b, lg)
  | frame :: rest =>
      let st := processDetections (schedule k) targetDescriptor frame b lg in
      scanFrom schedule targetDescriptor (S k) rest (best st) (log st)
  end.

Definition scanFrames (schedule : nat -> nat -> bool) (targetDescriptor : Descriptor)
    (frames : list VideoFrame) (b : option FaceMatchResult)
    : option FaceMatchResult * list (option FaceMatchResult) :=
  scanFrom schedule targetDescriptor 0 frames b [b].

(** The two schedules React versions are known for: the updater runs inside
    the [setBestMatch] call, or all of a frame's updaters run at the next
    render. *)
Definition immediate : nat -> nat -> bool := fun _ _ => true.
Definition batched : nat -> nat -> bool := fun _ _ => false.

(** ** The state of [App] *)

(** The [useState] values. *)
Record Hooks : Set := {
  isAuthenticated : bool;
  state : AppState;
  targetImage : option string;
  videoSource : option string;
  bestMatch : option FaceMatchResult;
  currentSimilarity : number;
  targetDescriptor : option Descriptor;
  error : option string
}.

Definition setIsAuthenticated (v : bool) (h : Hooks) : Hooks :=
  {| isAuthenticated := v; state := state h; targetImage := targetImage h;
     videoSource := videoSource h; bestMatch := bestMatch h;
     currentSimilarity := currentSimilarity h; targetDescriptor := targetDescriptor h;
     error := error h |}.

Definition setState (v : AppState) (h : Hooks) : Hooks :=
  {| isAuthenticated := isAuthenticated h; state := v; targetImage := targetImage h;
     videoSource := videoSource h; bestMatch := bestMatch h;
     currentSimilarity := currentSimilarity h; targetDescriptor := targetDescriptor h;
     error := error h |}.

Definition setTargetImage (v : option string) (h : Hooks) : Hooks :=
  {| isAuthenticated := isAuthenticated h; state := state h; targetImage := v;
     videoSource := videoSource h; bestMatch := bestMatch h;
     currentSimilarity := currentSimilarity h; targetDescriptor := targetDescriptor h;
     error := error h |}.

Definition setVideoSource (v : option string) (h : Hooks) : Hooks :=
  {| isAuthenticated := isAuthenticated h; state := state h; targetImage := targetImage h;
     videoSource := v; bestMatch := bestMatch h;
     currentSimilarity := currentSimilarity h; targetDescriptor := targetDescriptor h;
     error := error h |}.

Definition setBestMatch (v : option FaceMatchResult) (h : Hooks) : Hooks :=
  {| isAuthenticated := isAuthenticated h; state := state h; targetImage := targetImage h;
     videoSource := videoSource h; bestMatch := v;
     currentSimilarity := currentSimilarity h; targetDescriptor := targetDescriptor h;
     error := error h |}.

Definition setCurrentSimilarity (v : number) (h : Hooks) : Hooks :=
  {| isAuthenticated := isAuthenticated h; state := state h; targetImage := targetImage h;
     videoSource := videoSource h; bestMatch := bestMatch h;
     currentSimilarity := v; targetDescriptor := targetDescriptor h;
     error := error h |}.

Definition setTargetDescriptor (v : option Descriptor) (h : Hooks) : Hooks :=
  {| isAuthenticated := isAuthenticated h; state := state h; targetImage := targetImage h;
     videoSource := videoSource h; bestMatch := bestMatch h;
     currentSimilarity := currentSimilarity h; targetDescriptor := v;
     error := error h |}.

Definition setError (v : option string) (h : Hooks) : Hooks :=
  {| isAuthenticated := isAuthenticated h; state := state h; targetImage := targetImage h;
     videoSource := videoSource h; bestMatch := bestMatch h;
     currentSimilarity := currentSimilarity h; targetDescriptor := targetDescriptor h;
     error := v |}.

Definition initialHooks : Hooks :=
  {| isAuthenticated := false; state := LOADING_MODELS; targetImage := None;
     videoSource := None; bestMatch := None; currentSimilarity := 0;
     targetDescriptor := None; error := None |}.

(** What lives outside React: [requestRef.current] (0 when unset), the
    [<video>] element's [paused] and [ended], the callbacks registered with
    [requestAnimationFrame] (each a [processFrame] closure, known by the
    [targetDescriptor] it captured), the [detectAllFaces] calls that have not
    resolved yet, and the [handleImageUpload] calls that are still awaiting
    the engine. *)
Record Runtime : Set := {
  requestRef : nat;
  videoPaused : bool;
  videoEnded : bool;
  animationFrames : list (nat * Descriptor);
  nextHandle : nat;
  inFlight : list Descriptor;
  imageAnalyses : nat
}.

Definition initialRuntime : Runtime :=
  {| requestRef := 0; videoPaused := true; videoEnded := false; animationFrames := [];
     nextHandle := 1; inFlight := []; imageAnalyses := 0 |}.

Record Session : Set := { hooks : Hooks; runtime : Runtime }.

Definition initialSession : Session := {| hooks := initialHooks; runtime := initialRuntime |}.

Definition onHooks (f : Hooks -> Hooks) (s : Session) : Session :=
  {| hooks := f (hooks s); runtime := runtime s |}.

Definition onRuntime (f : Runtime -> Runtime) (s : Session) : Session :=
  {| hooks := hooks s; runtime := f (runtime s) |}.

(** ** The host's scheduling primitives *)

(** [requestRef.current = requestAnimationFrame(processFrame)] in a closure
    that captured [target]. *)
Definition scheduleFrame (target : Descriptor) (r : Runtime) : Runtime :=
  {| requestRef := nextHandle r; videoPaused := videoPaused r; videoEnded := videoEnded r;
     animationFrames := animationFrames r ++ [(nextHandle r, target)];
     nextHandle := S (nextHandle r); inFlight := inFlight r;
     imageAnalyses := imageAnalyses r |}.

Definition cancelAnimationFrame (handle : nat) (r : Runtime) : Runtime :=
  {| requestRef := requestRef r; videoPaused := videoPaused r; videoEnded := videoEnded r;
     animationFrames := filter (fun cb => negb (Nat.eqb (fst cb) handle)) (animationFrames r);
     nextHandle := nextHandle r; inFlight := inFlight r;
     imageAnalyses := imageAnalyses r |}.

(** [await window.faceapi.detectAllFaces(video, ...)]: the call is out. *)
Definition dispatchDetection (target : Descriptor) (r : Runtime) : Runtime :=
  {| requestRef := requestRef r; videoPaused := videoPaused r; videoEnded := videoEnded r;
     animationFrames := animationFrames r; nextHandle := nextHandle r;
     inFlight := inFlight r ++ [target]; imageAnalyses := imageAnalyses r |}.

Definition setInFlight (l : list Descriptor) (r : Runtime) : Runtime :=
  {| requestRef := requestRef r; videoPaused := videoPaused r; videoEnded := videoEnded r;
     animationFrames := animationFrames r; nextHandle := nextHandle r;
     inFlight := l; imageAnalyses := imageAnalyses r |}.

Definition setImageAnalyses (n : nat) (r : Runtime) : Runtime :=
  {| requestRef := requestRef r; videoPaused := videoPaused r; videoEnded := videoEnded r;
     animationFrames := animationFrames r; nextHandle := nextHandle r;
     inFlight := inFlight r; imageAnalyses := n |}.

(** [video.play()], [video.pause()], and the element reaching its end. *)
Definition setVideo (paused ended : bool) (r : Runtime) : Runtime :=
  {| requestRef := requestRef r; videoPaused := paused; videoEnded := ended;
     animationFrames := animationFrames r; nextHandle := nextHandle r;
     inFlight := inFlight r; imageAnalyses := imageAnalyses r |}.

Definition play (r : Runtime) : Runtime := setVideo false (videoEnded r) r.
Definition pause (r : Runtime) : Runtime := setVideo true (videoEnded r) r.

(** ** What [App] renders *)

Inductive TargetPanel : Set :=
| ImageInput
| ImagePreview (src : string) (encodingReady : bool).

Inductive StartLabel : Set := StopScanning | StartAnalysis.

Inductive VideoPanel : Set :=
| VideoInput
| VideoLoaded (buttonLabel : StartLabel) (disabled : bool) (uploadTargetHint : bool).

Inductive ResultPanel : Set :=
| MatchCard (m : FaceMatchResult)
| NoFacesDetected
| ProcessingVideo
| ReadyToAnalyze.

Record MainScreen : Set := {
  resetButton : bool;
  targetPanel : TargetPanel;
  videoPanel : VideoPanel;
  errorBanner : option string;
  videoElement : bool;
  matchConfidence : option number;
  resultPanel : ResultPanel
}.

Inductive Screen : Set :=
| LoginScreen
| LoadingScreen
| MainView (m : MainScreen).

Definition isProcessing (h : Hooks) : bool :=
  match state h with PROCESSING => true | _ => false end.

Definition isSome {A : Type} (o : option A) : bool :=
  match o with Some _ => true | None => false end.

Definition render (h : Hooks) : Screen :=
  if negb (isAuthenticated h) then LoginScreen
  else
    match state h with
    | LOADING_MODELS => LoadingScreen
    | _ =>
      MainView
        {| resetButton := match state h with IDLE => false | _ => true end;
           targetPanel :=
             match targetImage h with
             | None => ImageInput
             | Some src => ImagePreview src (isSome (targetDescriptor h))
             end;
           videoPanel :=
             match videoSource h with
             | None => VideoInput
             | Some _ =>
                 VideoLoaded (if isProcessing h then StopScanning else StartAnalysis)
                   (negb (isSome (targetDescriptor h)))
                   (negb (isSome (targetDescriptor h)))
             end;
           errorBanner := error h;
           videoElement := isSome (videoSource h);
           matchConfidence :=
             match videoSource h with
             | None => None
             | Some _ => if isProcessing h then Some (currentSimilarity h * 100) else None
             end;
           resultPanel :=
             match bestMatch h with
             | Some m => MatchCard m
             | None =>
                 match state h with
                 | FINISHED => NoFacesDetected
                 | PROCESSING => ProcessingVideo
                 | _ => ReadyToAnalyze
                 end
             end |}
    end.

(** [videoRef.current] and [canvasRef.current] are set exactly while the
    [<video>] and [<canvas>] elements are rendered. *)
Definition videoRef (h : Hooks) : bool :=
  match render h with
  | MainView m => videoElement m
  | _ => false
  end.

(** ** The handlers *)

(** The effect run on mount.  [faceapi] says whether [window.faceapi] is
    defined, [loads] how each model load awaited by [Promise.all] settled. *)
Definition loadModels (faceapi : bool) (loads : list bool) (h : Hooks) : Hooks :=
  if faceapi && forallb (fun ok => ok) loads
  then setState IDLE h
  else setError (Some "Failed to load AI models. Please check your internet connection.") h.

(** How the awaits of [handleImageUpload] settle: [detectSingleFace(...)]
    gives a detection, gives [undefined], or a call throws. *)
Inductive FaceOutcome : Set :=
| FaceFound (d : Descriptor)
| NoFace
| EngineThrew.

(** [handleImageUpload] up to its first [await]; [file] is the object URL of
    [e.target.files?.[0]]. *)
Definition handleImageUpload_begin (file : option string) (h : Hooks) : Hooks :=
  match file with
  | None => h
  | Some url => setBestMatch None (setTargetImage (Some url) h)
  end.

(** [handleImageUpload] after its awaits. *)
Definition handleImageUpload_end (outcome : FaceOutcome) (h : Hooks) : Hooks :=
  match outcome with
  | FaceFound d => setError None (setTargetDescriptor (Some d) h)
  | NoFace =>
      setTargetDescriptor None
        (setError (Some "No face detected in the target image. Please choose another.") h)
  | EngineThrew => setError (Some "Error processing target image.") h
  end.

(** The whole handler when nothing else happens in between. *)
Definition handleImageUpload (file : option string) (outcome : FaceOutcome) (h : Hooks) : Hooks :=
  match file with
  | None => h
  | Some _ => handleImageUpload_end outcome (handleImageUpload_begin file h)
  end.

Definition handleVideoUpload (file : option string) (h : Hooks) : Hooks :=
  match file with
  | None => h
  | Some url => setCurrentSimilarity 0 (setBestMatch None (setVideoSource (Some url) h))
  end.

(** The inline handler of the button on the image preview. *)
Definition clearTargetImage (h : Hooks) : Hooks :=
  setTargetDescriptor None (setTargetImage None h).

(** [processFrame] up to [await detectAllFaces]. *)
Definition processFrame (target : Descriptor) (s : Session) : Session :=
  if videoEnded (runtime s) then onHooks (setState FINISHED) s
  else if videoPaused (runtime s) then onRuntime (scheduleFrame target) s
  else onRuntime (dispatchDetection target) s.

(** [processFrame] from the resolution of [detectAllFaces] to its end.
    Nothing in it looks at [state]. *)
Definition processFrame_resume (flush : nat -> bool) (target : Descriptor) (frame : VideoFrame)
    (s : Session) : Session :=
  let st := processDetections flush target frame (bestMatch (hooks s)) [] in
  onRuntime (scheduleFrame target)
    (onHooks (fun h => setCurrentSimilarity (frameBestSim st) (setBestMatch (best st) h)) s).

Definition startProcessing (s : Session) : Session :=
  match videoRef (hooks s), targetDescriptor (hooks s) with
  | true, Some target =>
      processFrame target (onRuntime play (onHooks (setState PROCESSING) s))
  | _, _ => s
  end.

Definition stopProcessing (s : Session) : Session :=
  let s1 := if videoRef (hooks s) then onRuntime pause s else s in
  let s2 :=
    match requestRef (runtime s1) with
    | O => s1
    | S _ => onRuntime (cancelAnimationFrame (requestRef (runtime s1))) s1
    end in
  onHooks (setState FINISHED) s2.

Definition resetApp (s : Session) : Session :=
  onHooks
    (fun h =>
       setError None
         (setState IDLE
            (setCurrentSimilarity 0
               (setTargetDescriptor None
                  (setBestMatch None (setVideoSource None (setTargetImage None h)))))))
    (stopProcessing s).

(** ** Events *)

Inductive Event : Set :=
| ModelsSettled (faceapi : bool) (loads : list bool)
| LoggedIn
| SignedOut
| ImageChosen (file : option string)
| ImageAnalysed (outcome : FaceOutcome)
| ClearImageClicked
| VideoChosen (file : option string)
| RemoveVideoClicked
| StartStopClicked
| ResetClicked
| AnimationFrame (handle : nat)
| DetectionsResolved (call : nat) (flush : nat -> bool) (frame : VideoFrame)
| VideoEnded
| VideoPlayed
| VideoPaused.

Definition removeNth {A : Type} (n : nat) (l : list A) : list A :=
  firstn n l ++ skipn (S n) l.

(** One event.  A click counts only when its control is rendered. *)
Definition step (e : Event) (s : Session) : Session :=
  let h := hooks s in
  match e, render h with
  | ModelsSettled faceapi loads, _ => onHooks (loadModels faceapi loads) s
  | LoggedIn, LoginScreen => onHooks (setIsAuthenticated true) s
  | SignedOut, MainView _ => onHooks (setIsAuthenticated false) s
  | ImageChosen file, MainView {| targetPanel := ImageInput |} =>
      match file with
      | None => s
      | Some _ =>
          onRuntime (fun r => setImageAnalyses (S (imageAnalyses r)) r)
            (onHooks (handleImageUpload_begin file) s)
      end
  | ImageAnalysed outcome, _ =>
      match imageAnalyses (runtime s) with
      | O => s
      | S n => onRuntime (setImageAnalyses n) (onHooks (handleImageUpload_end outcome) s)
      end
  | ClearImageClicked, MainView {| targetPanel := ImagePreview _ _ |} =>
      onHooks clearTargetImage s
  | VideoChosen file, MainView {| videoPanel := VideoInput |} =>
      onHooks (handleVideoUpload file) s
  | RemoveVideoClicked, MainView {| videoPanel := VideoLoaded _ _ _ |} =>
      onHooks (setVideoSource None) s
  | StartStopClicked, MainView {| videoPanel := VideoLoaded _ false _ |} =>
      if isProcessing h then stopProcessing s else startProcessing s
  | ResetClicked, MainView {| resetButton := true |} => resetApp s
  | AnimationFrame handle, _ =>
      match find (fun cb => Nat.eqb (fst cb) handle) (animationFrames (runtime s)) with
      | Some (_, target) => processFrame target (onRuntime (cancelAnimationFrame handle) s)
      | None => s
      end
  | DetectionsResolved call flush frame, _ =>
      match nth_error (inFlight (runtime s)) call with
      | Some target =>
          processFrame_resume flush target frame
            (onRuntime (fun r => setInFlight (removeNth call (inFlight r)) r) s)
      | None => s
      end
  | VideoEnded, MainView {| videoElement := true |} =>
      onHooks (setState FINISHED) (onRuntime (setVideo true true) s)
  | VideoPlayed, MainView {| videoElement := true |} => onRuntime (setVideo false false) s
  | VideoPaused, MainView {| videoElement := true |} => onRuntime pause s
  | _, _ => s
  end.

Definition run (events : list Event) (s : Session) : Session :=
  fold_left (fun s e => step e s) events s.


End Host.

(** ** [components/Login.tsx] *)

Module Login.

(** The [useState] values of the form. *)
Record State : Set := { loading : bool; isResetMode : bool; resetSent : bool }.

Definition initialState : State :=
  {| loading := false; isResetMode := false; resetSent := false |}.

Definition setLoading (v : bool) (st : State) : State :=
  {| loading := v; isResetMode := isResetMode st; resetSent := resetSent st |}.

Definition setIsResetMode (v : bool) (st : State) : State :=
  {| loading := loading st; isResetMode := v; resetSent := resetSent st |}.

Definition setResetSent (v : bool) (st : State) : State :=
  {| loading := loading st; isResetMode := isResetMode st; resetSent := v |}.

(** The two callbacks the handlers give to [setTimeout]:
    [() => { onLogin(); }] and
    [() => { setLoading(false); setResetSent(true); }]. *)
Inductive Callback : Set :=
| CallOnLogin
| FinishReset.

(** A registered timeout; [delay] is in milliseconds. *)
Record Timeout : Set := { callback : Callback; delay : nat }.

Definition handleLogin (st : State) : State * Timeout :=
  (setLoading true st, {| callback := CallOnLogin; delay := 1000 |}).

Definition handleReset (st : State) : State * Timeout :=
  (setLoading true st, {| callback := FinishReset; delay := 1500 |}).

(** What the component renders: the heading, then either the confirmation
    with its "Back to Sign In" button or the form, then the two social
    buttons ([Some disabled]) outside the reset mode. *)
Inductive SubmitLabel : Set := Sending | Authenticating | SendResetLink | SignIn.

Record FormView : Set := {
  passwordField : bool;
  forgotPasswordButton : bool;
  submitDisabled : bool;
  submitLabel : SubmitLabel;
  cancelButton : bool
}.

Inductive Body : Set :=
| ResetConfirmation
| Form (f : FormView).

Record View : Set := {
  title : string;
  subtitle : string;
  body : Body;
  socialButtons : option bool
}.

Definition render (st : State) : View :=
  {| title := if isResetMode st then "Reset Password" else "Face Recognition";
     subtitle :=
       if isResetMode st
       then (if resetSent st then "Check your inbox" else "Enter email to reset password")
       else "Sign in or Sign up";
     body :=
       if isResetMode st && resetSent st then ResetConfirmation
       else
         Form {| passwordField := negb (isResetMode st);
                 forgotPasswordButton := negb (isResetMode st);
                 submitDisabled := loading st;
                 submitLabel :=
                   if loading st
                   then (if isResetMode st then Sending else Authenticating)
                   else (if isResetMode st then SendResetLink else SignIn);
                 cancelButton := isResetMode st |};
     socialButtons := if isResetMode st then None else Some (loading st) |}.

(** A mounted instance: its state and the timeouts it has registered that are
    not due yet (nothing in the component clears one). *)
Record Mounted : Set := { st : State; pending : list Timeout }.

Definition mount : Mounted := {| st := initialState; pending := [] |}.

Definition update (f : State -> State) (m : Mounted) : Mounted :=
  {| st := f (st m); pending := pending m |}.

Definition call (handler : State -> State * Timeout) (m : Mounted) : Mounted :=
  let '(st', t) := handler (st m) in
  {| st := st'; pending := pending m ++ [t] |}.

(** What the user can do.  [Submit] is the form's [submit] event, which the
    browser fires only while the submit button is enabled. *)
Inductive Action : Set :=
| Submit
| ForgotPassword
| Cancel
| BackToSignIn
| Facebook
| Microsoft.

(** One action.  It counts only when its control is rendered and enabled. *)
Definition click (a : Action) (m : Mounted) : Mounted :=
  let v := render (st m) in
  match a, body v with
  | Submit, Form f =>
      if submitDisabled f then m
      else if isResetMode (st m) then call handleReset m else call handleLogin m
  | ForgotPassword, Form f =>
      if forgotPasswordButton f then update (setIsResetMode true) m else m
  | Cancel, Form f =>
      if cancelButton f then update (setIsResetMode false) m else m
  | BackToSignIn, ResetConfirmation =>
      update (fun s => setResetSent false (setIsResetMode false s)) m
  | (Facebook | Microsoft), _ =>
      match socialButtons v with
      | Some false => call handleLogin m
      | _ => m
      end
  | _, _ => m
  end.

(** The [i]-th pending timeout comes due, in whatever order the timeouts do;
    the boolean says whether [onLogin] was called. *)
Definition fire (i : nat) (m : Mounted) : Mounted * bool :=
  match nth_error (pending m) i with
  | None => (m, false)
  | Some t =>
      let m' := {| st := st m; pending := removeNth i (pending m) |} in
      match callback t with
      | CallOnLogin => (m', true)
      | FinishReset => (update (fun s => setResetSent true (setLoading false s)) m', false)
      end
  end.

End Login.

(** ** [App] with its [Login] child *)

Section AppWithLogin.

Variable euclideanDistance : Descriptor -> Descriptor -> number.
Variable Math_round : number -> number.

(** [App] returns [<Login onLogin={...} />] exactly while [isAuthenticated] is
    false, so the form is mounted exactly while the login screen is rendered,
    and a form that is mounted again starts from its initial state.  The
    timeouts of a form that has been unmounted stay registered ([orphans]):
    their state setters then do nothing, but [onLogin] still reaches [App]. *)
Record Page : Set := {
  session : Session;
  login : option Login.Mounted;
  orphans : list Login.Timeout
}.

Definition initialPage : Page :=
  {| session := initialSession; login := Some Login.mount; orphans := [] |}.

(** The prop [onLogin={() => setIsAuthenticated(true)}]. *)
Definition onLogin (s : Session) : Session := onHooks (setIsAuthenticated true) s.

(** React mounts and unmounts the form after [App] has rendered. *)
Definition reconcile (session' : Session) (form : option Login.Mounted)
    (left : list Login.Timeout) : Page :=
  match render (hooks session'), form with
  | LoginScreen, Some m => {| session := session'; login := Some m; orphans := left |}
  | LoginScreen, None => {| session := session'; login := Some Login.mount; orphans := left |}
  | _, Some m => {| session := session'; login := None; orphans := left ++ Login.pending m |}
  | _, None => {| session := session'; login := None; orphans := left |}
  end.

Inductive PageEvent : Set :=
| OfApp (e : Event)
| OfLogin (a : Login.Action)
| TimeoutDue (i : nat)
| OrphanDue (i : nat).

(** One event of the page.  [App]'s own [LoggedIn] event stands for the call
    of [onLogin], which here only a timeout of the form makes. *)
Definition pageStep (e : PageEvent) (p : Page) : Page :=
  match e with
  | OfApp LoggedIn => p
  | OfApp e' => reconcile (step euclideanDistance Math_round e' (session p)) (login p) (orphans p)
  | OfLogin a =>
      match login p with
      | Some m => {| session := session p; login := Some (Login.click a m); orphans := orphans p |}
      | None => p
      end
  | TimeoutDue i =>
      match login p with
      | Some m =>
          let '(m', called) := Login.fire i m in
          reconcile (if called then onLogin (session p) else session p) (Some m') (orphans p)
      | None => p
      end
  | OrphanDue i =>
      match nth_error (orphans p) i with
      | Some t =>
          match Login.callback t with
          | Login.CallOnLogin =>
              reconcile (onLogin (session p)) (login p) (removeNth i (orphans p))
          | Login.FinishReset =>
              {| session := session p; login := login p; orphans := removeNth i (orphans p) |}
          end
      | None => p
      end
  end.

Definition runPage (events : list PageEvent) (p : Page) : Page :=
  fold_left (fun p e => pageStep e p) events p.

End AppWithLogin.

(** ** [services/geminiService.ts] *)

Module GeminiService.

(** [getClient]: [API_KEY] is [process.env.API_KEY] ([None] for [undefined]);
    the result is [None] when it throws, and the key the client is built
    with otherwise. *)
Definition getClient (API_KEY : option string) : option string :=
  match API_KEY with
  | Some apiKey => if String.eqb apiKey "" then None else Some apiKey
  | None => None
  end.

(** [Some rest] when [s] is [prefix] followed by [rest]. *)
Fixpoint stripPrefix (prefix s : string) : option string :=
  match prefix with
  | EmptyString => Some s
  | String c prefix' =>
      match s with
      | String c' s' => if Ascii.eqb c c' then stripPrefix prefix' s' else None
      | EmptyString => None
      end
  end.

(** [base64Image.replace(/^data:image\/(png|jpeg|jpg);base64,/, "")]: the
    pattern is anchored at the start, and its alternatives are tried in
    order. *)
Definition cleanBase64 (base64Image : string) : string :=
  match stripPrefix "data:image/" base64Image with
  | None => base64Image
  | Some rest =>
      let after (alternative : string) :=
        match stripPrefix alternative rest with
        | Some r => stripPrefix ";base64," r
        | None => None
        end in
      match after "png", after "jpeg", after "jpg" with
      | Some r, _, _ => r
      | None, Some r, _ => r
      | None, None, Some r => r
      | None, None, None => base64Image
      end
  end.

(** The argument of [ai.models.generateContent].  [promptScore] is the number
    the prompt prints with [toFixed(2)]; the rest of the prompt is a fixed
    text. *)
Record Request : Set := {
  apiKey : string;
  model : string;
  mimeType : string;
  data : string;
  promptScore : number;
  responseMimeType : string
}.

(** [analyzeBestMatch] up to its [await]: [None] when [getClient] threw, so
    that nothing is sent. *)
Definition analyzeBestMatch_request (API_KEY : option string) (base64Image : string)
    (similarityScore : number) : option Request :=
  match getClient API_KEY with
  | None => None
  | Some key =>
      Some {| apiKey := key;
              model := "gemini-2.5-flash";
              mimeType := "image/jpeg";
              data := cleanBase64 base64Image;
              promptScore := similarityScore;
              responseMimeType := "application/json" |}
  end.

(** How [generateContent] settles: it rejects, or it resolves with a response
    whose [text] may be [undefined]. *)
Inductive Reply : Set :=
| Failed
| Response (text : option string).

(** How the promise of [analyzeBestMatch] settles: [None] when it rejects (the
    [catch] logs and throws again), [Some text] when it resolves. *)
Definition analyzeBestMatch_settle (sent : option Request) (reply : Reply)
    : option (option string) :=
  match sent, reply with
  | None, _ => None
  | Some _, Failed => None
  | Some _, Response text => Some text
  end.

End GeminiService.

(** ** [components/MatchCard.tsx] *)

Module MatchCard.

(** A value [JSON.parse] returns. *)
#[local] Unset Elimination Schemes.
Inductive JsonValue : Set :=
| JNull
| JBool (b : bool)
| JNumber (n : number)
| JString (s : string)
| JArray (items : list JsonValue)
| JObject (members : list (string * JsonValue)).
#[local] Set Elimination Schemes.

(** Truthiness, of numbers, strings and parsed values. *)
Definition numberTruthy (n : number) : bool := negb (is_nan n || (n =? 0)).

Definition stringTruthy (s : string) : bool := negb (String.eqb s "").

Definition truthy (v : JsonValue) : bool :=
  match v with
  | JNull => false
  | JBool b => b
  | JNumber n => numberTruthy n
  | JString s => stringTruthy s
  | JArray _ | JObject _ => true
  end.

(** The [useState] values; [analysis] starts as [null]. *)
Record State : Set := { analysis : JsonValue; loading : bool; error : option string }.

Definition initialState : State := {| analysis := JNull; loading := false; error := None |}.

Definition setAnalysis (v : JsonValue) (st : State) : State :=
  {| analysis := v; loading := loading st; error := error st |}.

Definition setLoading (v : bool) (st : State) : State :=
  {| analysis := analysis st; loading := v; error := error st |}.

Definition setError (v : option string) (st : State) : State :=
  {| analysis := analysis st; loading := loading st; error := v |}.

Section Component.

(** [process.env.API_KEY], [JSON.parse] ([None] when it throws) and
    [Math.round] are the host's. *)
Variable API_KEY : option string.
Variable JSON_parse : string -> option JsonValue.
Variable Math_round : number -> number.

(** [handleAnalyze] up to its [await], with the request that goes out. *)
Definition handleAnalyze_begin (match_ : FaceMatchResult) (st : State)
    : State * option GeminiService.Request :=
  (setError None (setLoading true st),
   GeminiService.analyzeBestMatch_request API_KEY (frameDataUrl match_) (score match_)).

(** [handleAnalyze] from the settling of [analyzeBestMatch] on: the [try]
    body, the [catch], then the [finally]. *)
Definition handleAnalyze_end (result : option (option string)) (st : State) : State :=
  let st' :=
    match result with
    | None => setError (Some "Failed to analyze with Gemini.") st
    | Some None => st
    | Some (Some text) =>
        if stringTruthy text
        then match JSON_parse text with
             | Some v => setAnalysis v st
             | None => setError (Some "Failed to analyze with Gemini.") st
             end
        else st
    end in
  setLoading false st'.

(** The biometrics row, [match.gender || 'N/A'], [Math.round(match.age || 0)]
    and [match.expression || 'N/A']. *)
Record Biometrics : Set := { genderText : string; ageYears : number; moodText : string }.

Definition orElse (s : option string) (default : string) : string :=
  match s with
  | Some t => if stringTruthy t then t else default
  | None => default
  end.

Definition biometricsOf (match_ : FaceMatchResult) : option Biometrics :=
  let ageTruthy := match age match_ with Some a => numberTruthy a | None => false end in
  let genderTruthy := match gender match_ with Some g => stringTruthy g | None => false end in
  if ageTruthy || genderTruthy
  then Some {| genderText := orElse (gender match_) "N/A";
               ageYears :=
                 Math_round (match age match_ with
                             | Some a => if numberTruthy a then a else 0
                             | None => 0
                             end);
               moodText := orElse (expression match_) "N/A" |}
  else None.

(** What [{analysis && (...)}] renders: the report when [analysis] is truthy;
    otherwise [analysis] itself, which shows as nothing unless it is a
    number. *)
Inductive ReportSlot : Set :=
| NoReport
| BareNumber (n : number)
| Report (v : JsonValue).

Definition reportSlot (v : JsonValue) : ReportSlot :=
  if truthy v then Report v
  else match v with
       | JNumber n => BareNumber n
       | _ => NoReport
       end.

(** The action area at the foot of the card. *)
Inductive ActionArea : Set :=
| Unavailable
| Forensic (generateButton spinner : bool) (errorText : option string) (report : ReportSlot).

Record View : Set := {
  isMatch : bool;
  belowThreshold : bool;
  confidence : number;
  biometrics : option Biometrics;
  action : ActionArea
}.

Definition render (match_ : FaceMatchResult) (st : State) : View :=
  let isMatch := js_ge (score match_) 0.5 in
  {| isMatch := isMatch;
     belowThreshold := negb isMatch;
     confidence := score match_ * 100;
     biometrics := biometricsOf match_;
     action :=
       if isMatch
       then Forensic (negb (truthy (analysis st)) && negb (loading st))
                     (loading st)
                     (match error st with
                      | Some e => if stringTruthy e then Some e else None
                      | None => None
                      end)
                     (reportSlot (analysis st))
       else Unavailable |}.

(** One instance of the card: the prop [match] it was last rendered with, its
    state, and the [analyzeBestMatch] calls that have not settled ([None] for
    one in which [getClient] threw).  React keeps the instance, and so its
    state, while [App] renders a card at all. *)
Record Card : Set := {
  match_ : FaceMatchResult;
  st : State;
  requests : list (option GeminiService.Request)
}.

Definition mount (m : FaceMatchResult) : Card :=
  {| match_ := m; st := initialState; requests := [] |}.

Inductive Event : Set :=
| Rendered (m : FaceMatchResult)
| GenerateClicked
| Settled (i : nat) (reply : GeminiService.Reply).

Definition step (e : Event) (c : Card) : Card :=
  match e with
  | Rendered m => {| match_ := m; st := st c; requests := requests c |}
  | GenerateClicked =>
      match action (render (match_ c) (st c)) with
      | Forensic true _ _ _ =>
          let '(st', sent) := handleAnalyze_begin (match_ c) (st c) in
          {| match_ := match_ c; st := st'; requests := requests c ++ [sent] |}
      | _ => c
      end
  | Settled i reply =>
      match nth_error (requests c) i with
      | Some sent =>
          {| match_ := match_ c;
             st := handleAnalyze_end (GeminiService.analyzeBestMatch_settle sent reply) (st c);
             requests := removeNth i (requests c) |}
      | None => c
      end
  end.

Definition run (events : list Event) (c : Card) : Card :=
  fold_left (fun c e => step e c) events c.

End Component.

End MatchCard.

(** ** An engine to run the model on examples *)

(** The Euclidean distance of two descriptors, as face-api.js computes it. *)
Definition exampleDistance (a b : Descriptor) : number :=
  sqrt (fold_left (fun acc xy => acc + (fst xy - snd xy) * (fst xy - snd xy)) (combine a b) 0).

(** A stand-in for [Math.round], right on the whole numbers the examples use. *)
Definition exampleRound (x : number) : number := x.

Definition exampleBox : Box := {| box_x := 10; box_y := 20; box_width := 64; box_height := 64 |}.

(** A detection whose descriptor is at distance [d] from the descriptor [[0]]. *)
Definition faceAt (d : number) (who : string) (years : number) : Detection :=
  {| descriptor := [d]; det_age := years; det_gender := who; det_genderProbability := 0.9;
     expressions := [("neutral", 0.7); ("happy", 0.2)]; box := exampleBox |}.

Definition frameAt (t : number) (url : string) (dets : list Detection) : VideoFrame :=
  {| currentTime := t; snapshot := url; detections := dets |}.

(** Three frames: similarities 0.25, then 0.75 and 0.5, then 0.75 again. *)
Definition exampleFrames : list VideoFrame :=
  [ frameAt 1 "data:frame-1" [faceAt 0.75 "female" 40];
    frameAt 2 "data:frame-2" [faceAt 0.25 "male" 31; faceAt 0.5 "male" 52];
    frameAt 3 "data:frame-3" [faceAt 0.25 "male" 33] ].

(** A logged-in session whose models have loaded. *)
Definition idleHooks : Hooks := setState IDLE (setIsAuthenticated true initialHooks).

(** A session ready to scan: logged in, models loaded, a reference face with
    descriptor [[0]] and a video uploaded. *)
Definition readySession : Session :=
  run exampleDistance exampleRound
    [ LoggedIn;
      ModelsSettled true [true; true; true; true; true];
      ImageChosen (Some "blob:reference");
      ImageAnalysed (FaceFound [0]);
      VideoChosen (Some "blob:video") ]
    initialSession.

Definition targetPanelOf (sc : Screen) : option TargetPanel :=
  match sc with
  | MainView m => Some (targetPanel m)
  | _ => None
  end.

(** A run of the session from the first render into the second frame of a
    scan. *)
Definition exampleRun : list Event :=
  [ LoggedIn;
    ModelsSettled true [true; true; true; true; true];
    ImageChosen (Some "blob:reference");
    ImageAnalysed (FaceFound [0]);
    VideoChosen (Some "blob:video");
    StartStopClicked;
    DetectionsResolved 0 (fun _ => false) (frameAt 1 "data:frame-1" [faceAt 0.75 "female" 40]);
    AnimationFrame 1;
    DetectionsResolved 0 (fun _ => true)
      (frameAt 2 "data:frame-2" [faceAt 0.25 "male" 31; faceAt 0.5 "male" 52]) ].

(** A scan whose loop waits for its animation frame: the first detection call
    has resolved. *)
Definition waitingSession : Session :=
  run exampleDistance exampleRound
    [ StartStopClicked;
      DetectionsResolved 0 (fun _ => false) (frameAt 1 "data:frame-1" [faceAt 0.75 "female" 40]) ]
    readySession.

(** A logged-in session with nothing uploaded, and the page of a session that
    is ready to scan. *)
Definition idleSession : Session := {| hooks := idleHooks; runtime := initialRuntime |}.

Definition readyPage : Page := {| session := readySession; login := None; orphans := [] |}.

(** A record, and a stand-in for [JSON.parse] that knows one text. *)
Definition exampleMatch : FaceMatchResult :=
  {| score := 0.75; frameDataUrl := "data:image/jpeg;base64,/9j/4AAQ"; timestamp := 2;
     age := Some 31; gender := Some "male"; genderProbability := Some 0.9;
     expression := Some "neutral" |}.

Definition exampleParse (text : string) : option MatchCard.JsonValue :=
  if String.eqb text "{}" then Some (MatchCard.JObject []) else None.

(** * The vocabulary of the specification *)

(** ** Histories of the record *)

(** How a later value of [bestMatch] relates to the one before it: unchanged,
    created, or a strictly greater score. *)
Definition recordStep (a b : option FaceMatchResult) : Prop :=
  b = a \/
  match a, b with
  | None, Some _ => True
  | Some p, Some q => (score p <? score q) = true
  | _, None => False
  end.

(** The later score is at least the earlier one (and a record never goes
    back to absent). *)
Definition recordLe (a b : option FaceMatchResult) : Prop :=
  match a, b with
  | None, _ => True
  | Some p, Some q => (score p <=? score q) = true
  | Some _, None => False
  end.

(** The score of a record is a number (not [NaN]). *)
Definition recordValid (b : option FaceMatchResult) : Prop :=
  match b with
  | None => True
  | Some p => is_nan (score p) = false
  end.

(** A newest-first log in which every entry relates to the one before it. *)
Fixpoint chain (R : option FaceMatchResult -> option FaceMatchResult -> Prop)
    (l : list (option FaceMatchResult)) : Prop :=
  match l with
  | b :: (a :: _) as earlier => R a b /\ chain R earlier
  | _ => True
  end.


(** The detections of a run in the order the loop meets them, each with its frame. *)
Definition detectionsInOrder (frames : list VideoFrame) : list (VideoFrame * Detection) :=
  flat_map (fun frame => map (pair frame) (detections frame)) frames.

(** ** Invariants of the scan *)

(** Two scan states that differ at most in the log. *)
Definition sameScan (st st' : ScanState) : Prop :=
  frameBestSim st = frameBestSim st' /\ queued st = queued st' /\ best st = best st'.

(** The log stays a chain whose newest entry is the current record, and every
    entry stays a valid record. *)
Definition logInv (b : option FaceMatchResult) (lg : list (option FaceMatchResult)) : Prop :=
  (exists older, lg = b :: older) /\ chain recordStep lg /\ Forall recordValid lg.

(** What holds of a [processFrame] call whatever the engine returns, once the
    detections [seen] have been through the [forEach]: [frameBestSim] is a
    number, the log is a chain ending in the current record, and the record
    is absent only if it was absent at the start and no updater has run. *)
Definition scanSound (b0 : option FaceMatchResult) (seen : list Detection) (st : ScanState) : Prop :=
  is_nan (frameBestSim st) = false /\
  logInv (best st) (log st) /\
  (best st = None -> b0 = None /\ queued st = seen).

(** A record that can be compared: its score is [>= 0]. *)
Definition recordOk (b : option FaceMatchResult) : Prop :=
  forall p, b = Some p -> (0 <=? score p) = true.

Section Predicates.

Variable euclideanDistance : Descriptor -> Descriptor -> number.
Variable Math_round : number -> number.

(** Every distance the engine reports for these detections is [>= 0] (so not [NaN]). *)
Definition validDistances (target : Descriptor) (dets : list Detection) : Prop :=
  forall d, In d dets -> (0 <=? euclideanDistance target (descriptor d)) = true.

(** The record [p] was captured in [frame], with the score of one of the
    detections [seen], above the score the record had before the frame. *)
Definition fresh (target : Descriptor) (frame : VideoFrame) (b0 : option FaceMatchResult)
    (seen : list Detection) (p : FaceMatchResult) : Prop :=
  frameDataUrl p = snapshot frame /\ timestamp p = currentTime frame /\
  (exists d, In d seen /\ score p = detectionSimilarity euclideanDistance target d) /\
  (forall p0, b0 = Some p0 -> (score p0 <? score p) = true).

(** The invariant of the [forEach] once the detections [seen] are through. *)
Definition scanInv (target : Descriptor) (frame : VideoFrame) (b0 : option FaceMatchResult)
    (seen : list Detection) (st : ScanState) : Prop :=
  (0 <=? frameBestSim st) = true /\
  (seen = [] -> frameBestSim st = 0) /\
  (forall d, In d seen ->
     (detectionSimilarity euclideanDistance target d <=? frameBestSim st) = true) /\
  (seen <> [] ->
     exists d, In d seen /\ frameBestSim st = detectionSimilarity euclideanDistance target d) /\
  (forall d, In d (queued st) -> In d seen) /\
  (best st = None -> b0 = None) /\
  (forall p, best st = Some p ->
     (0 <=? score p) = true /\
     (queued st = [] -> (frameBestSim st <=? score p) = true) /\
     (best st = b0 \/ fresh target frame b0 seen p)).

(** What the record is after the frames [frames], from an absent record: absent
    if no frame had a detection; otherwise its score is a similarity of a
    detection of some frame, it bounds every similarity, it carries that
    frame's snapshot and time, and every similarity of the frames before that
    one is strictly smaller. *)
Definition bestOver (target : Descriptor) (frames : list VideoFrame)
    (b : option FaceMatchResult) : Prop :=
  match b with
  | None => forall frame, In frame frames -> detections frame = []
  | Some p =>
      (0 <=? score p) = true /\
      (forall frame d, In frame frames -> In d (detections frame) ->
         (detectionSimilarity euclideanDistance target d <=? score p) = true) /\
      exists earlier frame later,
        frames = earlier ++ frame :: later /\
        frameDataUrl p = snapshot frame /\ timestamp p = currentTime frame /\
        (exists d, In d (detections frame) /\
                   score p = detectionSimilarity euclideanDistance target d) /\
        (forall frame' d', In frame' earlier -> In d' (detections frame') ->
           (detectionSimilarity euclideanDistance target d' <? score p) = true)
  end.

(** The record is the capture of the first detection, in the order [met],
    whose similarity is the greatest. *)
Definition firstMaximum (target : Descriptor) (met : list (VideoFrame * Detection))
    (b : option FaceMatchResult) : Prop :=
  match b with
  | None => met = []
  | Some p =>
      exists before frame d after,
        met = before ++ (frame, d) :: after /\
        p = capturedMatch Math_round (detectionSimilarity euclideanDistance target d) frame d /\
        (forall fd, In fd before ->
           (detectionSimilarity euclideanDistance target (snd fd)
              <? detectionSimilarity euclideanDistance target d) = true) /\
        (forall fd, In fd after ->
           (detectionSimilarity euclideanDistance target (snd fd)
              <=? detectionSimilarity euclideanDistance target d) = true)
  end.

(** The invariant of the [forEach] when every updater runs at once. *)
Definition immediateInv (target : Descriptor) (pre : list (VideoFrame * Detection))
    (frame : VideoFrame) (seen : list Detection) (st : ScanState) : Prop :=
  queued st = [] /\
  firstMaximum target (pre ++ map (pair frame) seen) (best st) /\
  (0 <=? frameBestSim st) = true /\
  (pre ++ map (pair frame) seen = [] -> frameBestSim st = 0) /\
  (forall p, best st = Some p -> (frameBestSim st <=? score p) = true).

End Predicates.

(** ** Sessions *)

(** No [processFrame] call is waiting, neither for an animation frame nor for
    the engine. *)
Definition quiet (s : Session) : Prop :=
  animationFrames (runtime s) = [] /\ inFlight (runtime s) = [].



(** The two scores a session shows are numbers (not [NaN]). *)
Definition scoresAreNumbers (h : Hooks) : Prop :=
  is_nan (currentSimilarity h) = false /\ recordValid (bestMatch h).

(** The two scores lie in [[0, 1]], and the live one does not exceed the
    record's. *)
Definition scoresInRange (h : Hooks) : Prop :=
  (0 <=? currentSimilarity h) = true /\ (currentSimilarity h <=? 1) = true /\
  forall p, bestMatch h = Some p ->
    (0 <=? score p) = true /\ (score p <=? 1) = true /\
    (currentSimilarity h <=? score p) = true.

(** The events by kind. *)
Definition isStartStop (e : Event) : bool :=
  match e with StartStopClicked => true | _ => false end.


(** [loadModels] got through: [window.faceapi] is there and every load
    resolved. *)
Definition modelsLoaded (e : Event) : bool :=
  match e with
  | ModelsSettled faceapi loads => faceapi && forallb (fun ok => ok) loads
  | _ => false
  end.

Section SessionPredicates.

Variable euclideanDistance : Descriptor -> Descriptor -> number.
Variable Math_round : number -> number.

(** Along the run of [events] from [s], every detection call resolves with
    detections whose distances to the descriptor the call was made for are
    [>= 0]. *)
Fixpoint validRun (events : list Event) (s : Session) : Prop :=
  match events with
  | [] => True
  | e :: rest =>
      match e with
      | DetectionsResolved call _ frame =>
          forall target, nth_error (inFlight (runtime s)) call = Some target ->
                         validDistances euclideanDistance target (detections frame)
      | _ => True
      end /\
      validRun rest (step euclideanDistance Math_round e s)
  end.

(** The main view is rendered. *)
Definition mainShown (h : Hooks) : Prop :=
  isAuthenticated h = true /\ state h <> LOADING_MODELS.

(** What an event can do to a session: nothing, or what the handler behind
    it does, under the conditions in which its control is rendered. *)
Inductive stepEffect (s : Session) : Event -> Session -> Prop :=
| NoEffect e : stepEffect s e s
| ModelsEffect faceapi loads :
    stepEffect s (ModelsSettled faceapi loads) (onHooks (loadModels faceapi loads) s)
| LoggedInEffect :
    isAuthenticated (hooks s) = false ->
    stepEffect s LoggedIn (onHooks (setIsAuthenticated true) s)
| SignedOutEffect :
    mainShown (hooks s) ->
    stepEffect s SignedOut (onHooks (setIsAuthenticated false) s)
| ImageChosenEffect url :
    mainShown (hooks s) -> targetImage (hooks s) = None ->
    stepEffect s (ImageChosen (Some url))
      (onRuntime (fun r => setImageAnalyses (S (imageAnalyses r)) r)
         (onHooks (handleImageUpload_begin (Some url)) s))
| ImageAnalysedEffect outcome n :
    imageAnalyses (runtime s) = S n ->
    stepEffect s (ImageAnalysed outcome)
      (onRuntime (setImageAnalyses n) (onHooks (handleImageUpload_end outcome) s))
| ClearImageEffect :
    mainShown (hooks s) -> targetImage (hooks s) <> None ->
    stepEffect s ClearImageClicked (onHooks clearTargetImage s)
| VideoChosenEffect file :
    mainShown (hooks s) -> videoSource (hooks s) = None ->
    stepEffect s (VideoChosen file) (onHooks (handleVideoUpload file) s)
| RemoveVideoEffect :
    mainShown (hooks s) -> videoSource (hooks s) <> None ->
    stepEffect s RemoveVideoClicked (onHooks (setVideoSource None) s)
| StopEffect :
    mainShown (hooks s) -> videoSource (hooks s) <> None ->
    targetDescriptor (hooks s) <> None -> state (hooks s) = PROCESSING ->
    stepEffect s StartStopClicked (stopProcessing s)
| StartEffect :
    mainShown (hooks s) -> videoSource (hooks s) <> None ->
    targetDescriptor (hooks s) <> None -> state (hooks s) <> PROCESSING ->
    stepEffect s StartStopClicked (startProcessing s)
| ResetEffect :
    mainShown (hooks s) -> state (hooks s) <> IDLE ->
    stepEffect s ResetClicked (resetApp s)
| AnimationFrameEffect handle registered target :
    find (fun cb => Nat.eqb (fst cb) handle) (animationFrames (runtime s))
      = Some (registered, target) ->
    stepEffect s (AnimationFrame handle)
      (processFrame target (onRuntime (cancelAnimationFrame handle) s))
| ResolvedEffect call flush frame target :
    nth_error (inFlight (runtime s)) call = Some target ->
    stepEffect s (DetectionsResolved call flush frame)
      (processFrame_resume euclideanDistance Math_round flush target frame
         (onRuntime (fun r => setInFlight (removeNth call (inFlight r)) r) s))
| VideoEndedEffect :
    mainShown (hooks s) -> videoSource (hooks s) <> None ->
    stepEffect s VideoEnded (onHooks (setState FINISHED) (onRuntime (setVideo true true) s))
| VideoPlayedEffect :
    mainShown (hooks s) -> videoSource (hooks s) <> None ->
    stepEffect s VideoPlayed (onRuntime (setVideo false false) s)
| VideoPausedEffect :
    mainShown (hooks s) -> videoSource (hooks s) <> None ->
    stepEffect s VideoPaused (onRuntime pause s).

(** What holds of the page at every moment: no timeout is left from a form
    that is gone; the form is mounted exactly while the login screen is
    rendered, and it has one timeout pending while [loading] is set and none
    otherwise. *)
Definition pageInv (p : Page) : Prop :=
  orphans p = [] /\
  match login p with
  | Some m =>
      render (hooks (session p)) = LoginScreen /\
      List.length (Login.pending m) = (if Login.loading (Login.st m) then 1 else 0)%nat
  | None => render (hooks (session p)) <> LoginScreen
  end.

End SessionPredicates.

(** ** The card *)

(** What holds of a card at every moment: at most one [analyzeBestMatch] call
    is out, exactly while [loading] is set; no error is stored while it is
    out; and once a report is there no call is out and no error is stored. *)
Definition cardInv (c : MatchCard.Card) : Prop :=
  List.length (MatchCard.requests c) = (if MatchCard.loading (MatchCard.st c) then 1 else 0)%nat /\
  (MatchCard.loading (MatchCard.st c) = true -> MatchCard.error (MatchCard.st c) = None) /\
  (MatchCard.truthy (MatchCard.analysis (MatchCard.st c)) = true ->
   MatchCard.loading (MatchCard.st c) = false /\ MatchCard.error (MatchCard.st c) = None).

(** ** Expressions *)

(** Every expression score is a probability: a number in [[0, 1]]. *)
Definition probabilities (expressions : list (string * number)) : Prop :=
  forall kv, In kv expressions -> (0 <=? snd kv) = true /\ (snd kv <=? 1) = true.

(** The form's timeout that calls [onLogin]. *)
Definition loginTimeout : Login.Timeout :=
  {| Login.callback := Login.CallOnLogin; Login.delay := 1000 |}.

(** The events of the page that are the user's doing on the form. *)
Definition isFormAction (e : PageEvent) : bool :=
  match e with OfLogin _ => true | _ => false end.

(** ** Reading binary64 operations off their specification *)

Section SpecFloatDevices.
Local Open Scope Z_scope.

(** A rank that orders the numbers as [SFcompare] does; [NaN] has none. *)
Definition SFrank (x : spec_float) : option (Z * Z * Z) :=
  match x with
  | S754_nan => None
  | S754_zero _ => Some (0, 0, 0)%Z
  | S754_infinity s => Some (if s then (-2) else 2, 0, 0)%Z
  | S754_finite s m e => Some (if s then (-1, - e, - Zpos m) else (1, e, Zpos m))%Z
  end.

(** The lexicographic comparison of two ranks. *)
Definition lex3 (a b : Z * Z * Z) : comparison :=
  let '(a1, a2, a3) := a in
  let '(b1, b2, b3) := b in
  match (a1 ?= b1)%Z with
  | Eq => match (a2 ?= b2)%Z with Eq => (a3 ?= b3)%Z | c => c end
  | c => c
  end.

Definition frank (x : float) : option (Z * Z * Z) := SFrank (Prim2SF x).

Definition cmp_rank (a b : option (Z * Z * Z)) : option comparison :=
  match a, b with
  | Some a, Some b => Some (lex3 a b)
  | _, _ => None
  end.

(** What [k] right shifts of a non-negative mantissa [z] leave: the quotient,
    and the position of the discarded part against half a unit. *)
Definition shr_inv (z k : Z) (mrs : shr_record) : Prop :=
  0 <= shr_m mrs /\
  exists rem, z = shr_m mrs * 2 ^ k + rem /\ 0 <= rem < 2 ^ k /\
    shr_r mrs = (2 ^ k <=? 2 * rem) /\
    shr_s mrs = negb (2 * rem =? (if shr_r mrs then 2 ^ k else 0)).

(** Rounding to nearest, ties to even: whether the quotient [q] of a division
    by [N] with remainder [rem] goes up by one. *)
Definition round_up (N q rem : Z) : bool :=
  (N <=? 2 * rem) && (negb (2 * rem =? N) || Z.odd q).

(** [r] is a number (not [NaN]) whose sign bit is [sx]. *)
Definition SFshape (sx : bool) (r : spec_float) : Prop :=
  match r with
  | S754_nan => False
  | S754_zero s | S754_infinity s | S754_finite s _ _ => s = sx
  end.

(** The number 1. *)
Definition SFone64 : spec_float := S754_finite false 4503599627370496 (-52).

End SpecFloatDevices.

(** * Facts about binary64 numbers

    The comparisons of primitive floats are those of [SFcompare] on their
    [spec_float] images, and [1 - d] is [SFsub]: the lemmas below read both
    off the specification. *)

Module Binary64.

(** ** The order *)

Lemma SFcompare_rank x y :
  SFcompare x y =
  match SFrank x, SFrank y with
  | Some a, Some b => Some (lex3 a b)
  | _, _ => None
  end.
Proof.
  destruct x as [[]|[]| |[] m1 e1], y as [[]|[]| |[] m2 e2]; simpl; try reflexivity.
  rewrite Z.compare_opp, (Z.compare_antisym e1 e2).
  destruct (e1 ?= e2)%Z; simpl; try reflexivity.
Qed.

Lemma ltb_rank x y : (x <? y) = match cmp_rank (frank x) (frank y) with Some Lt => true | _ => false end.
Proof. rewrite FloatAxioms.ltb_spec. unfold SFltb. rewrite SFcompare_rank. reflexivity. Qed.

Lemma leb_rank x y : (x <=? y) = match cmp_rank (frank x) (frank y) with Some (Lt | Eq) => true | _ => false end.
Proof. rewrite FloatAxioms.leb_spec. unfold SFleb. rewrite SFcompare_rank. reflexivity. Qed.

Lemma eqb_rank x y : (x =? y) = match cmp_rank (frank x) (frank y) with Some Eq => true | _ => false end.
Proof. rewrite FloatAxioms.eqb_spec. unfold SFeqb. rewrite SFcompare_rank. reflexivity. Qed.

Lemma is_nan_rank x : is_nan x = match frank x with None => true | Some _ => false end.
Proof.
  unfold is_nan. rewrite eqb_rank. destruct (frank x) as [[[a b] c]|]; simpl; [|reflexivity].
  rewrite !Z.compare_refl. reflexivity.
Qed.

Ltac rank_cases :=
  repeat match goal with
  | |- context [frank ?x] => destruct (frank x) as [[[? ?] ?]|]
  | H : context [frank ?x] |- _ => destruct (frank x) as [[[? ?] ?]|]
  end.

Ltac cmp_cases :=
  repeat match goal with
  | |- context [(?a ?= ?b)%Z] => destruct (Z.compare_spec a b)
  | H : context [(?a ?= ?b)%Z] |- _ => destruct (Z.compare_spec a b)
  end.

Ltac float_order :=
  intros;
  rewrite ?ltb_rank, ?leb_rank, ?eqb_rank, ?is_nan_rank in *;
  rank_cases; unfold cmp_rank, lex3 in *; simpl in *;
  try discriminate; try reflexivity;
  cmp_cases; try discriminate; try reflexivity; try lia.

Lemma ltb_trans x y z : (x <? y) = true -> (y <? z) = true -> (x <? z) = true.
Proof. float_order. Qed.

Lemma leb_trans x y z : (x <=? y) = true -> (y <=? z) = true -> (x <=? z) = true.
Proof. float_order. Qed.

Lemma ltb_leb_trans x y z : (x <? y) = true -> (y <=? z) = true -> (x <? z) = true.
Proof. float_order. Qed.

Lemma leb_ltb_trans x y z : (x <=? y) = true -> (y <? z) = true -> (x <? z) = true.
Proof. float_order. Qed.

Lemma ltb_leb x y : (x <? y) = true -> (x <=? y) = true.
Proof. float_order. Qed.

Lemma ltb_irrefl x : (x <? x) = false.
Proof. float_order. Qed.

Lemma ltb_asym x y : (x <? y) = true -> (y <? x) = false.
Proof. float_order. Qed.

Lemma ltb_not_leb x y : (x <? y) = true -> (y <=? x) = false.
Proof. float_order. Qed.

Lemma leb_not_ltb x y : (x <=? y) = true -> (y <? x) = false.
Proof. float_order. Qed.

Lemma not_ltb_leb x y : is_nan x = false -> is_nan y = false -> (x <? y) = false -> (y <=? x) = true.
Proof. float_order. Qed.

Lemma leb_refl x : is_nan x = false -> (x <=? x) = true.
Proof. float_order. Qed.

Lemma leb_not_nan_l x y : (x <=? y) = true -> is_nan x = false.
Proof. float_order. Qed.

Lemma leb_not_nan_r x y : (x <=? y) = true -> is_nan y = false.
Proof. float_order. Qed.

Lemma ltb_not_nan_l x y : (x <? y) = true -> is_nan x = false.
Proof. float_order. Qed.

Lemma ltb_not_nan_r x y : (x <? y) = true -> is_nan y = false.
Proof. float_order. Qed.

Lemma leb_antisym x y : (x <=? y) = true -> (y <=? x) = true -> (x =? y) = true.
Proof. float_order. Qed.

Lemma leb_ltb_eqb x y : (x <=? y) = ((x <? y) || (x =? y))%bool.
Proof. float_order. Qed.


(** ** Subtraction from one *)

Section SubtractFromOne.
Local Open Scope Z_scope.

Lemma digits2_pos_bounds (m : positive) :
  2 ^ (Zpos (digits2_pos m) - 1) <= Zpos m < 2 ^ Zpos (digits2_pos m).
Proof.
  induction m as [m IH|m IH|]; cbn [digits2_pos].
  - rewrite Pos2Z.inj_succ. replace (Z.succ (Zpos (digits2_pos m)) - 1) with (Z.succ (Zpos (digits2_pos m) - 1)) by lia.
    rewrite !Z.pow_succ_r by lia. lia.
  - rewrite Pos2Z.inj_succ. replace (Z.succ (Zpos (digits2_pos m)) - 1) with (Z.succ (Zpos (digits2_pos m) - 1)) by lia.
    rewrite !Z.pow_succ_r by lia. lia.
  - simpl. lia.
Qed.

Lemma digits2_pos_unique (m : positive) (k : Z) :
  2 ^ (k - 1) <= Zpos m < 2 ^ k -> Zpos (digits2_pos m) = k.
Proof.
  intros [Hlo Hhi]. pose proof (digits2_pos_bounds m) as [Dlo Dhi].
  set (D := Zpos (digits2_pos m)) in *.
  assert (0 < D) by (subst D; lia).
  assert (0 < k).
  { destruct (Z.ltb_spec 0 k); [assumption|]. exfalso.
    assert (2 ^ k <= 1).
    { destruct (Z.eq_dec k 0) as [->|]; [simpl; lia|]. rewrite Z.pow_neg_r by lia. lia. }
    lia. }
  destruct (Z.lt_trichotomy D k) as [Hlt|[Heq|Hgt]]; [exfalso| assumption | exfalso].
  - assert (2 ^ D <= 2 ^ (k - 1)) by (apply Z.pow_le_mono_r; lia). lia.
  - assert (2 ^ k <= 2 ^ (D - 1)) by (apply Z.pow_le_mono_r; lia). lia.
Qed.

Lemma Pos_iter_xO (m p : positive) : Zpos (Pos.iter xO m p) = Zpos m * 2 ^ Zpos p.
Proof.
  induction p as [|p IH] using Pos.peano_ind.
  - simpl. lia.
  - rewrite Pos.iter_succ, Pos2Z.inj_succ, Z.pow_succ_r by lia.
    rewrite Pos2Z.inj_xO, IH. lia.
Qed.

Lemma iter_pos_nat {A} (f : A -> A) (p : positive) (x : A) :
  @SpecFloat.iter_pos A f p x = Nat.iter (Pos.to_nat p) f x.
Proof.
  revert x. induction p as [p IH|p IH|]; intros x; cbn [SpecFloat.iter_pos].
  - rewrite !IH, Pos2Nat.inj_xI. 
    replace (S (2 * Pos.to_nat p))%nat with (Pos.to_nat p + (Pos.to_nat p + 1))%nat by lia.
    rewrite !Nat.iter_add. simpl. reflexivity.
  - rewrite !IH, Pos2Nat.inj_xO.
    replace (2 * Pos.to_nat p)%nat with (Pos.to_nat p + Pos.to_nat p)%nat by lia.
    rewrite Nat.iter_add. reflexivity.
  - reflexivity.
Qed.

Ltac zbool_cases :=
  repeat match goal with
  | |- context [(?a <=? ?b)%Z] => destruct (Z.leb_spec a b)
  | |- context [(?a =? ?b)%Z] => destruct (Z.eqb_spec a b)
  | |- context [(?a <? ?b)%Z] => destruct (Z.ltb_spec a b)
  end.

Lemma shr_1_inv z k mrs : 0 <= k -> shr_inv z k mrs -> shr_inv z (k + 1) (shr_1 mrs).
Proof.
  intros Hk (Hm & rem & Hz & Hrem & Hr & Hs). unfold shr_inv.
  assert (Hp : 2 ^ (k + 1) = 2 * 2 ^ k)
    by (replace (k + 1) with (Z.succ k) by lia; rewrite Z.pow_succ_r by lia; reflexivity).
  assert (HP : 0 < 2 ^ k) by (apply Z.pow_pos_nonneg; lia).
  rewrite Hp. set (P := 2 ^ k) in *. clearbody P.
  destruct mrs as [m r s]; cbn [shr_m shr_r shr_s] in *. subst r s.
  destruct m as [|[p|p|]|p]; cbn [shr_1 shr_m shr_r shr_s]; try lia.
  - split; [lia|]. exists rem.
    repeat split; try lia; zbool_cases; simpl; try reflexivity; try lia.
  - split; [lia|]. exists (rem + P).
    repeat split; try lia; zbool_cases; simpl; try reflexivity; try lia.
  - split; [lia|]. exists rem.
    repeat split; try lia; zbool_cases; simpl; try reflexivity; try lia.
  - split; [lia|]. exists (rem + P).
    repeat split; try lia; zbool_cases; simpl; try reflexivity; try lia.
Qed.

Lemma shr_iter_inv z (n : nat) :
  0 <= z -> shr_inv z (Z.of_nat n) (Nat.iter n shr_1 (Build_shr_record z false false)).
Proof.
  intros Hz. induction n as [|n IH].
  - simpl. split; [assumption|]. exists 0. cbn. repeat split; lia.
  - rewrite Nat2Z.inj_succ, <- Z.add_1_r. cbn [Nat.iter nat_rect].
    apply shr_1_inv; [lia|exact IH].
Qed.

Lemma shr_pos_inv z (p : positive) e :
  0 <= z ->
  shr_inv z (Zpos p) (fst (shr (Build_shr_record z false false) e (Zpos p))) /\
  snd (shr (Build_shr_record z false false) e (Zpos p)) = e + Zpos p.
Proof.
  intros Hz. cbn [shr fst snd]. split; [|reflexivity].
  rewrite iter_pos_nat, <- positive_nat_Z. apply shr_iter_inv. assumption.
Qed.

Lemma fexp64 k : fexp prec emax k = Z.max (k - 53) (-1074).
Proof. reflexivity. Qed.

Lemma bounded_inv m e :
  bounded prec emax m e = true ->
  Z.max (Zpos (digits2_pos m) + e - 53) (-1074) = e /\ e <= 971.
Proof.
  unfold bounded, canonical_mantissa. rewrite fexp64. intros H.
  apply andb_prop in H. destruct H as [H1 H2].
  apply Z.eqb_eq in H1. apply Z.leb_le in H2. change (emax - prec) with 971 in H2.
  split; assumption.
Qed.

Lemma shr_noop mrs e n : n <= 0 -> shr mrs e n = (mrs, e).
Proof. destruct n; intros H; try reflexivity. lia. Qed.

Lemma bra_exact sx (mx : positive) ex :
  fexp prec emax (Zpos (digits2_pos mx) + ex) <= ex ->
  binary_round_aux prec emax sx (Zpos mx) ex loc_Exact =
  if ex <=? 971 then S754_finite sx mx ex else S754_infinity sx.
Proof.
  intros H. unfold binary_round_aux, shr_fexp. cbn [Zdigits2 shr_record_of_loc].
  rewrite shr_noop by lia. cbn [shr_m loc_of_shr_record round_nearest_even Zdigits2 shr_record_of_loc].
  rewrite shr_noop by lia. cbn [shr_m]. reflexivity.
Qed.

Lemma bra_round sx (mx : positive) ex :
  53 < Zpos (digits2_pos mx) -> -1074 <= ex ->
  exists q rem,
    Zpos mx = q * 2 ^ (Zpos (digits2_pos mx) - 53) + rem /\
    0 <= rem < 2 ^ (Zpos (digits2_pos mx) - 53) /\
    2 ^ 52 <= q < 2 ^ 53 /\
    binary_round_aux prec emax sx (Zpos mx) ex loc_Exact =
    if round_up (2 ^ (Zpos (digits2_pos mx) - 53)) q rem && (q =? 2 ^ 53 - 1) then
      if ex + (Zpos (digits2_pos mx) - 53) + 1 <=? 971
      then S754_finite sx 4503599627370496 (ex + (Zpos (digits2_pos mx) - 53) + 1)
      else S754_infinity sx
    else
      if ex + (Zpos (digits2_pos mx) - 53) <=? 971
      then S754_finite sx (Z.to_pos (q + (if round_up (2 ^ (Zpos (digits2_pos mx) - 53)) q rem then 1 else 0)))
                       (ex + (Zpos (digits2_pos mx) - 53))
      else S754_infinity sx.
Proof.
  intros HD Hex. pose proof (digits2_pos_bounds mx) as [Dlo Dhi].
  set (D := Zpos (digits2_pos mx)) in *.
  set (n := D - 53) in *. assert (Hn : 0 < n) by (subst n; lia).
  unfold binary_round_aux, shr_fexp. cbn [Zdigits2 shr_record_of_loc]. fold D.
  rewrite fexp64. replace (Z.max (D + ex - 53) (-1074) - ex) with n by (subst n; lia).
  destruct n as [|p|p] eqn:En; try lia.
  destruct (shr_pos_inv (Zpos mx) p ex ltac:(lia)) as [Hinv He'].
  destruct (shr {| shr_m := Zpos mx; shr_r := false; shr_s := false |} ex (Zpos p)) as [mrs' e'] eqn:Eshr.
  cbn [fst snd] in Hinv, He'. subst e'.
  destruct Hinv as (Hq & rem & Hz & Hrem & Hr & Hs).
  destruct mrs' as [q r s]. cbn [shr_m shr_r shr_s] in *.
  assert (HN : 0 < 2 ^ Zpos p) by (apply Z.pow_pos_nonneg; lia).
  assert (HD1 : 2 ^ (D - 1) = 2 ^ 52 * 2 ^ Zpos p).
  { replace (D - 1) with (52 + Zpos p) by lia. apply Z.pow_add_r; lia. }
  assert (HD2 : 2 ^ D = 2 ^ 53 * 2 ^ Zpos p).
  { replace D with (53 + Zpos p) at 1 by lia. apply Z.pow_add_r; lia. }
  rewrite HD1 in Dlo. rewrite HD2 in Dhi.
  set (N := 2 ^ Zpos p) in *. clearbody N.
  assert (Hqb : 2 ^ 52 <= q < 2 ^ 53).
  { change (2 ^ 52) with 4503599627370496 in *. change (2 ^ 53) with 9007199254740992 in *. nia. }
  exists q, rem. split; [exact Hz|]. split; [exact Hrem|]. split; [exact Hqb|].
  assert (Hround : round_nearest_even q (loc_of_shr_record {| shr_m := q; shr_r := r; shr_s := s |})
                   = q + (if round_up N q rem then 1 else 0)).
  { unfold round_up, round_nearest_even. subst r s. rewrite <- Z.negb_odd.
    destruct (Z.leb_spec N (2 * rem)); cbn [loc_of_shr_record andb].
    - destruct (Z.eqb_spec (2 * rem) N); cbn [negb orb].
      + destruct (Z.odd q); cbn [negb]; lia.
      + lia.
    - destruct (Z.eqb_spec (2 * rem) 0); cbn [negb]; lia. }
  rewrite Hround. clear Hround.
  change (2 ^ 52) with 4503599627370496 in *. change (2 ^ 53) with 9007199254740992 in *.
  destruct (round_up N q rem) eqn:Eup; cbn [andb].
  - destruct (Z.eqb_spec q (9007199254740992 - 1)) as [Eq|Nq].
    + subst q. change (9007199254740992 - 1 + 1) with (Zpos 9007199254740992).
      cbn [Zdigits2 digits2_pos Pos.succ]. rewrite fexp64.
      replace (Z.max (54 + (ex + Zpos p) - 53) (-1074) - (ex + Zpos p)) with 1 by lia.
      cbn. change (emax - prec) with 971. reflexivity.
    + assert (Hq1 : exists q1, q + 1 = Zpos q1) by (exists (Z.to_pos (q + 1)); lia).
      destruct Hq1 as [q1 Hq1]. rewrite Hq1.
      assert (Hd : Zpos (digits2_pos q1) = 53).
      { apply digits2_pos_unique. change (2 ^ (53 - 1)) with 4503599627370496.
        change (2 ^ 53) with 9007199254740992. lia. }
      cbn [Zdigits2]. rewrite Hd, fexp64. rewrite shr_noop by lia.
      cbn [shr_m shr_record_of_loc]. change (emax - prec) with 971. reflexivity.
  - rewrite Z.add_0_r.
    destruct q as [|q1|q1]; try lia.
    assert (Hd : Zpos (digits2_pos q1) = 53).
    { apply digits2_pos_unique. change (2 ^ (53 - 1)) with 4503599627370496.
      change (2 ^ 53) with 9007199254740992. lia. }
    cbn [Zdigits2]. rewrite Hd, fexp64. rewrite shr_noop by lia.
    cbn [shr_m shr_record_of_loc]. change (emax - prec) with 971. reflexivity.
Qed.

Lemma shr_1_nonneg mrs : 0 <= shr_m mrs -> 0 <= shr_m (shr_1 mrs).
Proof. destruct mrs as [[|[p|p|]|p] r s]; cbn; lia. Qed.

Lemma shr_nonneg mrs e n : 0 <= shr_m mrs -> 0 <= shr_m (fst (shr mrs e n)).
Proof.
  intros H. destruct n as [|p|p]; cbn [shr fst]; try assumption.
  rewrite iter_pos_nat. induction (Pos.to_nat p) as [|k IH]; cbn [Nat.iter nat_rect].
  - assumption.
  - apply shr_1_nonneg, IH.
Qed.

Lemma bra_shape sx mx ex lx : 0 <= mx -> SFshape sx (binary_round_aux prec emax sx mx ex lx).
Proof.
  intros Hm. unfold binary_round_aux.
  destruct (shr_fexp prec emax mx ex lx) as [mrs' e'] eqn:E1.
  destruct (shr_fexp prec emax (round_nearest_even (shr_m mrs') (loc_of_shr_record mrs')) e' loc_Exact)
    as [mrs'' e''] eqn:E2.
  assert (H1 : 0 <= shr_m mrs').
  { change mrs' with (fst (mrs', e')). rewrite <- E1. unfold shr_fexp. apply shr_nonneg.
    destruct lx as [|[]]; cbn; assumption. }
  assert (H2 : 0 <= shr_m mrs'').
  { change mrs'' with (fst (mrs'', e'')). rewrite <- E2. unfold shr_fexp. apply shr_nonneg. cbn.
    unfold round_nearest_even. destruct (loc_of_shr_record mrs') as [|[]]; try lia.
    destruct (Z.even (shr_m mrs')); lia. }
  unfold SFshape. destruct (shr_m mrs'') as [|p|p]; try reflexivity; try lia.
  destruct (e'' <=? emax - prec); reflexivity.
Qed.

Lemma binary_round_shape sx mx ex : SFshape sx (binary_round prec emax sx mx ex).
Proof.
  unfold binary_round. destruct (shl_align mx ex _) as [mz ez]. apply bra_shape. lia.
Qed.

Lemma shl_align_spec mx ex ex' :
  ex' <= ex ->
  Zpos (fst (shl_align mx ex ex')) = Zpos mx * 2 ^ (ex - ex') /\ snd (shl_align mx ex ex') = ex'.
Proof.
  intros H. unfold shl_align. destruct (ex' - ex) as [|d|d] eqn:Ed; try lia; cbn [fst snd].
  - replace (ex - ex') with 0 by lia. simpl. split; lia.
  - rewrite Pos_iter_xO. replace (ex - ex') with (Zpos d) by lia. split; reflexivity.
Qed.

Lemma SFsub_one_ge m e :
  bounded prec emax m e = true -> -52 <= e ->
  SF64sub SFone64 (S754_finite false m e) = S754_zero false \/
  SFshape true (SF64sub SFone64 (S754_finite false m e)).
Proof.
  intros Hb He. apply bounded_inv in Hb. destruct Hb as [Hc _].
  pose proof (digits2_pos_bounds m) as [Dlo _].
  assert (HD : Zpos (digits2_pos m) = 53) by lia. rewrite HD in Dlo.
  change (2 ^ (53 - 1)) with 4503599627370496 in Dlo.
  unfold SF64sub, SFsub, SFone64. cbv zeta. rewrite Z.min_l by lia.
  destruct (shl_align_spec 4503599627370496 (-52) (-52) ltac:(lia)) as [H1 _].
  destruct (shl_align_spec m e (-52) ltac:(lia)) as [H2 _].
  cbn [cond_Zopp]. rewrite H1, H2. change (-52 - -52) with 0. rewrite Z.pow_0_r, Z.mul_1_r.
  assert (HP : 1 <= 2 ^ (e - -52)) by (apply (Z.pow_le_mono_r 2 0); lia).
  destruct (4503599627370496 - Zpos m * 2 ^ (e - -52)) as [|p|p] eqn:Ez; try nia.
  - left. reflexivity.
  - right. cbn [binary_normalize]. apply binary_round_shape.
Qed.

Lemma pow2_split a b : 0 <= a -> 0 <= b -> 2 ^ (a + b) = 2 ^ a * 2 ^ b.
Proof. intros. apply Z.pow_add_r; assumption. Qed.

Lemma SFsub_one_lt m e :
  bounded prec emax m e = true -> e < -52 ->
  exists m' e',
    SF64sub SFone64 (S754_finite false m e) = S754_finite false m' e' /\
    (e' < -52 \/ (e' = -52 /\ m' = 4503599627370496%positive)) /\
    ((e' = -52 /\ m' = 4503599627370496%positive) <->
     (e < -106 \/ (e = -106 /\ Zpos m <= 4503599627370496))).
Proof.
  intros Hb He. apply bounded_inv in Hb. destruct Hb as [Hc He971].
  pose proof (digits2_pos_bounds m) as [Mlo Mhi].
  set (Dm := Zpos (digits2_pos m)) in *.
  assert (HDm : 0 < Dm <= 53) by (subst Dm; lia).
  assert (Hm53 : Zpos m < 2 ^ 53).
  { apply Z.lt_le_trans with (1 := Mhi). apply Z.pow_le_mono_r; lia. }
  assert (Hnorm : -1074 < e -> 2 ^ 52 <= Zpos m).
  { intros Hn. assert (Dm = 53) by lia. replace (Dm - 1) with 52 in Mlo by lia. exact Mlo. }
  change (2 ^ 52) with 4503599627370496 in *. change (2 ^ 53) with 9007199254740992 in *.
  clear Mlo Mhi.
  unfold SF64sub, SFsub, SFone64. cbv zeta. rewrite Z.min_r by lia.
  destruct (shl_align_spec 4503599627370496 (-52) e ltac:(lia)) as [H1 _].
  destruct (shl_align_spec m e e ltac:(lia)) as [H2 _].
  cbn [cond_Zopp]. rewrite H1, H2. replace (e - e) with 0 by lia. rewrite Z.pow_0_r, Z.mul_1_r.
  clear H1 H2.
  assert (HT : 2 <= 2 ^ (-52 - e)) by (apply (Z.pow_le_mono_r 2 1); lia).
  destruct (4503599627370496 * 2 ^ (-52 - e) - Zpos m) as [|zp|zp] eqn:Ez; try lia.
  cbn [binary_normalize]. unfold binary_round.
  pose proof (digits2_pos_bounds zp) as [Zlo Zhi].
  set (D := Zpos (digits2_pos zp)) in *.
  assert (HD0 : 0 < D) by (subst D; lia).
  rewrite fexp64.
  destruct (Z.le_gt_cases D 53) as [HD|HD].
  - (* the difference fits in 53 bits: no rounding *)
    set (e' := Z.max (D + e - 53) (-1074)).
    assert (He' : e' <= e) by (subst e'; lia).
    destruct (shl_align_spec zp e e' He') as [S1 S2].
    destruct (shl_align zp e e') as [mz ez]. cbn [fst snd] in S1, S2. subst ez.
    assert (Hk : 0 <= e - e') by lia.
    assert (Hdz : Zpos (digits2_pos mz) = D + (e - e')).
    { apply digits2_pos_unique. rewrite S1.
      replace (D + (e - e') - 1) with ((D - 1) + (e - e')) by lia.
      rewrite !pow2_split by lia.
      assert (0 < 2 ^ (e - e')) by (apply Z.pow_pos_nonneg; lia). nia. }
    rewrite bra_exact by (rewrite Hdz, fexp64; subst e'; lia).
    destruct (Z.leb_spec e' 971); [|lia].
    exists mz, e'. split; [reflexivity|]. split; [left; lia|].
    split; [intros [? _]; lia|].
    intros Hd. exfalso.
    assert (HT4 : 4 <= 2 ^ (-52 - e)) by (apply (Z.pow_le_mono_r 2 2); lia).
    assert (Zpos zp < 9007199254740992).
    { apply Z.lt_le_trans with (1 := Zhi). apply (Z.pow_le_mono_r 2 D 53); lia. }
    lia.
  - (* more than 53 bits: one rounding to nearest even *)
    assert (Hno : shl_align zp e (Z.max (D + e - 53) (-1074)) = (zp, e)).
    { unfold shl_align. destruct (Z.max (D + e - 53) (-1074) - e) eqn:Ed; try reflexivity. lia. }
    rewrite Hno. clear Hno.
    destruct (bra_round false zp e HD ltac:(lia)) as (q & rem & Hz & Hrem & Hq & Hbra).
    fold D in Hz, Hrem, Hbra. rewrite Hbra. clear Hbra.
    change (2 ^ 52) with 4503599627370496 in *. change (2 ^ 53) with 9007199254740992 in *.
    (* the difference has exactly [-e] digits *)
    assert (HE : 2 ^ (- e) = 4503599627370496 * 2 ^ (-52 - e)).
    { replace (- e) with (52 + (-52 - e)) by lia. rewrite pow2_split by lia. reflexivity. }
    assert (HDE : D = - e).
    { apply digits2_pos_unique.
      assert (HT4 : 4 <= 2 ^ (-52 - e)).
      { destruct (Z.eq_dec e (-53)) as [->|]; [|apply (Z.pow_le_mono_r 2 2); lia].
        exfalso. change (2 ^ (-52 - -53)) with 2 in *.
        assert (2 ^ 53 <= 2 ^ (D - 1)) by (apply Z.pow_le_mono_r; lia).
        change (2 ^ 53) with 9007199254740992 in *. lia. }
      assert (HE1 : 2 ^ (- e - 1) = 2251799813685248 * 2 ^ (-52 - e)).
      { replace (- e - 1) with (51 + (-52 - e)) by lia. rewrite pow2_split by lia. reflexivity. }
      rewrite HE, HE1. lia. }
    assert (HN : 2 ^ (-52 - e) = 2 * 2 ^ (D - 53)).
    { replace (-52 - e) with (1 + (D - 53)) by lia. rewrite pow2_split by lia. reflexivity. }
    assert (HNpos : 0 < 2 ^ (D - 53)) by (apply Z.pow_pos_nonneg; lia).
    assert (HN106 : e = -106 -> 2 ^ (D - 53) = 9007199254740992).
    { intros ->. replace D with 106 by lia. reflexivity. }
    assert (HNlt : -106 < e -> 2 ^ (D - 53) <= 4503599627370496).
    { intros Hlt. apply (Z.pow_le_mono_r 2 (D - 53) 52); lia. }
    assert (HNgt : e < -106 -> 18014398509481984 <= 2 ^ (D - 53)).
    { intros Hlt. apply (Z.pow_le_mono_r 2 54 (D - 53)); lia. }
    rewrite HN in Ez. set (N := 2 ^ (D - 53)) in *. clearbody N.
    unfold round_up.
    destruct (Z.eqb_spec q (9007199254740992 - 1)) as [Eq|Nq].
    + subst q. change (Z.odd (9007199254740992 - 1)) with true. rewrite orb_true_r, !andb_true_r.
      destruct (Z.leb_spec N (2 * rem)) as [Hup|Hup].
      * destruct (Z.leb_spec (e + (D - 53) + 1) 971); [|lia].
        exists 4503599627370496%positive, (e + (D - 53) + 1).
        split; [reflexivity|]. split; [right; split; [lia|reflexivity]|].
        split; [intros _|intros _; split; [lia|reflexivity]].
        destruct (Z.lt_trichotomy e (-106)) as [?|[?|?]]; [left; lia| right; split; lia |].
        exfalso. specialize (Hnorm ltac:(lia)). specialize (HNlt ltac:(lia)). lia.
      * destruct (Z.leb_spec (e + (D - 53)) 971); [|lia].
        eexists _, (e + (D - 53)). split; [reflexivity|]. split; [left; lia|].
        split; [intros [? _]; lia|].
        intros Hd. exfalso. destruct Hd as [Hd|[Hd Hd']].
        -- specialize (HNgt Hd). lia.
        -- specialize (HN106 Hd). lia.
    + rewrite andb_false_r.
      destruct (Z.leb_spec (e + (D - 53)) 971); [|lia].
      eexists _, (e + (D - 53)). split; [reflexivity|]. split; [left; lia|].
      split; [intros [? _]; lia|].
      intros Hd. exfalso. destruct Hd as [Hd|[Hd Hd']].
      * specialize (HNgt Hd). nia.
      * specialize (HN106 Hd). nia.
Qed.


End SubtractFromOne.

(** ** [Math.max(0, 1 - d)] *)

Lemma Math_max_zero r :
  Math_max 0 r = if is_nan r then nan else if 0 <? r then r else 0.
Proof.
  unfold Math_max. change (is_nan 0) with false. cbn [orb].
  destruct (is_nan r); [reflexivity|]. destruct (0 <? r); [reflexivity|].
  destruct (r <? 0); reflexivity.
Qed.

Lemma Prim2SF_one : Prim2SF 1 = SFone64.
Proof. reflexivity. Qed.

Lemma Prim2SF_zero : Prim2SF 0 = S754_zero false.
Proof. reflexivity. Qed.

Lemma Prim2SF_tiny : Prim2SF 0x1p-54 = S754_finite false 4503599627370496 (-106).
Proof. reflexivity. Qed.

Lemma pos_compare_cont_le (a b : positive) :
  (match Pos.compare_cont Eq a b with Gt => false | _ => true end) = (Zpos a <=? Zpos b)%Z.
Proof.
  rewrite Pos.compare_cont_spec. cbn [Pos.switch_Eq].
  change (Zpos a <=? Zpos b)%Z with (Pos.leb a b). unfold Pos.leb.
  destruct (a ?= b)%positive; reflexivity.
Qed.

(** The cases of [1 - d] for a distance [d >= 0]. *)
Lemma sub_one_cases d :
  (0 <=? d) = true ->
  ((1 <=? d) = true /\ (1 - d = 0 \/ SFshape true (Prim2SF (1 - d)))) \/
  ((1 <=? d) = false /\
   exists m' e', Prim2SF (1 - d) = S754_finite false m' e' /\
     ((e' < -52)%Z \/ (e' = (-52)%Z /\ m' = 4503599627370496%positive)) /\
     ((e' = (-52)%Z /\ m' = 4503599627370496%positive) <-> (d <=? 0x1p-54) = true)).
Proof.
  rewrite !FloatAxioms.leb_spec, sub_spec, Prim2SF_one, Prim2SF_zero, Prim2SF_tiny.
  pose proof (Prim2SF_valid d) as Hv.
  destruct (Prim2SF d) as [s|s| |s m e] eqn:Ed.
  - intros _. right. split; [reflexivity|].
    exists 4503599627370496%positive, (-52)%Z. split; [reflexivity|].
    split; [right; split; reflexivity|]. split; [reflexivity|intros _; split; reflexivity].
  - destruct s; [discriminate|]. intros _. left. split; [reflexivity|]. right. exact eq_refl.
  - discriminate.
  - destruct s; [discriminate|]. intros _. cbn [valid_binary] in Hv.
    destruct (Z.le_gt_cases (-52) e) as [He|He].
    + left. split.
      * apply bounded_inv in Hv. destruct Hv as [Hc _].
        pose proof (digits2_pos_bounds m) as [Dlo _].
        assert (HD : Zpos (digits2_pos m) = 53%Z) by lia. rewrite HD in Dlo.
        change (2 ^ (53 - 1))%Z with 4503599627370496%Z in Dlo.
        unfold SFleb, SFcompare, SFone64.
        destruct (Z.compare_spec (-52) e) as [E|E|E]; try reflexivity; try lia.
        rewrite pos_compare_cont_le. apply Z.leb_le. exact Dlo.
      * destruct (SFsub_one_ge m e Hv He) as [H|H].
        -- left. apply Prim2SF_inj. rewrite sub_spec, Prim2SF_one, Ed, Prim2SF_zero. exact H.
        -- right. exact H.
    + right. split.
      * unfold SFleb, SFcompare, SFone64.
        destruct (Z.compare_spec (-52) e) as [E|E|E]; try reflexivity; lia.
      * destruct (SFsub_one_lt m e Hv ltac:(lia)) as (m' & e' & Hr & Hle & Hiff).
        exists m', e'. split; [exact Hr|]. split; [exact Hle|].
        rewrite Hiff. unfold SFleb, SFcompare.
        destruct (Z.compare_spec e (-106)) as [E|E|E].
        -- rewrite pos_compare_cont_le. rewrite Z.leb_le. split; [intros [?|[_ ?]]; [lia|assumption] | intros ?; right; split; assumption].
        -- split; [reflexivity|intros _; left; assumption].
        -- split; [intros [?|[? _]]; lia|discriminate].
Qed.

Lemma shape_true_facts r :
  SFshape true (Prim2SF r) -> is_nan r = false /\ (0 <? r) = false.
Proof.
  unfold is_nan. rewrite FloatAxioms.eqb_spec, FloatAxioms.ltb_spec, Prim2SF_zero.
  destruct (Prim2SF r) as [s|s| |s m e]; cbn [SFshape]; intros H; try contradiction; subst s.
  - split; reflexivity.
  - split; reflexivity.
  - split; [|reflexivity]. unfold SFeqb, SFcompare. rewrite Z.compare_refl.
    rewrite Pos.compare_cont_spec, Pos.compare_refl. reflexivity.
Qed.

Lemma finite_pos_facts r m e :
  Prim2SF r = S754_finite false m e -> is_nan r = false /\ (0 <? r) = true.
Proof.
  unfold is_nan. rewrite FloatAxioms.eqb_spec, FloatAxioms.ltb_spec, Prim2SF_zero.
  intros ->. split; [|reflexivity]. unfold SFeqb, SFcompare. rewrite Z.compare_refl.
  rewrite Pos.compare_cont_spec, Pos.compare_refl. reflexivity.
Qed.

Lemma float_zero_neq_one : 0 <> 1.
Proof. intros H. apply (f_equal Prim2SF) in H. discriminate H. Qed.

Lemma similarity_cases d :
  (0 <=? d) = true ->
  similarity d = Math_max 0 (1 - d) /\
  (0 <=? similarity d) = true /\ (similarity d <=? 1) = true /\
  (similarity d = 0 <-> (1 <=? d) = true) /\
  (similarity d = 1 <-> (d <=? 0x1p-54) = true).
Proof.
  intros Hd. split; [reflexivity|]. unfold similarity. rewrite Math_max_zero.
  destruct (sub_one_cases d Hd) as [[H1 Hr]|[H1 (m' & e' & Hr & Hle & Hiff)]].
  - assert (Hs : (if is_nan (1 - d) then nan else if 0 <? 1 - d then 1 - d else 0) = 0).
    { destruct Hr as [Hr|Hr]; [rewrite Hr; reflexivity|].
      destruct (shape_true_facts _ Hr) as [-> ->]. reflexivity. }
    rewrite Hs. rewrite H1. repeat split; try reflexivity.
    + intros H. exfalso. exact (float_zero_neq_one H).
    + intros H. exfalso. pose proof (leb_trans 1 d 0x1p-54 H1 H). discriminate.
  - destruct (finite_pos_facts _ _ _ Hr) as [-> ->]. rewrite H1.
    split; [|split; [|split]].
    + rewrite FloatAxioms.leb_spec, Prim2SF_zero, Hr. reflexivity.
    + rewrite FloatAxioms.leb_spec, Prim2SF_one, Hr. unfold SFleb, SFcompare, SFone64.
      destruct Hle as [Hlt|[-> ->]].
      * destruct (Z.compare_spec e' (-52)); try reflexivity; lia.
      * reflexivity.
    + split; [|discriminate]. intros H. apply (f_equal Prim2SF) in H.
      rewrite Hr, Prim2SF_zero in H. discriminate.
    + rewrite <- Hiff. split.
      * intros H. apply (f_equal Prim2SF) in H. rewrite Hr, Prim2SF_one in H.
        unfold SFone64 in H. injection H as -> ->. split; reflexivity.
      * intros [-> ->]. apply Prim2SF_inj. rewrite Hr, Prim2SF_one. reflexivity.
Qed.

End Binary64.

(** * The similarity score *)

Import Binary64.

(** C3, as the code has it.  For every distance [d >= 0] the score is
    [Math.max(0, 1 - d)] in binary64 arithmetic; it lies in [[0, 1]], it is 0
    exactly when [d >= 1], and it is 1 exactly when [d <= 2^-54]: for [d = 0],
    and also for the positive distances so small that [1 - d] rounds to 1. *)
Theorem similarity_range (d : number) :
  (0 <=? d) = true ->
  similarity d = Math_max 0 (1 - d) /\
  (0 <=? similarity d) = true /\ (similarity d <=? 1) = true /\
  (similarity d = 0 <-> (1 <=? d) = true) /\
  (similarity d = 1 <-> (d <=? 0x1p-54) = true) /\
  ((d =? 0) = true -> similarity d = 1).
Proof.
  intros Hd. destruct (similarity_cases d Hd) as (H1 & H2 & H3 & H4 & H5).
  repeat split; try assumption; try apply H4; try apply H5.
  intros Hz. apply H5. apply leb_trans with 0; [|reflexivity].
  rewrite leb_ltb_eqb, Hz. apply orb_true_r.
Qed.

Lemma similarity_range_witness :
  similarity 0.25 = Math_max 0 (1 - 0.25) /\
  (0 <=? similarity 0.25) = true /\ (similarity 0.25 <=? 1) = true /\
  (similarity 0.25 = 0 <-> (1 <=? 0.25) = true) /\
  (similarity 0.25 = 1 <-> (0.25 <=? 0x1p-54) = true) /\
  ((0.25 =? 0) = true -> similarity 0.25 = 1).
Proof. apply (similarity_range 0.25). reflexivity. Defined.

(** C3 as stated fails: at the distance [2^-60], which is positive, the score
    is exactly 1. *)
Lemma similarity_one_at_positive_distance :
  (0 <=? 0x1p-60) = true /\ (0x1p-60 =? 0) = false /\ similarity 0x1p-60 = 1.
Proof. repeat split. Qed.

(** * Classification of a detection *)

(** C5.  A similarity of at least 0.5 is labelled a target match, one in
    [[0.4, 0.5)] a possible match, one below 0.4 gets the plain scan label;
    0.5 itself is a target match and 0.4 itself a possible match. *)
Theorem classification_bands (b : Box) (s : number) :
  ((0.5 <=? s) = true ->
     label (drawBox b s) = TARGET_MATCH (s * 100) /\ boxColor (drawBox b s) = "#10b981") /\
  ((0.4 <=? s) = true /\ (s <? 0.5) = true ->
     label (drawBox b s) = Possible (s * 100) /\ boxColor (drawBox b s) = "#f59e0b") /\
  ((s <? 0.4) = true ->
     label (drawBox b s) = Scan (s * 100) /\ boxColor (drawBox b s) = "#ef4444") /\
  label (drawBox b 0.5) = TARGET_MATCH (0.5 * 100) /\
  label (drawBox b 0.4) = Possible (0.4 * 100) /\
  label (drawBox b 0.4999) = Possible (0.4999 * 100).
Proof.
  unfold drawBox, isTarget, isPossible, js_ge, js_lt.
  split; [|split; [|split]].
  - intros H. rewrite H. split; reflexivity.
  - intros [H4 H5]. rewrite (ltb_not_leb _ _ H5), H4, H5. split; reflexivity.
  - intros H4.
    assert (H5 : (s <? 0.5) = true) by (apply ltb_trans with 0.4; [exact H4|reflexivity]).
    rewrite (ltb_not_leb _ _ H5), (ltb_not_leb _ _ H4). split; reflexivity.
  - repeat split.
Qed.

(** * The best-match record along a scan *)


Lemma recordStep_le a b : recordValid a -> recordStep a b -> recordLe a b.
Proof.
  intros Hv [->|H].
  - destruct a as [p|]; [|exact I]. cbn in *. apply leb_refl. exact Hv.
  - destruct a as [p|], b as [q|]; cbn in *; try exact I; try contradiction.
    apply ltb_leb. exact H.
Qed.

Section ScanProperties.

Variable euclideanDistance : Descriptor -> Descriptor -> number.
Variable Math_round : number -> number.

Lemma updater_absent fb frame det :
  bestMatchUpdater Math_round fb frame det None = Some (capturedMatch Math_round fb frame det).
Proof. reflexivity. Qed.

Lemma updater_present fb frame det p :
  bestMatchUpdater Math_round fb frame det (Some p) =
  if js_gt fb (score p) then Some (capturedMatch Math_round fb frame det) else Some p.
Proof. reflexivity. Qed.


Lemma updater_step fb frame det b :
  recordStep b (bestMatchUpdater Math_round fb frame det b).
Proof.
  destruct b as [p|].
  - rewrite updater_present. unfold js_gt. destruct (score p <? fb) eqn:E.
    + right. exact E.
    + left. reflexivity.
  - right. exact I.
Qed.

Lemma updater_valid fb frame det b :
  is_nan fb = false -> recordValid b -> recordValid (bestMatchUpdater Math_round fb frame det b).
Proof.
  intros Hfb Hb. destruct b as [p|].
  - rewrite updater_present. destruct (js_gt fb (score p)); [exact Hfb|exact Hb].
  - exact Hfb.
Qed.

Lemma updater_some fb frame det b :
  bestMatchUpdater Math_round fb frame det b <> None.
Proof.
  destruct b as [p|]; [rewrite updater_present; destruct (js_gt fb (score p))|]; discriminate.
Qed.

(** Once one updater of a batch has run, the rest of the batch, which reads
    the same [frameBestSim], changes nothing. *)
Lemma updater_idempotent fb frame det det' b :
  bestMatchUpdater Math_round fb frame det' (bestMatchUpdater Math_round fb frame det b) =
  bestMatchUpdater Math_round fb frame det b.
Proof.
  destruct b as [p|].
  - rewrite (updater_present fb frame det p). unfold js_gt. destruct (score p <? fb) eqn:E.
    + rewrite updater_present. unfold js_gt. cbn [score capturedMatch].
      rewrite ltb_irrefl. reflexivity.
    + rewrite updater_present. unfold js_gt. rewrite E. reflexivity.
  - rewrite updater_absent, updater_present. unfold js_gt. cbn [score capturedMatch].
    rewrite ltb_irrefl. reflexivity.
Qed.

Lemma runUpdaters_best fb frame det rest b lg :
  fst (runUpdaters Math_round fb frame (det :: rest) b lg) =
  bestMatchUpdater Math_round fb frame det b.
Proof.
  cbn [runUpdaters]. set (b' := bestMatchUpdater Math_round fb frame det b).
  assert (Hfix : forall d, bestMatchUpdater Math_round fb frame d b' = b')
    by (intros d; apply updater_idempotent).
  clearbody b'. generalize (b' :: lg). induction rest as [|d rest IH]; intros l.
  - reflexivity.
  - cbn [runUpdaters]. rewrite Hfix. apply IH.
Qed.

Lemma runUpdaters_nil fb frame b lg : runUpdaters Math_round fb frame [] b lg = (b, lg).
Proof. reflexivity. Qed.

Lemma runUpdaters_log fb frame dets b lg :
  is_nan fb = false -> logInv b lg ->
  logInv (fst (runUpdaters Math_round fb frame dets b lg))
         (snd (runUpdaters Math_round fb frame dets b lg)).
Proof.
  intros Hfb. revert b lg. induction dets as [|d dets IH]; intros b lg Hinv; [exact Hinv|].
  cbn [runUpdaters]. apply IH. destruct Hinv as ([older ->] & Hc & Hv).
  split; [eexists; reflexivity|]. split.
  - split; [apply updater_step|exact Hc].
  - constructor; [|exact Hv]. apply updater_valid; [exact Hfb|]. inversion Hv; assumption.
Qed.

Lemma flushUpdaters_eq frame st :
  flushUpdaters Math_round frame st =
  {| frameBestSim := frameBestSim st;
     queued := [];
     best := fst (runUpdaters Math_round (frameBestSim st) frame (queued st) (best st) (log st));
     log := snd (runUpdaters Math_round (frameBestSim st) frame (queued st) (best st) (log st));
     canvas := canvas st |}.
Proof.
  unfold flushUpdaters.
  destruct (runUpdaters Math_round (frameBestSim st) frame (queued st) (best st) (log st)).
  reflexivity.
Qed.

Lemma flush_sound frame b0 seen st :
  scanSound b0 seen st -> scanSound b0 seen (flushUpdaters Math_round frame st).
Proof.
  intros (Hfb & Hlog & Hnone). rewrite flushUpdaters_eq. split; [exact Hfb|]. split.
  - cbn [best log]. apply runUpdaters_log; assumption.
  - cbn [best queued]. destruct (queued st) as [|d q] eqn:Eq.
    + rewrite runUpdaters_nil. cbn [fst]. intros Hb. destruct (Hnone Hb) as [? <-]. split; congruence.
    + rewrite runUpdaters_best. intros Hb. exfalso. exact (updater_some _ _ _ _ Hb).
Qed.

Lemma step_sound flushNow target frame b0 seen det st :
  scanSound b0 seen st ->
  scanSound b0 (seen ++ [det])
    (forEachStep euclideanDistance Math_round flushNow target frame det st).
Proof.
  intros (Hfb & Hlog & Hnone). unfold forEachStep.
  set (s := similarity (euclideanDistance target (descriptor det))).
  assert (Hst : scanSound b0 (seen ++ [det])
            {| frameBestSim := if js_gt s (frameBestSim st) then s else frameBestSim st;
               queued := queued st ++ [det]; best := best st; log := log st;
               canvas := canvas st ++ [drawBox (box det) s] |}).
  { split; [|split].
    - cbn [frameBestSim]. unfold js_gt. destruct (frameBestSim st <? s) eqn:E; [|exact Hfb].
      exact (ltb_not_nan_r _ _ E).
    - exact Hlog.
    - cbn [best queued]. intros Hb. destruct (Hnone Hb) as [-> ->]. split; reflexivity. }
  destruct flushNow; [apply flush_sound|]; exact Hst.
Qed.

Lemma forEach_sound flush target frame b0 dets :
  forall index seen st,
  scanSound b0 seen st ->
  scanSound b0 (seen ++ dets)
    (forEachDetection euclideanDistance Math_round flush target frame index dets st).
Proof.
  induction dets as [|det dets IH]; intros index seen st Hst.
  - rewrite app_nil_r. exact Hst.
  - cbn [forEachDetection]. replace (seen ++ det :: dets) with ((seen ++ [det]) ++ dets)
      by (rewrite <- app_assoc; reflexivity).
    apply IH. apply step_sound. exact Hst.
Qed.

Lemma processDetections_sound flush target frame b lg :
  logInv b lg ->
  scanSound b (detections frame)
    (processDetections euclideanDistance Math_round flush target frame b lg) /\
  queued (processDetections euclideanDistance Math_round flush target frame b lg) = [].
Proof.
  intros Hlog. unfold processDetections. split.
  - apply flush_sound. apply (forEach_sound flush target frame b (detections frame) 0 []).
    split; [reflexivity|]. split; [exact Hlog|]. intros Hb. split; [exact Hb|reflexivity].
  - rewrite flushUpdaters_eq. reflexivity.
Qed.

Lemma processDetections_absent flush target frame b lg :
  logInv b lg ->
  (best (processDetections euclideanDistance Math_round flush target frame b lg) = None <->
   b = None /\ detections frame = []).
Proof.
  intros Hlog. destruct (processDetections_sound flush target frame b lg Hlog) as [(_ & _ & Hn) Hq].
  split.
  - intros Hb. destruct (Hn Hb) as [Hb0 Hs]. split; [exact Hb0|]. rewrite <- Hs. exact Hq.
  - intros [-> Hd]. unfold processDetections. rewrite Hd. reflexivity.
Qed.

Lemma scanFrom_sound schedule target frames :
  forall k b lg,
  logInv b lg ->
  logInv (fst (scanFrom euclideanDistance Math_round schedule target k frames b lg))
         (snd (scanFrom euclideanDistance Math_round schedule target k frames b lg)) /\
  (fst (scanFrom euclideanDistance Math_round schedule target k frames b lg) = None <->
   b = None /\ forall frame, In frame frames -> detections frame = []).
Proof.
  induction frames as [|frame frames IH]; intros k b lg Hlog.
  - cbn [scanFrom fst snd]. split; [exact Hlog|]. split; [intros ->; split; [reflexivity|intros ? []]|intros [-> _]; reflexivity].
  - cbn [scanFrom].
    destruct (processDetections_sound (schedule k) target frame b lg Hlog) as [(_ & Hlog' & _) _].
    pose proof (processDetections_absent (schedule k) target frame b lg Hlog) as Habs.
    destruct (IH (S k) _ _ Hlog') as [IH1 IH2]. split; [exact IH1|].
    rewrite IH2, Habs. split.
    + intros [[-> Hd] Hrest]. split; [reflexivity|]. intros f [<-|Hf]; [exact Hd|exact (Hrest f Hf)].
    + intros [-> Hall]. split; [split; [reflexivity|apply Hall; left; reflexivity]|].
      intros f Hf. apply Hall. right. exact Hf.
Qed.

(** ** The log is a ghost *)

Lemma runUpdaters_same fb frame dets b lg lg' :
  fst (runUpdaters Math_round fb frame dets b lg) = fst (runUpdaters Math_round fb frame dets b lg').
Proof.
  revert b lg lg'. induction dets as [|d dets IH]; intros b lg lg'; [reflexivity|].
  cbn [runUpdaters]. apply IH.
Qed.

Lemma flush_same frame st st' :
  sameScan st st' ->
  sameScan (flushUpdaters Math_round frame st) (flushUpdaters Math_round frame st').
Proof.
  intros (Hfb & Hq & Hb). rewrite !flushUpdaters_eq. unfold sameScan. cbn [frameBestSim queued best].
  split; [exact Hfb|]. split; [reflexivity|]. rewrite Hfb, Hq, Hb. apply runUpdaters_same.
Qed.

Lemma forEach_same flush target frame dets :
  forall index st st',
  sameScan st st' ->
  sameScan (forEachDetection euclideanDistance Math_round flush target frame index dets st)
           (forEachDetection euclideanDistance Math_round flush target frame index dets st').
Proof.
  induction dets as [|det dets IH]; intros index st st' Hs; [exact Hs|].
  cbn [forEachDetection]. apply IH. destruct Hs as (Hfb & Hq & Hb). unfold forEachStep.
  destruct (flush index); [apply flush_same|];
    (unfold sameScan; cbn [frameBestSim queued best]; rewrite Hfb, Hq, Hb; repeat split).
Qed.

Lemma processDetections_same flush target frame b lg lg' :
  sameScan (processDetections euclideanDistance Math_round flush target frame b lg)
           (processDetections euclideanDistance Math_round flush target frame b lg').
Proof.
  unfold processDetections. apply flush_same, forEach_same. repeat split.
Qed.

Lemma scanFrom_same schedule target frames :
  forall k b lg lg',
  fst (scanFrom euclideanDistance Math_round schedule target k frames b lg) =
  fst (scanFrom euclideanDistance Math_round schedule target k frames b lg').
Proof.
  induction frames as [|frame frames IH]; intros k b lg lg'; [reflexivity|].
  cbn [scanFrom].
  destruct (processDetections_same (schedule k) target frame b lg lg') as (_ & _ & ->).
  apply IH.
Qed.


(** ** No event lowers the record while the reference and the video stay loaded *)

Lemma recordLe_refl a : recordValid a -> recordLe a a.
Proof. destruct a as [p|]; [|intros _; exact I]. cbn. intros H. apply leb_refl. exact H. Qed.

Lemma recordLe_trans a b c : recordLe a b -> recordLe b c -> recordLe a c.
Proof.
  destruct a as [p|], b as [q|], c as [r|]; cbn; try tauto. apply leb_trans.
Qed.

Lemma runUpdaters_le fb frame dets :
  forall b lg,
  is_nan fb = false -> recordValid b ->
  recordLe b (fst (runUpdaters Math_round fb frame dets b lg)) /\
  recordValid (fst (runUpdaters Math_round fb frame dets b lg)).
Proof.
  induction dets as [|d dets IH]; intros b lg Hfb Hb.
  - cbn. split; [apply recordLe_refl|]; exact Hb.
  - cbn [runUpdaters].
    pose proof (updater_valid fb frame d b Hfb Hb) as Hv.
    destruct (IH (bestMatchUpdater Math_round fb frame d b)
                 (bestMatchUpdater Math_round fb frame d b :: lg) Hfb Hv) as [Hle Hv'].
    split; [|exact Hv'].
    apply recordLe_trans with (2 := Hle). apply recordStep_le; [exact Hb|apply updater_step].
Qed.

Lemma forEach_le flush target frame b dets :
  forall index st,
  is_nan (frameBestSim st) = false -> recordLe b (best st) -> recordValid (best st) ->
  is_nan (frameBestSim (forEachDetection euclideanDistance Math_round flush target frame index dets st)) = false /\
  recordLe b (best (forEachDetection euclideanDistance Math_round flush target frame index dets st)) /\
  recordValid (best (forEachDetection euclideanDistance Math_round flush target frame index dets st)).
Proof.
  induction dets as [|det dets IH]; intros index st Hfb Hle Hv; [repeat split; assumption|].
  cbn [forEachDetection]. unfold forEachStep.
  set (s := similarity (euclideanDistance target (descriptor det))).
  assert (Hfb' : is_nan (if js_gt s (frameBestSim st) then s else frameBestSim st) = false).
  { unfold js_gt. destruct (frameBestSim st <? s) eqn:E; [exact (ltb_not_nan_r _ _ E)|exact Hfb]. }
  destruct (flush index).
  - rewrite flushUpdaters_eq. cbn [frameBestSim queued best log canvas].
    match goal with |- context [runUpdaters Math_round ?f frame ?q (best st) (log st)] =>
      destruct (runUpdaters_le f frame q (best st) (log st) Hfb' Hv) as [Hle' Hv'] end.
    apply IH; cbn [frameBestSim best]; [exact Hfb'| |exact Hv'].
    apply recordLe_trans with (1 := Hle). exact Hle'.
  - apply IH; cbn [frameBestSim best]; assumption.
Qed.

Lemma processDetections_le flush target frame b lg :
  recordValid b ->
  recordLe b (best (processDetections euclideanDistance Math_round flush target frame b lg)) /\
  recordValid (best (processDetections euclideanDistance Math_round flush target frame b lg)).
Proof.
  intros Hb. unfold processDetections.
  set (st0 := {| frameBestSim := 0; queued := []; best := b; log := lg; canvas := [] |}).
  destruct (forEach_le flush target frame b (detections frame) 0 st0 eq_refl
              (recordLe_refl b Hb) Hb) as (Hfb & Hle & Hv).
  rewrite flushUpdaters_eq. cbn [best].
  match goal with |- context [runUpdaters Math_round ?f frame ?q ?b0 ?l] =>
    destruct (runUpdaters_le f frame q b0 l Hfb Hv) as [Hle' Hv'] end.
  split; [exact (recordLe_trans _ _ _ Hle Hle')|exact Hv'].
Qed.




Lemma render_targetPanel h m :
  render h = MainView m ->
  targetPanel m =
  match targetImage h with
  | None => ImageInput
  | Some src => ImagePreview src (isSome (targetDescriptor h))
  end.
Proof.
  unfold render. destruct (negb (isAuthenticated h)); [discriminate|].
  destruct (state h); try discriminate; intros H; injection H as <-; reflexivity.
Qed.

Lemma render_videoPanel h m :
  render h = MainView m ->
  videoPanel m =
  match videoSource h with
  | None => VideoInput
  | Some _ =>
      VideoLoaded (if isProcessing h then StopScanning else StartAnalysis)
        (negb (isSome (targetDescriptor h))) (negb (isSome (targetDescriptor h)))
  end.
Proof.
  unfold render. destruct (negb (isAuthenticated h)); [discriminate|].
  destruct (state h); try discriminate; intros H; injection H as <-; reflexivity.
Qed.


(** ** With distances that are numbers *)

Lemma similarity_form x :
  is_nan (similarity x) = true \/ similarity x = 0 \/ (0 <? similarity x) = true.
Proof.
  unfold similarity. rewrite Math_max_zero. destruct (is_nan (1 - x)) eqn:En.
  - left. reflexivity.
  - destruct (0 <? 1 - x) eqn:Ep; [right; right; exact Ep|right; left; reflexivity].
Qed.

Lemma similarity_nonneg x : (0 <=? x) = true -> (0 <=? similarity x) = true.
Proof. intros H. exact (proj1 (proj2 (similarity_cases x H))). Qed.

Lemma fresh_more target frame b0 seen seen' p :
  (forall d, In d seen -> In d seen') ->
  fresh euclideanDistance target frame b0 seen p -> fresh euclideanDistance target frame b0 seen' p.
Proof.
  intros Hsub (H1 & H2 & (d & Hd & Hsc) & H4). repeat split; try assumption.
  exists d. split; [apply Hsub; exact Hd|exact Hsc].
Qed.

Lemma flush_inv target frame b0 seen st :
  scanInv euclideanDistance target frame b0 seen st ->
  scanInv euclideanDistance target frame b0 seen (flushUpdaters Math_round frame st).
Proof.
  intros (Hfb & Hnil & Hub & Hatt & Hq & Hnone & Hsome). rewrite flushUpdaters_eq.
  unfold scanInv. cbn [frameBestSim queued best].
  split; [exact Hfb|]. split; [exact Hnil|]. split; [exact Hub|]. split; [exact Hatt|].
  split; [intros d []|].
  destruct (queued st) as [|d q] eqn:Eq.
  - rewrite runUpdaters_nil. cbn [fst]. split; [exact Hnone|]. exact Hsome.
  - rewrite runUpdaters_best.
    assert (Hseen : seen <> []).
    { intros ->. exact (Hq d (or_introl eq_refl)). }
    destruct (Hatt Hseen) as (da & Hda & Hfbda).
    assert (Hnan : is_nan (frameBestSim st) = false) by exact (leb_not_nan_r _ _ Hfb).
    split; [intros Hb; exfalso; exact (updater_some _ _ _ _ Hb)|].
    intros p' Hp'. destruct (best st) as [p|] eqn:Eb.
    + rewrite updater_present in Hp' |- *. unfold js_gt in *.
      destruct (Hsome p eq_refl) as (Hp0 & _ & Hor).
      destruct (score p <? frameBestSim st) eqn:E.
      * injection Hp' as <-. cbn [score capturedMatch].
        split; [exact Hfb|]. split; [intros _; apply leb_refl; exact Hnan|].
        right. repeat split.
        -- exists da. split; [exact Hda|exact Hfbda].
        -- intros p0 Hp0'. destruct Hor as [Hor|Hor].
           ++ rewrite <- Hor in Hp0'. injection Hp0' as <-. exact E.
           ++ destruct Hor as (_ & _ & _ & Hlt). apply ltb_trans with (score p); [exact (Hlt p0 Hp0')|exact E].
      * injection Hp' as <-. split; [exact Hp0|]. split.
        -- intros _. apply not_ltb_leb; [exact (leb_not_nan_r _ _ Hp0)|exact Hnan|exact E].
        -- exact Hor.
    + rewrite updater_absent in Hp' |- *. injection Hp' as <-. cbn [score capturedMatch].
      split; [exact Hfb|]. split; [intros _; apply leb_refl; exact Hnan|].
      right. repeat split.
      * exists da. split; [exact Hda|exact Hfbda].
      * intros p0 Hp0'. rewrite (Hnone eq_refl) in Hp0'. discriminate.
Qed.

Lemma step_inv flushNow target frame b0 seen det st :
  (0 <=? euclideanDistance target (descriptor det)) = true ->
  scanInv euclideanDistance target frame b0 seen st ->
  scanInv euclideanDistance target frame b0 (seen ++ [det])
    (forEachStep euclideanDistance Math_round flushNow target frame det st).
Proof.
  intros Hd (Hfb & Hnil & Hub & Hatt & Hq & Hnone & Hsome). unfold forEachStep.
  pose proof (similarity_nonneg _ Hd) as Hs0.
  pose proof (similarity_form (euclideanDistance target (descriptor det))) as Hform.
  fold (detectionSimilarity euclideanDistance target det) in Hs0, Hform |- *.
  set (s := detectionSimilarity euclideanDistance target det) in *.
  assert (Hsn : is_nan s = false) by exact (leb_not_nan_r _ _ Hs0).
  assert (Hfn : is_nan (frameBestSim st) = false) by exact (leb_not_nan_r _ _ Hfb).
  assert (Hst : scanInv euclideanDistance target frame b0 (seen ++ [det])
            {| frameBestSim := if js_gt s (frameBestSim st) then s else frameBestSim st;
               queued := queued st ++ [det]; best := best st; log := log st;
               canvas := canvas st ++ [drawBox (box det) s] |}).
  { unfold scanInv. cbn [frameBestSim queued best]. unfold js_gt.
    destruct (frameBestSim st <? s) eqn:E.
    - split; [exact Hs0|]. split; [intros H; destruct seen; discriminate|]. split.
      { intros d Hin. apply in_app_or in Hin. destruct Hin as [Hin|[<-|[]]].
        - apply ltb_leb. apply leb_ltb_trans with (frameBestSim st); [exact (Hub d Hin)|exact E].
        - apply leb_refl. exact Hsn. }
      split; [intros _; exists det; split; [apply in_or_app; right; left; reflexivity|reflexivity]|].
      split; [intros d Hin; apply in_app_or in Hin; apply in_or_app; destruct Hin as [Hin|Hin]; [left; exact (Hq d Hin)|right; exact Hin]|].
      split; [exact Hnone|].
      intros p Hp. destruct (Hsome p Hp) as (Hp0 & _ & Hor). split; [exact Hp0|]. split.
      { intros H. destruct (queued st); discriminate. }
      destruct Hor as [Hor|Hor]; [left; exact Hor|right].
      apply fresh_more with seen; [intros d Hin; apply in_or_app; left; exact Hin|exact Hor].
    - split; [exact Hfb|]. split; [intros H; destruct seen; discriminate|]. split.
      { intros d Hin. apply in_app_or in Hin. destruct Hin as [Hin|[<-|[]]].
        - exact (Hub d Hin).
        - apply not_ltb_leb; [exact Hfn|exact Hsn|exact E]. }
      split.
      { intros _. destruct seen as [|d0 seen'] eqn:Es.
        - exists det. split; [left; reflexivity|]. rewrite (Hnil eq_refl) in E |- *.
          destruct Hform as [Hf|[Hf|Hf]]; [congruence|symmetry; exact Hf|congruence].
        - destruct (Hatt ltac:(discriminate)) as (d & Hin & Hfbd).
          exists d. split; [apply in_or_app; left; exact Hin|exact Hfbd]. }
      split; [intros d Hin; apply in_app_or in Hin; apply in_or_app; destruct Hin as [Hin|Hin]; [left; exact (Hq d Hin)|right; exact Hin]|].
      split; [exact Hnone|].
      intros p Hp. destruct (Hsome p Hp) as (Hp0 & _ & Hor). split; [exact Hp0|]. split.
      { intros H. destruct (queued st); discriminate. }
      destruct Hor as [Hor|Hor]; [left; exact Hor|right].
      apply fresh_more with seen; [intros d Hin; apply in_or_app; left; exact Hin|exact Hor]. }
  destruct flushNow; [apply flush_inv|]; exact Hst.
Qed.

Lemma forEach_inv flush target frame b0 dets :
  forall index seen st,
  validDistances euclideanDistance target dets ->
  scanInv euclideanDistance target frame b0 seen st ->
  scanInv euclideanDistance target frame b0 (seen ++ dets)
    (forEachDetection euclideanDistance Math_round flush target frame index dets st).
Proof.
  induction dets as [|det dets IH]; intros index seen st Hv Hst.
  - rewrite app_nil_r. exact Hst.
  - cbn [forEachDetection]. replace (seen ++ det :: dets) with ((seen ++ [det]) ++ dets)
      by (rewrite <- app_assoc; reflexivity).
    apply IH.
    + intros d Hin. apply Hv. right. exact Hin.
    + apply step_inv; [apply Hv; left; reflexivity|exact Hst].
Qed.

(** After one frame the record's score bounds every similarity of the frame,
    and the record is the one from before or one captured in this frame. *)
Lemma processDetections_max flush target frame b lg :
  recordOk b -> validDistances euclideanDistance target (detections frame) ->
  forall p,
  best (processDetections euclideanDistance Math_round flush target frame b lg) = Some p ->
  (0 <=? score p) = true /\
  (forall d, In d (detections frame) ->
     (detectionSimilarity euclideanDistance target d <=? score p) = true) /\
  (Some p = b \/ fresh euclideanDistance target frame b (detections frame) p).
Proof.
  intros Hok Hv p Hp. unfold processDetections in Hp.
  set (st0 := {| frameBestSim := 0; queued := []; best := b; log := lg; canvas := [] |}) in Hp.
  assert (H0 : scanInv euclideanDistance target frame b [] st0).
  { unfold scanInv, st0. cbn [frameBestSim queued best].
    split; [reflexivity|]. split; [reflexivity|]. split; [intros d []|].
    split; [intros H; contradiction|]. split; [intros d []|]. split; [intros H; exact H|].
    intros q Hq. split; [exact (Hok q Hq)|]. split; [intros _; exact (Hok q Hq)|left; reflexivity]. }
  pose proof (flush_inv target frame b _ _
                (forEach_inv flush target frame b (detections frame) 0 [] st0 Hv H0)) as Hinv.
  cbn [app] in Hinv. destruct Hinv as (_ & _ & Hub & _ & _ & _ & Hsome).
  destruct (Hsome p Hp) as (Hp0 & Hle & Hor). split; [exact Hp0|]. split.
  - intros d Hin. apply leb_trans with (1 := Hub d Hin). apply Hle.
    rewrite flushUpdaters_eq. reflexivity.
  - destruct Hor as [Hor|Hor]; [left; rewrite <- Hor, <- Hp; reflexivity|right; exact Hor].
Qed.

Lemma bestOver_frame flush target pre frame b lg :
  logInv b lg -> validDistances euclideanDistance target (detections frame) ->
  bestOver euclideanDistance target pre b ->
  bestOver euclideanDistance target (pre ++ [frame])
    (best (processDetections euclideanDistance Math_round flush target frame b lg)).
Proof.
  intros Hlog Hv Hpre.
  assert (Hok : recordOk b).
  { intros p0 ->. exact (proj1 Hpre). }
  destruct (best (processDetections euclideanDistance Math_round flush target frame b lg))
    as [p|] eqn:Eb.
  - destruct (processDetections_max flush target frame b lg Hok Hv p Eb) as (Hp0 & Hub & Hor).
    cbn [bestOver]. split; [exact Hp0|].
    destruct Hor as [Hor|Hfresh].
    + subst b. destruct Hpre as (_ & Hall & earlier & fr & later & -> & Hu & Ht & Hd & Hlt).
      split.
      * intros f d Hf Hd'. apply in_app_or in Hf. destruct Hf as [Hf|[<-|[]]].
        -- exact (Hall f d Hf Hd').
        -- exact (Hub d Hd').
      * exists earlier, fr, (later ++ [frame]). rewrite <- app_assoc. cbn [app].
        repeat split; assumption.
    + destruct Hfresh as (Hu & Ht & Hd & Hlt).
      assert (Hstrict : forall f d, In f pre -> In d (detections f) ->
                (detectionSimilarity euclideanDistance target d <? score p) = true).
      { intros f d Hf Hd'. destruct b as [p0|].
        - destruct Hpre as (_ & Hall & _).
          apply leb_ltb_trans with (score p0); [exact (Hall f d Hf Hd')|exact (Hlt p0 eq_refl)].
        - cbn [bestOver] in Hpre. rewrite (Hpre f Hf) in Hd'. destruct Hd'. }
      split.
      * intros f d Hf Hd'. apply in_app_or in Hf. destruct Hf as [Hf|[<-|[]]].
        -- apply ltb_leb. exact (Hstrict f d Hf Hd').
        -- exact (Hub d Hd').
      * exists pre, frame, []. repeat split; assumption.
  - destruct (proj1 (processDetections_absent flush target frame b lg Hlog) Eb) as [-> Hd].
    cbn [bestOver] in *. intros f Hf. apply in_app_or in Hf. destruct Hf as [Hf|[<-|[]]].
    + exact (Hpre f Hf).
    + exact Hd.
Qed.

Lemma scanFrom_best schedule target frames :
  forall pre k b lg,
  logInv b lg ->
  (forall frame, In frame frames -> validDistances euclideanDistance target (detections frame)) ->
  bestOver euclideanDistance target pre b ->
  bestOver euclideanDistance target (pre ++ frames)
    (fst (scanFrom euclideanDistance Math_round schedule target k frames b lg)).
Proof.
  induction frames as [|frame frames IH]; intros pre k b lg Hlog Hv Hpre.
  - rewrite app_nil_r. exact Hpre.
  - cbn [scanFrom]. replace (pre ++ frame :: frames) with ((pre ++ [frame]) ++ frames)
      by (rewrite <- app_assoc; reflexivity).
    apply IH.
    + exact (proj1 (proj2 (proj1 (processDetections_sound (schedule k) target frame b lg Hlog)))).
    + intros f Hf. apply Hv. right. exact Hf.
    + apply bestOver_frame; [exact Hlog| apply Hv; left; reflexivity | exact Hpre].
Qed.

Lemma logInv_start b : recordValid b -> logInv b [b].
Proof.
  intros Hv. split; [exists []; reflexivity|]. split; [exact I|]. constructor; [exact Hv|constructor].
Qed.




(** C6, as the code has it.  The updater creates the record whenever the
    record is absent, whatever the similarity, and replaces a present record
    exactly when the frame-best it reads is strictly greater than the record's
    score.  So over a run from an absent record the record stays absent only
    if no frame had a detection, and when every detection has similarity 0
    (distance [>= 1]) the record that the first detection creates has score 0. *)
Theorem match_record_creation
    (schedule : nat -> nat -> bool) (target : Descriptor) (frames : list VideoFrame) :
  (forall fb frame det,
     bestMatchUpdater Math_round fb frame det None = Some (capturedMatch Math_round fb frame det)) /\
  (forall fb frame det p,
     bestMatchUpdater Math_round fb frame det (Some p) =
     if js_gt fb (score p) then Some (capturedMatch Math_round fb frame det) else Some p) /\
  (fst (scanFrames euclideanDistance Math_round schedule target frames None) = None <->
   forall frame, In frame frames -> detections frame = []) /\
  ((forall frame d, In frame frames -> In d (detections frame) ->
      (1 <=? euclideanDistance target (descriptor d)) = true) ->
   forall p, fst (scanFrames euclideanDistance Math_round schedule target frames None) = Some p ->
             score p = 0).
Proof.
  split; [exact updater_absent|]. split; [exact updater_present|]. split.
  - unfold scanFrames.
    destruct (scanFrom_sound schedule target frames 0 None [None] (logInv_start None I)) as [_ H].
    rewrite H. split; [intros [_ Hall]; exact Hall|intros Hall; split; [reflexivity|exact Hall]].
  - intros Hfar p Hp.
    assert (Hv : forall frame, In frame frames -> validDistances euclideanDistance target (detections frame)).
    { intros f Hf d Hd. apply leb_trans with 1; [reflexivity|exact (Hfar f d Hf Hd)]. }
    pose proof (scanFrom_best schedule target frames [] 0 None [None]
                  (logInv_start None I) Hv (fun f (H : In f []) => match H with end)) as H.
    cbn [app] in H. unfold scanFrames in Hp. rewrite Hp in H.
    destruct H as (_ & _ & earlier & fr & later & -> & _ & _ & (d & Hd & ->) & _).
    unfold detectionSimilarity.
    assert (Hd1 : (1 <=? euclideanDistance target (descriptor d)) = true).
    { apply (Hfar fr d); [apply in_or_app; right; left; reflexivity|exact Hd]. }
    assert (Hd0 : (0 <=? euclideanDistance target (descriptor d)) = true)
      by (apply leb_trans with 1; [reflexivity|exact Hd1]).
    apply (proj1 (proj2 (proj2 (proj2 (similarity_cases _ Hd0))))). exact Hd1.
Qed.

End ScanProperties.

(** * When every updater runs inside its [setBestMatch] call *)

Section ImmediateSchedule.

Variable euclideanDistance : Descriptor -> Descriptor -> number.
Variable Math_round : number -> number.

Lemma immediate_step target pre frame seen det st :
  (0 <=? euclideanDistance target (descriptor det)) = true ->
  immediateInv euclideanDistance Math_round target pre frame seen st ->
  immediateInv euclideanDistance Math_round target pre frame (seen ++ [det])
    (forEachStep euclideanDistance Math_round true target frame det st).
Proof.
  intros Hd (Hq & Hfm & Hfb & Hnil & Hle). unfold forEachStep.
  pose proof (similarity_nonneg _ Hd) as Hs0.
  pose proof (similarity_form (euclideanDistance target (descriptor det))) as Hform.
  fold (detectionSimilarity euclideanDistance target det) in Hs0, Hform |- *.
  set (s := detectionSimilarity euclideanDistance target det) in *.
  assert (Hsn : is_nan s = false) by exact (leb_not_nan_r _ _ Hs0).
  assert (Hfn : is_nan (frameBestSim st) = false) by exact (leb_not_nan_r _ _ Hfb).
  rewrite flushUpdaters_eq. cbn [frameBestSim queued best log canvas]. rewrite Hq. cbn [app].
  rewrite runUpdaters_best. unfold immediateInv. cbn [frameBestSim queued best].
  rewrite map_app, app_assoc. cbn [map].
  set (met := pre ++ map (pair frame) seen) in *.
  set (fb' := if js_gt s (frameBestSim st) then s else frameBestSim st).
  assert (Hfb' : (0 <=? fb') = true) by (subst fb'; destruct (js_gt s (frameBestSim st)); assumption).
  assert (Hsfb : (s <=? fb') = true).
  { subst fb'. unfold js_gt. destruct (frameBestSim st <? s) eqn:E.
    - apply leb_refl. exact Hsn.
    - apply not_ltb_leb; assumption. }
  split; [reflexivity|]. split; [|split; [exact Hfb'|split]].
  - destruct (best st) as [p|] eqn:Eb.
    + destruct Hfm as (before & f0 & d0 & after & Hmet & Hp & Hlt & Hge).
      pose proof (Hle p eq_refl) as Hfp.
      rewrite updater_present. unfold js_gt. destruct (score p <? fb') eqn:E.
      * assert (Hfbs : fb' = s).
        { subst fb'. unfold js_gt in *. destruct (frameBestSim st <? s) eqn:E2; [reflexivity|].
          rewrite (leb_not_ltb _ _ Hfp) in E. discriminate. }
        rewrite Hfbs in E |- *. cbn [firstMaximum].
        exists met, frame, det, []. split; [reflexivity|]. split; [reflexivity|].
        split; [|intros fd []].
        intros fd Hin. fold s. rewrite Hp in E. cbn [score capturedMatch] in E.
        rewrite Hmet in Hin. apply in_app_or in Hin. destruct Hin as [Hin|[<-|Hin]].
        -- apply ltb_trans with (1 := Hlt fd Hin). exact E.
        -- exact E.
        -- apply leb_ltb_trans with (1 := Hge fd Hin). exact E.
      * cbn [firstMaximum]. exists before, f0, d0, (after ++ [(frame, det)]).
        split; [rewrite Hmet, <- app_assoc; reflexivity|]. split; [exact Hp|].
        split; [exact Hlt|].
        intros fd Hin. apply in_app_or in Hin. destruct Hin as [Hin|[<-|[]]]; [exact (Hge fd Hin)|].
        cbn [snd]. fold s. apply leb_trans with (1 := Hsfb).
        assert (Hpn : is_nan (score p) = false) by exact (leb_not_nan_r _ _ Hfp).
        rewrite Hp in E, Hpn. cbn [score capturedMatch] in E, Hpn.
        apply not_ltb_leb; [exact Hpn|exact (leb_not_nan_r _ _ Hfb')|exact E].
    + cbn [firstMaximum] in Hfm. rewrite updater_absent.
      assert (Hfbs : fb' = s).
      { subst fb'. unfold js_gt. rewrite (Hnil Hfm).
        destruct (0 <? s) eqn:E; [reflexivity|].
        destruct Hform as [Hf|[Hf|Hf]]; [congruence|symmetry; exact Hf|congruence]. }
      rewrite Hfbs, Hfm. cbn [firstMaximum app].
      exists [], frame, det, []. split; [reflexivity|]. split; [reflexivity|].
      split; intros fd [].
  - intros H. destruct met; discriminate.
  - intros p' Hp'. destruct (best st) as [p|] eqn:Eb.
    + rewrite updater_present in Hp'. unfold js_gt in Hp'. destruct (score p <? fb') eqn:E.
      * injection Hp' as <-. cbn [score capturedMatch]. apply leb_refl. exact (leb_not_nan_r _ _ Hfb').
      * injection Hp' as <-. apply not_ltb_leb; [|exact (leb_not_nan_r _ _ Hfb')|exact E].
        exact (leb_not_nan_r _ _ (Hle p eq_refl)).
    + rewrite updater_absent in Hp'. injection Hp' as <-. cbn [score capturedMatch].
      apply leb_refl. exact (leb_not_nan_r _ _ Hfb').
Qed.

Lemma immediate_forEach target pre frame dets :
  forall index seen st,
  validDistances euclideanDistance target dets ->
  immediateInv euclideanDistance Math_round target pre frame seen st ->
  immediateInv euclideanDistance Math_round target pre frame (seen ++ dets)
    (forEachDetection euclideanDistance Math_round (fun _ => true) target frame index dets st).
Proof.
  induction dets as [|det dets IH]; intros index seen st Hv Hst.
  - rewrite app_nil_r. exact Hst.
  - cbn [forEachDetection]. replace (seen ++ det :: dets) with ((seen ++ [det]) ++ dets)
      by (rewrite <- app_assoc; reflexivity).
    apply IH.
    + intros d Hin. apply Hv. right. exact Hin.
    + apply immediate_step; [apply Hv; left; reflexivity|exact Hst].
Qed.

Lemma firstMaximum_nonneg target met p :
  (forall fd, In fd met -> (0 <=? euclideanDistance target (descriptor (snd fd))) = true) ->
  firstMaximum euclideanDistance Math_round target met (Some p) -> (0 <=? score p) = true.
Proof.
  intros Hv (before & f0 & d0 & after & Hmet & -> & _). cbn [score capturedMatch].
  apply similarity_nonneg. apply (Hv (f0, d0)). rewrite Hmet. apply in_or_app. right. left. reflexivity.
Qed.

Lemma immediate_frame target pre frame b lg :
  (forall fd, In fd pre -> (0 <=? euclideanDistance target (descriptor (snd fd))) = true) ->
  validDistances euclideanDistance target (detections frame) ->
  firstMaximum euclideanDistance Math_round target pre b ->
  firstMaximum euclideanDistance Math_round target (pre ++ map (pair frame) (detections frame))
    (best (processDetections euclideanDistance Math_round (fun _ => true) target frame b lg)).
Proof.
  intros Hpre Hv Hfm. unfold processDetections.
  set (st0 := {| frameBestSim := 0; queued := []; best := b; log := lg; canvas := [] |}).
  assert (H0 : immediateInv euclideanDistance Math_round target pre frame [] st0).
  { unfold immediateInv, st0. cbn [frameBestSim queued best map]. rewrite app_nil_r.
    split; [reflexivity|]. split; [exact Hfm|]. split; [reflexivity|]. split; [reflexivity|].
    intros p ->. exact (firstMaximum_nonneg target pre p Hpre Hfm). }
  pose proof (immediate_forEach target pre frame (detections frame) 0 [] st0 Hv H0) as Hinv.
  cbn [app] in Hinv. destruct Hinv as (Hq & Hfm' & _).
  rewrite flushUpdaters_eq. cbn [best]. rewrite Hq, runUpdaters_nil. exact Hfm'.
Qed.

Lemma immediate_scanFrom target frames :
  forall pre k b lg,
  (forall fd, In fd (detectionsInOrder pre) ->
     (0 <=? euclideanDistance target (descriptor (snd fd))) = true) ->
  (forall frame, In frame frames -> validDistances euclideanDistance target (detections frame)) ->
  firstMaximum euclideanDistance Math_round target (detectionsInOrder pre) b ->
  firstMaximum euclideanDistance Math_round target (detectionsInOrder (pre ++ frames))
    (fst (scanFrom euclideanDistance Math_round immediate target k frames b lg)).
Proof.
  induction frames as [|frame frames IH]; intros pre k b lg Hpre Hv Hfm.
  - rewrite app_nil_r. exact Hfm.
  - cbn [scanFrom]. replace (pre ++ frame :: frames) with ((pre ++ [frame]) ++ frames)
      by (rewrite <- app_assoc; reflexivity).
    assert (Hflat : detectionsInOrder (pre ++ [frame])
                    = detectionsInOrder pre ++ map (pair frame) (detections frame)).
    { unfold detectionsInOrder. rewrite flat_map_app. cbn [flat_map]. rewrite app_nil_r. reflexivity. }
    apply IH.
    + rewrite Hflat. intros fd Hin. apply in_app_or in Hin. destruct Hin as [Hin|Hin].
      * exact (Hpre fd Hin).
      * apply in_map_iff in Hin. destruct Hin as (d & <- & Hd). cbn [snd].
        apply (Hv frame (or_introl eq_refl) d Hd).
    + intros f Hf. apply Hv. right. exact Hf.
    + rewrite Hflat. apply immediate_frame; [exact Hpre|apply Hv; left; reflexivity|exact Hfm].
Qed.

(** Under the immediate schedule the final record is the capture of the first
    detection of the run that attains the greatest similarity: its score, its
    frame's snapshot and time, and that detection's age, gender and
    expression. *)
Theorem immediate_record_is_first_maximum (target : Descriptor) (frames : list VideoFrame) :
  (forall frame, In frame frames -> validDistances euclideanDistance target (detections frame)) ->
  match fst (scanFrames euclideanDistance Math_round immediate target frames None) with
  | None => detectionsInOrder frames = []
  | Some p =>
      exists before frame d after,
        detectionsInOrder frames = before ++ (frame, d) :: after /\
        p = capturedMatch Math_round (detectionSimilarity euclideanDistance target d) frame d /\
        (forall fd, In fd before ->
           (detectionSimilarity euclideanDistance target (snd fd)
              <? detectionSimilarity euclideanDistance target d) = true) /\
        (forall fd, In fd after ->
           (detectionSimilarity euclideanDistance target (snd fd)
              <=? detectionSimilarity euclideanDistance target d) = true)
  end.
Proof.
  intros Hv.
  exact (immediate_scanFrom target frames [] 0 None [None]
           (fun fd (H : In fd []) => match H with end) Hv eq_refl).
Qed.

End ImmediateSchedule.

(** * Worked runs of the scan *)

Lemma exampleFrames_valid :
  forall frame, In frame exampleFrames ->
  validDistances exampleDistance [0] (detections frame).
Proof.
  intros frame [<-|[<-|[<-|[]]]] d Hd; cbn in Hd;
    repeat (destruct Hd as [<-|Hd]; [reflexivity|]); destruct Hd.
Defined.



(** The run of [exampleFrames] ends with the record of the second frame, score
    0.75, under either schedule: the third frame's equal score does not
    replace it. *)
Lemma exampleFrames_result :
  option_map (fun p => (score p, frameDataUrl p, timestamp p))
    (fst (scanFrames exampleDistance exampleRound immediate [0] exampleFrames None))
  = Some (0.75, "data:frame-2", 2) /\
  option_map (fun p => (score p, frameDataUrl p, timestamp p))
    (fst (scanFrames exampleDistance exampleRound batched [0] exampleFrames None))
  = Some (0.75, "data:frame-2", 2).
Proof. split; reflexivity. Qed.

(** C6 as stated fails: one frame with one detection at distance 2 has
    similarity 0, and the run creates a record, of score 0. *)
Lemma record_created_at_similarity_zero :
  detectionSimilarity exampleDistance [0] (faceAt 2 "male" 31) = 0 /\
  fst (scanFrames exampleDistance exampleRound immediate [0]
         [frameAt 1 "data:frame-1" [faceAt 2 "male" 31]] None)
  = Some {| score := 0; frameDataUrl := "data:frame-1"; timestamp := 1;
            age := Some 31; gender := Some "male"; genderProbability := Some 0.9;
            expression := Some "neutral" |}.
Proof. split; reflexivity. Qed.

(** * The session: loading, uploads, stop and reset *)

Lemma hooks_stopProcessing (s : Session) :
  hooks (stopProcessing s) = setState FINISHED (hooks s).
Proof.
  unfold stopProcessing. destruct (videoRef (hooks s)).
  - destruct (requestRef (runtime (onRuntime pause s))); reflexivity.
  - destruct (requestRef (runtime s)); reflexivity.
Qed.

(** C9.  Whatever the session, after [resetApp] the reference image, the video
    source, the reference descriptor, the Match Record and the error are
    absent, the current similarity is 0 and the phase is [IDLE]: the state of
    a fresh session once its models have loaded (the login is kept). *)
Theorem resetApp_restores_idle (s : Session) :
  targetImage (hooks (resetApp s)) = None /\
  videoSource (hooks (resetApp s)) = None /\
  targetDescriptor (hooks (resetApp s)) = None /\
  bestMatch (hooks (resetApp s)) = None /\
  currentSimilarity (hooks (resetApp s)) = 0 /\
  error (hooks (resetApp s)) = None /\
  state (hooks (resetApp s)) = IDLE /\
  hooks (resetApp s) =
    setState IDLE (setIsAuthenticated (isAuthenticated (hooks s)) initialHooks).
Proof.
  unfold resetApp. cbn [onHooks hooks]. rewrite hooks_stopProcessing.
  repeat split.
Qed.

(** C10.  An upload of a reference image (a file was chosen) clears the Match
    Record before the engine is asked for the descriptor, and it is still
    absent when the handler ends, however the engine answers; the video
    source, the phase and the current similarity are as they were. *)
Theorem image_upload_clears_match (url : string) (outcome : FaceOutcome) (h : Hooks) :
  bestMatch (handleImageUpload_begin (Some url) h) = None /\
  bestMatch (handleImageUpload (Some url) outcome h) = None /\
  videoSource (handleImageUpload (Some url) outcome h) = videoSource h /\
  state (handleImageUpload (Some url) outcome h) = state h /\
  currentSimilarity (handleImageUpload (Some url) outcome h) = currentSimilarity h.
Proof. destruct outcome; repeat split. Qed.

(** C8, as the code has it.  When the engine finds no face in the uploaded
    image, the handler sets the error message and the descriptor is absent;
    the phase does not change.  While the descriptor is absent the start
    button, where it is rendered, is disabled, and [startProcessing] does
    nothing.  The image panel then shows the rejected image with its clear
    button, not the file input; the clear button brings the file input
    back. *)
Theorem no_face_upload (url : string) (h : Hooks) :
  error (handleImageUpload (Some url) NoFace h)
    = Some "No face detected in the target image. Please choose another." /\
  targetDescriptor (handleImageUpload (Some url) NoFace h) = None /\
  state (handleImageUpload (Some url) NoFace h) = state h /\
  (forall h0 m, targetDescriptor h0 = None -> render h0 = MainView m ->
     videoPanel m = VideoInput \/ exists l, videoPanel m = VideoLoaded l true true) /\
  (forall s0, targetDescriptor (hooks s0) = None -> startProcessing s0 = s0) /\
  (forall m, render (handleImageUpload (Some url) NoFace h) = MainView m ->
     targetPanel m = ImagePreview url false) /\
  (forall m, render (clearTargetImage (handleImageUpload (Some url) NoFace h)) = MainView m ->
     targetPanel m = ImageInput).
Proof.
  split; [reflexivity|]. split; [reflexivity|]. split; [reflexivity|]. split; [|split; [|split]].
  - intros h0 m Hd. unfold render.
    destruct (isAuthenticated h0); cbn [negb]; [|discriminate].
    destruct (state h0); try discriminate; intros H; injection H as <-; cbn [videoPanel];
      rewrite Hd; destruct (videoSource h0); cbn; eauto.
  - intros s0 Hd. unfold startProcessing. rewrite Hd. destruct (videoRef (hooks s0)); reflexivity.
  - intros m. unfold render. cbn.
    destruct (isAuthenticated h); cbn [negb]; [|discriminate].
    destruct (state h); try discriminate; intros H; injection H as <-; reflexivity.
  - intros m. unfold render. cbn.
    destruct (isAuthenticated h); cbn [negb]; [|discriminate].
    destruct (state h); try discriminate; intros H; injection H as <-; reflexivity.
Qed.

(** C8 as stated fails: on the idle screen the image panel is the file input;
    after an upload in which no face is found it is the preview of the
    rejected image, and the file input is gone. *)
Lemma failed_upload_replaces_file_input :
  targetPanelOf (render idleHooks) = Some ImageInput /\
  targetPanelOf (render (handleImageUpload (Some "blob:landscape") NoFace idleHooks))
    = Some (ImagePreview "blob:landscape" false).
Proof. split; reflexivity. Qed.

(** C7, what the code does.  When [window.faceapi] is missing or one of the
    model loads fails, [loadModels] stores the error message and leaves the
    phase at [LOADING_MODELS], so the logged-in user is still shown the
    loading screen: the stored message is on no rendered screen. *)
Theorem load_failure_keeps_loading_screen (loads before after : list bool) :
  error (loadModels false loads (setIsAuthenticated true initialHooks))
    = Some "Failed to load AI models. Please check your internet connection." /\
  render (loadModels false loads (setIsAuthenticated true initialHooks)) = LoadingScreen /\
  error (loadModels true (before ++ false :: after) (setIsAuthenticated true initialHooks))
    = Some "Failed to load AI models. Please check your internet connection." /\
  state (loadModels true (before ++ false :: after) (setIsAuthenticated true initialHooks))
    = LOADING_MODELS /\
  render (loadModels true (before ++ false :: after) (setIsAuthenticated true initialHooks))
    = LoadingScreen.
Proof.
  unfold loadModels. cbn [andb]. rewrite forallb_app. cbn [forallb]. rewrite andb_false_r.
  repeat split.
Qed.

(** C4, what the code does.  The start click dispatches a detection call; the
    stop click comes while the call is out, pauses the video and sets the
    phase to [FINISHED], and the record is still absent.  When the call then
    resolves, [processFrame] resumes: it sets the Match Record and registers
    the next animation frame, in a session whose phase is [FINISHED]. *)
Theorem match_updated_after_stop :
  let started := step exampleDistance exampleRound StartStopClicked readySession in
  let stopped := step exampleDistance exampleRound StartStopClicked started in
  let resolved :=
    step exampleDistance exampleRound
      (DetectionsResolved 0 (fun _ => true) (frameAt 12.5 "data:frame" [faceAt 0.25 "male" 31]))
      stopped in
  state (hooks started) = PROCESSING /\ inFlight (runtime started) = [[0]] /\
  state (hooks stopped) = FINISHED /\ bestMatch (hooks stopped) = None /\
  inFlight (runtime stopped) = [[0]] /\
  state (hooks resolved) = FINISHED /\
  option_map score (bestMatch (hooks resolved)) = Some 0.75 /\
  animationFrames (runtime resolved) = [(1%nat, [0])].
Proof. repeat split. Qed.

Lemma immediate_record_is_first_maximum_witness :
  match fst (scanFrames exampleDistance exampleRound immediate [0] exampleFrames None) with
  | None => detectionsInOrder exampleFrames = []
  | Some p =>
      exists before frame d after,
        detectionsInOrder exampleFrames = before ++ (frame, d) :: after /\
        p = capturedMatch exampleRound (detectionSimilarity exampleDistance [0] d) frame d /\
        (forall fd, In fd before ->
           (detectionSimilarity exampleDistance [0] (snd fd)
              <? detectionSimilarity exampleDistance [0] d) = true) /\
        (forall fd, In fd after ->
           (detectionSimilarity exampleDistance [0] (snd fd)
              <=? detectionSimilarity exampleDistance [0] d) = true)
  end.
Proof.
  exact (immediate_record_is_first_maximum exampleDistance exampleRound [0] exampleFrames
           exampleFrames_valid).
Defined.

(** One frame with a face of similarity 0.25 and then one of similarity 0.75.
    If each updater runs inside its [setBestMatch] call the record is the
    second face's; if React runs the frame's updaters together after the
    [forEach], the first updater already reads the frame-best 0.75, and the
    record has that score with the first face's age and gender. *)
Lemma batched_record_mixes_faces :
  option_map (fun p => (score p, gender p, age p))
    (fst (scanFrames exampleDistance exampleRound immediate [0]
            [frameAt 1 "data:frame-1" [faceAt 0.75 "female" 40; faceAt 0.25 "male" 31]] None))
  = Some (0.75, Some "male", Some 31) /\
  option_map (fun p => (score p, gender p, age p))
    (fst (scanFrames exampleDistance exampleRound batched [0]
            [frameAt 1 "data:frame-1" [faceAt 0.75 "female" 40; faceAt 0.25 "male" 31]] None))
  = Some (0.75, Some "female", Some 40).
Proof. split; reflexivity. Qed.

(** * One frame of the scan *)

Section FrameProperties.

Variable euclideanDistance : Descriptor -> Descriptor -> number.
Variable Math_round : number -> number.

Lemma processDetections_inv flush target frame b lg :
  recordOk b -> validDistances euclideanDistance target (detections frame) ->
  scanInv euclideanDistance target frame b (detections frame)
    (processDetections euclideanDistance Math_round flush target frame b lg) /\
  queued (processDetections euclideanDistance Math_round flush target frame b lg) = [].
Proof.
  intros Hok Hv. unfold processDetections.
  set (st0 := {| frameBestSim := 0; queued := []; best := b; log := lg; canvas := [] |}).
  assert (H0 : scanInv euclideanDistance target frame b [] st0).
  { unfold scanInv, st0. cbn [frameBestSim queued best].
    split; [reflexivity|]. split; [reflexivity|]. split; [intros d []|].
    split; [intros H; contradiction|]. split; [intros d []|]. split; [intros H; exact H|].
    intros q Hq. split; [exact (Hok q Hq)|]. split; [intros _; exact (Hok q Hq)|left; reflexivity]. }
  split.
  - exact (flush_inv euclideanDistance Math_round target frame b _ _
             (forEach_inv euclideanDistance Math_round flush target frame b
                (detections frame) 0 [] st0 Hv H0)).
  - rewrite flushUpdaters_eq. reflexivity.
Qed.

Lemma similarity_le_one x : (0 <=? x) = true -> (similarity x <=? 1) = true.
Proof. intros H. exact (proj1 (proj2 (proj2 (similarity_cases x H)))). Qed.

(** After the detections of a frame have been through [processFrame], the
    current similarity is the greatest similarity among the frame's
    detections, and 0 when the frame has none (the record is then left as it
    was).  It lies in [[0, 1]] and does not exceed the score of the record. *)
Theorem frame_confidence_is_frame_maximum
    (flush : nat -> bool) (target : Descriptor) (frame : VideoFrame) (s : Session) :
  validDistances euclideanDistance target (detections frame) ->
  recordOk (bestMatch (hooks s)) ->
  let s' := processFrame_resume euclideanDistance Math_round flush target frame s in
  (0 <=? currentSimilarity (hooks s')) = true /\
  (currentSimilarity (hooks s') <=? 1) = true /\
  (detections frame = [] ->
     currentSimilarity (hooks s') = 0 /\ bestMatch (hooks s') = bestMatch (hooks s)) /\
  (forall d, In d (detections frame) ->
     (detectionSimilarity euclideanDistance target d <=? currentSimilarity (hooks s')) = true) /\
  (detections frame <> [] ->
     exists d, In d (detections frame) /\
               currentSimilarity (hooks s') = detectionSimilarity euclideanDistance target d) /\
  (forall p, bestMatch (hooks s') = Some p ->
     (currentSimilarity (hooks s') <=? score p) = true).
Proof.
  intros Hv Hok s'. subst s'. unfold processFrame_resume.
  cbn [hooks onRuntime onHooks bestMatch currentSimilarity setCurrentSimilarity setBestMatch].
  destruct (processDetections_inv flush target frame (bestMatch (hooks s)) [] Hok Hv)
    as [(Hfb & Hnil & Hub & Hatt & _ & _ & Hsome) Hq].
  split; [exact Hfb|]. split; [|split; [|split; [|split]]].
  - destruct (detections frame) as [|d0 dets] eqn:Ed.
    + rewrite (Hnil eq_refl). reflexivity.
    + destruct (Hatt ltac:(discriminate)) as (d & Hin & ->).
      apply similarity_le_one. apply Hv. exact Hin.
  - intros Hd. split; [exact (Hnil Hd)|]. unfold processDetections. rewrite Hd. reflexivity.
  - exact Hub.
  - exact Hatt.
  - intros p Hp. destruct (Hsome p Hp) as (_ & Hle & _). exact (Hle Hq).
Qed.

Lemma forEach_canvas flush target frame dets :
  forall index st,
  canvas (forEachDetection euclideanDistance Math_round flush target frame index dets st) =
  canvas st ++ map (fun d => drawBox (box d) (detectionSimilarity euclideanDistance target d)) dets.
Proof.
  induction dets as [|det dets IH]; intros index st.
  - cbn. rewrite app_nil_r. reflexivity.
  - cbn [forEachDetection map]. rewrite IH. unfold forEachStep.
    destruct (flush index); [rewrite flushUpdaters_eq|]; cbn [canvas];
      rewrite <- app_assoc; reflexivity.
Qed.

(** The overlay that one [processFrame] call draws holds one box per
    detection of its frame, in the engine's order, each styled by that
    detection's similarity; it depends neither on what was drawn before nor
    on the record nor on when React runs the updaters. *)
Theorem overlay_has_one_box_per_face
    (flush : nat -> bool) (target : Descriptor) (frame : VideoFrame)
    (b : option FaceMatchResult) (lg : list (option FaceMatchResult)) :
  canvas (processDetections euclideanDistance Math_round flush target frame b lg) =
  map (fun d => drawBox (box d) (detectionSimilarity euclideanDistance target d))
      (detections frame).
Proof.
  unfold processDetections. rewrite flushUpdaters_eq. cbn [canvas].
  rewrite forEach_canvas. reflexivity.
Qed.

Lemma forEach_batched target frame dets :
  forall index st,
  queued (forEachDetection euclideanDistance Math_round (fun _ => false) target frame index dets st)
    = queued st ++ dets /\
  best (forEachDetection euclideanDistance Math_round (fun _ => false) target frame index dets st)
    = best st.
Proof.
  induction dets as [|det dets IH]; intros index st.
  - cbn. rewrite app_nil_r. split; reflexivity.
  - cbn [forEachDetection]. destruct (IH (S index)
      (forEachStep euclideanDistance Math_round false target frame det st)) as [-> ->].
    unfold forEachStep. cbn [queued best]. rewrite <- app_assoc. split; reflexivity.
Qed.

(** When React runs a frame's updaters together after the [forEach], only the
    updater of the frame's first detection can change the record, and it
    reads the frame's final best similarity: a record created or replaced in
    that frame has the frame's best score with the age, the gender and the
    expression of the first detection, whichever detection had that score. *)
Theorem batched_record_takes_first_face
    (target : Descriptor) (frame : VideoFrame)
    (b : option FaceMatchResult) (lg : list (option FaceMatchResult)) :
  let st := processDetections euclideanDistance Math_round (fun _ => false) target frame b lg in
  best st =
    match detections frame with
    | [] => b
    | first :: _ => bestMatchUpdater Math_round (frameBestSim st) frame first b
    end /\
  (forall first rest, detections frame = first :: rest ->
     (b = None -> best st = Some (capturedMatch Math_round (frameBestSim st) frame first)) /\
     (forall p, best st = Some p -> Some p <> b ->
        score p = frameBestSim st /\
        age p = Some (Math_round (det_age first)) /\
        gender p = Some (det_gender first) /\
        expression p = dominantExpression (expressions first))).
Proof.
  intros st.
  assert (Hbest : best st =
            match detections frame with
            | [] => b
            | first :: _ => bestMatchUpdater Math_round (frameBestSim st) frame first b
            end).
  { subst st. unfold processDetections. rewrite flushUpdaters_eq. cbn [best frameBestSim].
    match goal with |- context [forEachDetection _ _ _ _ _ ?i ?l ?s0] =>
      destruct (forEach_batched target frame l i s0) as [Hq Hb] end.
    rewrite Hq, Hb. cbn [queued best app].
    destruct (detections frame) as [|first rest]; [reflexivity|].
    apply runUpdaters_best. }
  split; [exact Hbest|].
  intros first rest Hd. rewrite Hd in Hbest. split.
  - intros ->. exact Hbest.
  - intros p Hp Hne. rewrite Hp in Hbest. unfold bestMatchUpdater in Hbest.
    destruct (match b with None => true | Some p0 => js_gt (frameBestSim st) (score p0) end).
    + injection Hbest as ->. repeat split.
    + contradiction Hne.
Qed.

Lemma processDetections_numbers flush target frame b lg :
  recordValid b ->
  is_nan (frameBestSim (processDetections euclideanDistance Math_round flush target frame b lg)) = false /\
  recordValid (best (processDetections euclideanDistance Math_round flush target frame b lg)).
Proof.
  intros Hb. split; [|exact (proj2 (processDetections_le euclideanDistance Math_round
                                      flush target frame b lg Hb))].
  unfold processDetections. rewrite flushUpdaters_eq. cbn [frameBestSim].
  set (st0 := {| frameBestSim := 0; queued := []; best := b; log := lg; canvas := [] |}).
  exact (proj1 (forEach_le euclideanDistance Math_round flush target frame b (detections frame)
                  0 st0 eq_refl (recordLe_refl b Hb) Hb)).
Qed.




End FrameProperties.

(** * The session, event by event *)

Lemma render_main h m :
  render h = MainView m ->
  isAuthenticated h = true /\ state h <> LOADING_MODELS /\
  resetButton m = match state h with IDLE => false | _ => true end /\
  videoElement m = isSome (videoSource h).
Proof.
  unfold render. destruct (isAuthenticated h); cbn [negb]; [|discriminate].
  destruct (state h); try discriminate; intros H; injection H as <-;
    repeat split; discriminate.
Qed.

Section SessionProperties.

Variable euclideanDistance : Descriptor -> Descriptor -> number.
Variable Math_round : number -> number.

Lemma render_facts h rb tp vp eb ve mc rp :
  render h = MainView {| resetButton := rb; targetPanel := tp; videoPanel := vp;
                         errorBanner := eb; videoElement := ve; matchConfidence := mc;
                         resultPanel := rp |} ->
  mainShown h /\
  rb = match state h with IDLE => false | _ => true end /\
  tp = match targetImage h with
       | None => ImageInput
       | Some src => ImagePreview src (isSome (targetDescriptor h))
       end /\
  vp = match videoSource h with
       | None => VideoInput
       | Some _ =>
           VideoLoaded (if isProcessing h then StopScanning else StartAnalysis)
             (negb (isSome (targetDescriptor h))) (negb (isSome (targetDescriptor h)))
       end /\
  ve = isSome (videoSource h).
Proof.
  intros H. destruct (render_main _ _ H) as (Ha & Hl & Hr & Hv).
  pose proof (render_targetPanel _ _ H) as Ht. pose proof (render_videoPanel _ _ H) as Hp.
  cbn in Hr, Hv, Ht, Hp. repeat split; assumption.
Qed.

Ltac step_cases e s Er :=
  destruct e; unfold step;
  destruct (render (hooks s)) as [| |[rb tp vp eb ve mc rp]] eqn:Er;
  repeat match goal with
  | |- context [match ?x with _ => _ end] => is_var x; destruct x
  end;
  try (apply render_facts in Er; destruct Er as (Hmain & Hrb & Htp & Hvp & Hve)).

Lemma render_login h : render h = LoginScreen -> isAuthenticated h = false.
Proof.
  unfold render. destruct (isAuthenticated h); [|reflexivity].
  cbn [negb]. destruct (state h); discriminate.
Qed.

Lemma render_main_shown h :
  mainShown h ->
  render h =
  MainView
    {| resetButton := match state h with IDLE => false | _ => true end;
       targetPanel :=
         match targetImage h with
         | None => ImageInput
         | Some src => ImagePreview src (isSome (targetDescriptor h))
         end;
       videoPanel :=
         match videoSource h with
         | None => VideoInput
         | Some _ =>
             VideoLoaded (if isProcessing h then StopScanning else StartAnalysis)
               (negb (isSome (targetDescriptor h)))
               (negb (isSome (targetDescriptor h)))
         end;
       errorBanner := error h;
       videoElement := isSome (videoSource h);
       matchConfidence :=
         match videoSource h with
         | None => None
         | Some _ => if isProcessing h then Some (currentSimilarity h * 100) else None
         end;
       resultPanel :=
         match bestMatch h with
         | Some m => MatchCard m
         | None =>
             match state h with
             | FINISHED => NoFacesDetected
             | PROCESSING => ProcessingVideo
             | _ => ReadyToAnalyze
             end
         end |}.
Proof.
  intros [Ha Hs]. unfold render. rewrite Ha. cbn [negb].
  destruct (state h); [contradiction Hs; reflexivity|reflexivity..].
Qed.

Lemma step_effect (e : Event) (s : Session) :
  stepEffect euclideanDistance Math_round s e (step euclideanDistance Math_round e s).
Proof.
  step_cases e s Er; try apply NoEffect.
  all: try match goal with
    | |- stepEffect _ _ _ (ModelsSettled _ _) _ => apply ModelsEffect
    | |- stepEffect _ _ _ LoggedIn _ => apply LoggedInEffect; exact (render_login _ Er)
    | |- stepEffect _ _ _ SignedOut _ => apply SignedOutEffect; exact Hmain
    | |- stepEffect _ _ _ (ImageChosen _) _ =>
        apply ImageChosenEffect;
          [exact Hmain|destruct (targetImage (hooks s)); [discriminate|reflexivity]]
    | |- stepEffect _ _ _ (ImageAnalysed _) _ =>
        destruct (imageAnalyses (runtime s)) eqn:En;
          [apply NoEffect|apply ImageAnalysedEffect; exact En]
    | |- stepEffect _ _ _ ClearImageClicked _ =>
        apply ClearImageEffect;
          [exact Hmain|destruct (targetImage (hooks s)); [discriminate|discriminate]]
    | |- stepEffect _ _ _ (VideoChosen _) _ =>
        apply VideoChosenEffect;
          [exact Hmain|destruct (videoSource (hooks s)); [discriminate|reflexivity]]
    | |- stepEffect _ _ _ RemoveVideoClicked _ =>
        apply RemoveVideoEffect;
          [exact Hmain|destruct (videoSource (hooks s)); [discriminate|discriminate]]
    | |- stepEffect _ _ _ ResetClicked _ =>
        apply ResetEffect; [exact Hmain|destruct (state (hooks s)); discriminate]
    | |- stepEffect _ _ _ (AnimationFrame _) _ =>
        destruct (find _ _) as [[registered target]|] eqn:Ef;
          [exact (AnimationFrameEffect _ _ _ _ _ _ Ef)|apply NoEffect]
    | |- stepEffect _ _ _ (DetectionsResolved _ _ _) _ =>
        destruct (nth_error _ _) as [target|] eqn:En;
          [apply ResolvedEffect; exact En|apply NoEffect]
    | |- stepEffect _ _ _ VideoEnded _ =>
        apply VideoEndedEffect;
          [exact Hmain|destruct (videoSource (hooks s)); [discriminate|discriminate]]
    | |- stepEffect _ _ _ VideoPlayed _ =>
        apply VideoPlayedEffect;
          [exact Hmain|destruct (videoSource (hooks s)); [discriminate|discriminate]]
    | |- stepEffect _ _ _ VideoPaused _ =>
        apply VideoPausedEffect;
          [exact Hmain|destruct (videoSource (hooks s)); [discriminate|discriminate]]
    end.
  assert (Hv : videoSource (hooks s) <> None)
    by (destruct (videoSource (hooks s)); [discriminate|discriminate]).
  assert (Hd : targetDescriptor (hooks s) <> None).
  { destruct (videoSource (hooks s)); [|discriminate]. injection Hvp as _ Hd _.
    destruct (targetDescriptor (hooks s)); [discriminate|discriminate]. }
  unfold isProcessing. destruct (state (hooks s)) eqn:Es.
  1, 2, 4: apply StartEffect; try assumption; rewrite Es; discriminate.
  apply StopEffect; assumption.
Qed.

Lemma hooks_processFrame_cases target s :
  hooks (processFrame target s) = hooks s \/
  hooks (processFrame target s) = setState FINISHED (hooks s).
Proof.
  unfold processFrame. destruct (videoEnded (runtime s)); [right; reflexivity|].
  destruct (videoPaused (runtime s)); left; reflexivity.
Qed.

Lemma hooks_startProcessing_cases s :
  hooks (startProcessing s) = hooks s \/
  hooks (startProcessing s) = setState PROCESSING (hooks s) \/
  hooks (startProcessing s) = setState FINISHED (setState PROCESSING (hooks s)).
Proof.
  unfold startProcessing. destruct (videoRef (hooks s)); [|left; reflexivity].
  destruct (targetDescriptor (hooks s)) as [target|]; [|left; reflexivity].
  destruct (hooks_processFrame_cases target (onRuntime play (onHooks (setState PROCESSING) s)))
    as [-> | ->]; [right; left|right; right]; reflexivity.
Qed.

Lemma hooks_resetApp s :
  hooks (resetApp s) =
  setError None (setState IDLE (setCurrentSimilarity 0 (setTargetDescriptor None
    (setBestMatch None (setVideoSource None (setTargetImage None
      (setState FINISHED (hooks s)))))))).
Proof. unfold resetApp. cbn [onHooks hooks]. rewrite hooks_stopProcessing. reflexivity. Qed.

(** What one event does to the two scores: it leaves the current similarity
    and keeps or clears the record, or it resets both, or it is the
    resolution of a detection call. *)
Lemma step_scores (e : Event) (s : Session) :
  (currentSimilarity (hooks (step euclideanDistance Math_round e s)) = currentSimilarity (hooks s) /\
   (bestMatch (hooks (step euclideanDistance Math_round e s)) = bestMatch (hooks s) \/
    bestMatch (hooks (step euclideanDistance Math_round e s)) = None)) \/
  (currentSimilarity (hooks (step euclideanDistance Math_round e s)) = 0 /\
   bestMatch (hooks (step euclideanDistance Math_round e s)) = None) \/
  (exists call flush frame target,
     e = DetectionsResolved call flush frame /\
     nth_error (inFlight (runtime s)) call = Some target /\
     currentSimilarity (hooks (step euclideanDistance Math_round e s)) =
       frameBestSim (processDetections euclideanDistance Math_round flush target frame
                       (bestMatch (hooks s)) []) /\
     bestMatch (hooks (step euclideanDistance Math_round e s)) =
       best (processDetections euclideanDistance Math_round flush target frame
               (bestMatch (hooks s)) [])).
Proof.
  destruct (step_effect e s).
  - left. split; [reflexivity|left; reflexivity].
  - left. cbn [hooks onHooks]. unfold loadModels.
    destruct (faceapi && forallb (fun ok => ok) loads); split; try reflexivity; left; reflexivity.
  - left. split; [reflexivity|left; reflexivity].
  - left. split; [reflexivity|left; reflexivity].
  - left. split; [reflexivity|right; reflexivity].
  - left. destruct outcome; split; try reflexivity; left; reflexivity.
  - left. split; [reflexivity|left; reflexivity].
  - destruct file; [right; left; split; reflexivity|left; split; [reflexivity|left; reflexivity]].
  - left. split; [reflexivity|left; reflexivity].
  - left. rewrite hooks_stopProcessing. split; [reflexivity|left; reflexivity].
  - left. destruct (hooks_startProcessing_cases s) as [-> | [-> | ->]];
      split; try reflexivity; left; reflexivity.
  - right. left. rewrite hooks_resetApp. split; reflexivity.
  - left. destruct (hooks_processFrame_cases target (onRuntime (cancelAnimationFrame handle) s))
      as [-> | ->]; split; try reflexivity; left; reflexivity.
  - right. right. exists call, flush, frame, target.
    split; [reflexivity|]. split; [assumption|]. split; reflexivity.
  - left. split; [reflexivity|left; reflexivity].
  - left. split; [reflexivity|left; reflexivity].
  - left. split; [reflexivity|left; reflexivity].
Qed.

(** Whatever the engine reports, distances that are [NaN] included, the
    current similarity and the score of the record are numbers after every
    event: a [NaN] similarity never becomes the frame's best, so it reaches
    neither of them. *)
Theorem scores_are_always_numbers :
  (forall (e : Event) (s : Session),
     scoresAreNumbers (hooks s) ->
     scoresAreNumbers (hooks (step euclideanDistance Math_round e s))) /\
  (forall events : list Event,
     scoresAreNumbers (hooks (run euclideanDistance Math_round events initialSession))).
Proof.
  assert (Hstep : forall (e : Event) (s : Session),
            scoresAreNumbers (hooks s) ->
            scoresAreNumbers (hooks (step euclideanDistance Math_round e s))).
  { intros e s [Hc Hb]. unfold scoresAreNumbers.
    destruct (step_scores e s) as [[-> [-> | ->]] | [[-> ->] | (call & flush & frame & target & _ & _ & -> & ->)]].
    - split; assumption.
    - split; [assumption|exact I].
    - split; [reflexivity|exact I].
    - exact (processDetections_numbers euclideanDistance Math_round flush target frame _ [] Hb). }
  split; [exact Hstep|].
  intros events. unfold run.
  assert (H0 : scoresAreNumbers (hooks initialSession)) by (split; [reflexivity|exact I]).
  revert H0. generalize initialSession. induction events as [|e events IH]; intros s Hs.
  - exact Hs.
  - cbn [fold_left]. apply IH. apply Hstep. exact Hs.
Qed.

Lemma step_in_range (e : Event) (s : Session) :
  validRun euclideanDistance Math_round [e] s ->
  scoresInRange (hooks s) -> scoresInRange (hooks (step euclideanDistance Math_round e s)).
Proof.
  intros [Hv _] (H0 & H1 & Hp). unfold scoresInRange.
  destruct (step_scores e s) as [[-> [-> | ->]] | [[-> ->] | (call & flush & frame & target & -> & Hn & -> & ->)]].
  - repeat split; try assumption; apply Hp; assumption.
  - split; [assumption|]. split; [assumption|]. intros p Hp'. discriminate.
  - split; [reflexivity|]. split; [reflexivity|]. intros p Hp'. discriminate.
  - specialize (Hv target Hn).
    assert (Hok : recordOk (bestMatch (hooks s))).
    { intros p Hp'. exact (proj1 (Hp p Hp')). }
    destruct (processDetections_inv euclideanDistance Math_round flush target frame
                (bestMatch (hooks s)) [] Hok Hv) as [(Hfb & Hnil & Hub & Hatt & _ & _ & Hsome) Hq].
    split; [exact Hfb|]. split.
    + destruct (detections frame) as [|d0 dets] eqn:Ed.
      * rewrite (Hnil eq_refl). reflexivity.
      * destruct (Hatt ltac:(discriminate)) as (d & Hin & ->).
        apply similarity_le_one. apply Hv. exact Hin.
    + intros p Hp'. destruct (Hsome p Hp') as (Hs0 & Hle & Hor).
      split; [exact Hs0|]. split; [|exact (Hle Hq)].
      destruct Hor as [Hor | (_ & _ & (d & Hin & ->) & _)].
      * rewrite Hor in Hp'. exact (proj1 (proj2 (Hp p Hp'))).
      * apply similarity_le_one. apply Hv. exact Hin.
Qed.

(** Along every run in which the engine's distances are [>= 0], from a
    session whose scores are in range (the initial one is): the current
    similarity and the score of the record stay in [[0, 1]], and the current
    similarity never exceeds the score of a record that is present. *)
Theorem scores_stay_in_range (events : list Event) (s : Session) :
  validRun euclideanDistance Math_round events s ->
  scoresInRange (hooks s) ->
  scoresInRange (hooks (run euclideanDistance Math_round events s)).
Proof.
  unfold run. revert s. induction events as [|e events IH]; intros s Hv Hs.
  - exact Hs.
  - cbn [fold_left]. destruct Hv as [He Hrest]. apply IH; [exact Hrest|].
    apply step_in_range; [split; [exact He|exact I]|exact Hs].
Qed.

(** ** The phase *)

(** The phase changes only in these ways: to [IDLE] when the models have
    loaded or on the reset click; to [PROCESSING] on the start click, with
    the main view shown, a video loaded and a reference descriptor present;
    to [FINISHED] on the start/stop click, when the video ends, or when an
    animation frame finds the video ended.  No event brings [LOADING_MODELS]
    back. *)
Theorem phase_transitions (e : Event) (s : Session) :
  state (hooks (step euclideanDistance Math_round e s)) = state (hooks s) \/
  (state (hooks (step euclideanDistance Math_round e s)) = IDLE /\
   (modelsLoaded e = true \/ e = ResetClicked)) \/
  (state (hooks (step euclideanDistance Math_round e s)) = PROCESSING /\
   e = StartStopClicked /\ mainShown (hooks s) /\
   videoSource (hooks s) <> None /\ targetDescriptor (hooks s) <> None) \/
  (state (hooks (step euclideanDistance Math_round e s)) = FINISHED /\
   (e = StartStopClicked \/ e = VideoEnded \/ exists handle, e = AnimationFrame handle)).
Proof.
  destruct (step_effect e s); try (left; reflexivity).
  - cbn [hooks onHooks modelsLoaded]. unfold loadModels.
    destruct (faceapi && forallb (fun ok => ok) loads);
      [right; left; split; [reflexivity|left; reflexivity]|left; reflexivity].
  - left. destruct outcome; reflexivity.
  - left. destruct file; reflexivity.
  - right. right. right. rewrite hooks_stopProcessing. split; [reflexivity|left; reflexivity].
  - destruct (hooks_startProcessing_cases s) as [-> | [-> | ->]].
    + left. reflexivity.
    + right. right. left. split; [reflexivity|]. split; [reflexivity|].
      split; [assumption|]. split; assumption.
    + right. right. right. split; [reflexivity|left; reflexivity].
  - right. left. rewrite hooks_resetApp. split; [reflexivity|right; reflexivity].
  - destruct (hooks_processFrame_cases target (onRuntime (cancelAnimationFrame handle) s))
      as [-> | ->]; [left; reflexivity|].
    right. right. right. split; [reflexivity|]. right. right. exists handle. reflexivity.
  - right. right. right. split; [reflexivity|right; left; reflexivity].
Qed.

(** ** The error message *)

(** The stored error message changes only when [loadModels] fails, when the
    analysis of an uploaded image ends, or on the reset click.  Clearing the
    rejected image, choosing a video, starting, stopping and signing out all
    leave it as it is. *)
Theorem error_message_persists (e : Event) (s : Session) :
  error (hooks (step euclideanDistance Math_round e s)) = error (hooks s) \/
  (exists faceapi loads, e = ModelsSettled faceapi loads /\ modelsLoaded e = false) \/
  (exists outcome, e = ImageAnalysed outcome) \/
  e = ResetClicked.
Proof.
  destruct (step_effect e s); try (left; reflexivity).
  - cbn [hooks onHooks modelsLoaded]. unfold loadModels.
    destruct (faceapi && forallb (fun ok => ok) loads) eqn:E; [left; reflexivity|].
    right. left. exists faceapi, loads. split; reflexivity.
  - right. right. left. exists outcome. reflexivity.
  - left. destruct file; reflexivity.
  - left. rewrite hooks_stopProcessing. reflexivity.
  - left. destruct (hooks_startProcessing_cases s) as [-> | [-> | ->]]; reflexivity.
  - right. right. right. reflexivity.
  - left. destruct (hooks_processFrame_cases target (onRuntime (cancelAnimationFrame handle) s))
      as [-> | ->]; reflexivity.
Qed.

(** ** When the models do not load *)

(** If no call of [loadModels] gets through, then whatever else happens the
    phase stays [LOADING_MODELS], only the login and the loading screen are
    ever rendered, nothing is uploaded or recorded and no loop is started. *)
Theorem failed_load_is_final (events : list Event) :
  Forall (fun e => modelsLoaded e = false) events ->
  state (hooks (run euclideanDistance Math_round events initialSession)) = LOADING_MODELS /\
  (render (hooks (run euclideanDistance Math_round events initialSession)) = LoginScreen \/
   render (hooks (run euclideanDistance Math_round events initialSession)) = LoadingScreen) /\
  targetImage (hooks (run euclideanDistance Math_round events initialSession)) = None /\
  videoSource (hooks (run euclideanDistance Math_round events initialSession)) = None /\
  targetDescriptor (hooks (run euclideanDistance Math_round events initialSession)) = None /\
  bestMatch (hooks (run euclideanDistance Math_round events initialSession)) = None /\
  runtime (run euclideanDistance Math_round events initialSession) = initialRuntime.
Proof.
  intros Hall.
  set (stuck := fun s : Session =>
         state (hooks s) = LOADING_MODELS /\ targetImage (hooks s) = None /\
         videoSource (hooks s) = None /\ targetDescriptor (hooks s) = None /\
         bestMatch (hooks s) = None /\ runtime s = initialRuntime).
  assert (Hrun : stuck (run euclideanDistance Math_round events initialSession)).
  { unfold run. assert (H0 : stuck initialSession) by (repeat split).
    revert H0. generalize initialSession.
    induction Hall as [|e events He _ IH]; intros s Hs; [exact Hs|].
    cbn [fold_left]. apply IH. destruct Hs as (Hst & Hi & Hv & Hd & Hb & Hr).
    assert (Hno : ~ mainShown (hooks s)) by (intros [_ Hm]; exact (Hm Hst)).
    destruct (step_effect e s); try (contradiction Hno; assumption).
    - repeat split; assumption.
    - cbn [modelsLoaded] in He. unfold stuck. cbn [hooks onHooks runtime].
      unfold loadModels. rewrite He. repeat split; assumption.
    - repeat split; assumption.
    - rewrite Hr in H. discriminate.
    - rewrite Hr in H. discriminate.
    - rewrite Hr in H. destruct call; discriminate. }
  destruct Hrun as (Hst & Hi & Hv & Hd & Hb & Hr).
  repeat split; try assumption.
  unfold render. rewrite Hst. destruct (isAuthenticated _); [right|left]; reflexivity.
Qed.

(** ** Detection calls and the stop *)



Lemma inFlight_stopProcessing s :
  inFlight (runtime (stopProcessing s)) = inFlight (runtime s).
Proof.
  unfold stopProcessing. destruct (videoRef (hooks s)).
  - destruct (requestRef (runtime (onRuntime pause s))); reflexivity.
  - destruct (requestRef (runtime s)); reflexivity.
Qed.

Lemma animationFrames_stopProcessing s :
  animationFrames (runtime (stopProcessing s)) =
  match requestRef (runtime s) with
  | O => animationFrames (runtime s)
  | S _ => filter (fun cb => negb (Nat.eqb (fst cb) (requestRef (runtime s))))
             (animationFrames (runtime s))
  end.
Proof.
  unfold stopProcessing. destruct (videoRef (hooks s)); cbn [runtime onRuntime pause setVideo requestRef];
    destruct (requestRef (runtime s)); reflexivity.
Qed.



Lemma step_stop (s : Session) :
  isAuthenticated (hooks s) = true -> state (hooks s) = PROCESSING ->
  videoSource (hooks s) <> None -> targetDescriptor (hooks s) <> None ->
  step euclideanDistance Math_round StartStopClicked s = stopProcessing s /\
  videoRef (hooks s) = true.
Proof.
  intros Ha Hs Hv Hd. unfold step, videoRef, render, isProcessing. rewrite Ha, Hs. cbn [negb].
  destruct (videoSource (hooks s)); [|contradiction Hv; reflexivity].
  destruct (targetDescriptor (hooks s)); [|contradiction Hd; reflexivity].
  split; reflexivity.
Qed.

Lemma step_not_processing (e : Event) (s : Session) :
  isStartStop e = false -> state (hooks s) <> PROCESSING ->
  state (hooks (step euclideanDistance Math_round e s)) <> PROCESSING.
Proof.
  intros He Hs. destruct (step_effect e s); try discriminate He; try exact Hs.
  - cbn [hooks onHooks]. unfold loadModels.
    destruct (faceapi && forallb (fun ok => ok) loads); [discriminate|exact Hs].
  - destruct outcome; exact Hs.
  - destruct file; exact Hs.
  - rewrite hooks_resetApp. discriminate.
  - destruct (hooks_processFrame_cases target (onRuntime (cancelAnimationFrame handle) s))
      as [-> | ->]; [exact Hs|discriminate].
  - discriminate.
Qed.

Lemma quiet_step (e : Event) (s : Session) :
  isStartStop e = false -> quiet s -> state (hooks s) <> PROCESSING ->
  quiet (step euclideanDistance Math_round e s) /\
  state (hooks (step euclideanDistance Math_round e s)) <> PROCESSING /\
  (bestMatch (hooks (step euclideanDistance Math_round e s)) = bestMatch (hooks s) \/
   bestMatch (hooks (step euclideanDistance Math_round e s)) = None).
Proof.
  intros He [Hf Hi] Hs. split; [|split].
  - unfold quiet. destruct (step_effect e s); try discriminate He;
      cbn [runtime onHooks onRuntime animationFrames inFlight setImageAnalyses setVideo pause];
      try (split; assumption).
    + unfold resetApp. cbn [runtime onHooks].
      rewrite animationFrames_stopProcessing, inFlight_stopProcessing, Hf.
      split; [destruct (requestRef (runtime s)); reflexivity|exact Hi].
    + rewrite Hf in H. discriminate.
    + rewrite Hi in H. destruct call; discriminate.
  - apply step_not_processing; assumption.
  - destruct (step_scores e s) as [[_ H] | [[_ H] | (call & flush & frame & target & _ & Hn & _)]].
    + exact H.
    + right. exact H.
    + rewrite Hi in Hn. destruct call; discriminate.
Qed.

(** A stop click that comes while the one loop of the run waits for its
    animation frame (no detection call is out) does end the scan: the frame
    is cancelled, and from then on, until the start button is clicked again,
    no [processFrame] call is waiting, the phase is not [PROCESSING], and the
    record is the one at the stop or, after an upload or a reset, absent. *)
Theorem stop_between_frames_ends_updates
    (s : Session) (target : Descriptor) (events : list Event) :
  isAuthenticated (hooks s) = true -> state (hooks s) = PROCESSING ->
  videoSource (hooks s) <> None -> targetDescriptor (hooks s) <> None ->
  inFlight (runtime s) = [] ->
  animationFrames (runtime s) = [(requestRef (runtime s), target)] ->
  requestRef (runtime s) <> O ->
  Forall (fun e => isStartStop e = false) events ->
  let stopped := step euclideanDistance Math_round StartStopClicked s in
  let later := run euclideanDistance Math_round events stopped in
  state (hooks stopped) = FINISHED /\ videoPaused (runtime stopped) = true /\
  bestMatch (hooks stopped) = bestMatch (hooks s) /\
  quiet stopped /\ quiet later /\ state (hooks later) <> PROCESSING /\
  (bestMatch (hooks later) = bestMatch (hooks s) \/ bestMatch (hooks later) = None).
Proof.
  intros Ha Hs Hv Hd Hi Hf Hr Hall stopped later.
  destruct (step_stop s Ha Hs Hv Hd) as [Hstep Hvr].
  assert (Hq : quiet stopped).
  { subst stopped. rewrite Hstep. split.
    - rewrite animationFrames_stopProcessing, Hf.
      destruct (requestRef (runtime s)) as [|n]; [contradiction Hr; reflexivity|].
      cbn [filter fst]. rewrite Nat.eqb_refl. reflexivity.
    - rewrite inFlight_stopProcessing. exact Hi. }
  assert (Hst : state (hooks stopped) = FINISHED).
  { subst stopped. rewrite Hstep, hooks_stopProcessing. reflexivity. }
  assert (Hb : bestMatch (hooks stopped) = bestMatch (hooks s)).
  { subst stopped. rewrite Hstep, hooks_stopProcessing. reflexivity. }
  split; [exact Hst|]. split.
  { subst stopped. rewrite Hstep. unfold stopProcessing. rewrite Hvr.
    destruct (requestRef (runtime (onRuntime pause s))); reflexivity. }
  split; [exact Hb|]. split; [exact Hq|].
  assert (Hp : state (hooks stopped) <> PROCESSING) by (rewrite Hst; discriminate).
  assert (Hor : bestMatch (hooks stopped) = bestMatch (hooks s) \/ bestMatch (hooks stopped) = None)
    by (left; exact Hb).
  subst later. unfold run. clearbody stopped. clear Hst Hb.
  revert stopped Hq Hp Hor. induction Hall as [|e events He _ IH]; intros st Hq Hp Hor.
  - cbn. repeat split; try apply Hq; assumption.
  - cbn [fold_left]. destruct (quiet_step e st He Hq Hp) as (Hq' & Hp' & Hb').
    apply IH; try assumption.
    destruct Hb' as [-> | ->]; [exact Hor|right; reflexivity].
Qed.

(** ** How many loops run *)


Lemma filter_handle_le (h : nat) (l : list (nat * Descriptor)) :
  (List.length (filter (fun cb => negb (Nat.eqb (fst cb) h)) l) <= List.length l)%nat.
Proof.
  induction l as [|cb l IH]; [cbn; lia|]. cbn [filter].
  destruct (negb (Nat.eqb (fst cb) h)); cbn [List.length]; lia.
Qed.












(** ** Clearing an image that is still being analysed *)

(** The clear button does not withdraw the analysis of the image it removes.
    If the user chooses an image, clears it before the engine has answered,
    and the engine then finds a face, the descriptor of the removed image is
    stored: the image panel shows the empty file input, no error is shown,
    and with a video loaded the start button is enabled. *)
Theorem cleared_image_still_sets_descriptor (s : Session) (url : string) (d : Descriptor) :
  mainShown (hooks s) -> targetImage (hooks s) = None ->
  let s' :=
    run euclideanDistance Math_round
      [ImageChosen (Some url); ClearImageClicked; ImageAnalysed (FaceFound d)] s in
  targetImage (hooks s') = None /\
  targetDescriptor (hooks s') = Some d /\
  error (hooks s') = None /\
  exists m, render (hooks s') = MainView m /\ targetPanel m = ImageInput /\
    (videoSource (hooks s) = None \/ exists l, videoPanel m = VideoLoaded l false false).
Proof.
  intros Hm Hi s'.
  assert (H1 : step euclideanDistance Math_round (ImageChosen (Some url)) s =
               onRuntime (fun r => setImageAnalyses (S (imageAnalyses r)) r)
                 (onHooks (handleImageUpload_begin (Some url)) s)).
  { unfold step. rewrite (render_main_shown _ Hm), Hi. reflexivity. }
  set (s1 := onRuntime (fun r => setImageAnalyses (S (imageAnalyses r)) r)
               (onHooks (handleImageUpload_begin (Some url)) s)) in *.
  assert (Hm1 : mainShown (hooks s1)) by exact Hm.
  assert (H2 : step euclideanDistance Math_round ClearImageClicked s1 = onHooks clearTargetImage s1).
  { unfold step. rewrite (render_main_shown _ Hm1). reflexivity. }
  assert (H3 : step euclideanDistance Math_round (ImageAnalysed (FaceFound d))
                 (onHooks clearTargetImage s1) =
               onRuntime (setImageAnalyses (imageAnalyses (runtime s)))
                 (onHooks (handleImageUpload_end (FaceFound d)) (onHooks clearTargetImage s1))).
  { unfold step. destruct (render (hooks (onHooks clearTargetImage s1))) as [| |[]]; reflexivity. }
  assert (Hs' : s' = onRuntime (setImageAnalyses (imageAnalyses (runtime s)))
                  (onHooks (handleImageUpload_end (FaceFound d)) (onHooks clearTargetImage s1))).
  { subst s'. unfold run. cbn [fold_left]. rewrite H1, H2, H3. reflexivity. }
  rewrite Hs'. split; [reflexivity|]. split; [reflexivity|]. split; [reflexivity|].
  eexists. split; [apply render_main_shown; exact Hm|]. split; [reflexivity|].
  cbn. destruct (videoSource (hooks s)); [right; eexists; reflexivity|left; reflexivity].
Qed.

End SessionProperties.

(** * The login form *)

Section LoginProperties.

Variable euclideanDistance : Descriptor -> Descriptor -> number.
Variable Math_round : number -> number.

Lemma click_pending (a : Login.Action) (m : Login.Mounted) :
  List.length (Login.pending m) = (if Login.loading (Login.st m) then 1 else 0)%nat ->
  List.length (Login.pending (Login.click a m)) =
    (if Login.loading (Login.st (Login.click a m)) then 1 else 0)%nat.
Proof.
  destruct m as [[l r rs] pend]. cbn [Login.pending Login.st Login.loading]. intros H.
  destruct a, l, r, rs; cbn; try exact H;
    rewrite length_app, H; reflexivity.
Qed.

Lemma render_after_onLogin (s : Session) : render (hooks (onLogin s)) <> LoginScreen.
Proof.
  unfold onLogin, render. cbn [hooks onHooks isAuthenticated setIsAuthenticated negb].
  destruct (state (setIsAuthenticated true (hooks s))); discriminate.
Qed.

Lemma render_login_iff (h : Hooks) : render h = LoginScreen <-> isAuthenticated h = false.
Proof.
  split; [apply render_login|]. unfold render. intros ->. reflexivity.
Qed.

(** No event of [App] but the call of [onLogin] authenticates. *)
Lemma step_keeps_signed_out (e : Event) (s : Session) :
  e <> LoggedIn -> isAuthenticated (hooks s) = false ->
  isAuthenticated (hooks (step euclideanDistance Math_round e s)) = false.
Proof.
  intros He Ha.
  assert (Hno : ~ mainShown (hooks s)) by (intros [Hm _]; congruence).
  destruct (step_effect euclideanDistance Math_round e s);
    try (contradiction Hno; assumption); try assumption.
  - cbn [hooks onHooks]. unfold loadModels.
    destruct (faceapi && forallb (fun ok => ok) loads); exact Ha.
  - contradiction He. reflexivity.
  - destruct outcome; exact Ha.
  - destruct (hooks_processFrame_cases target (onRuntime (cancelAnimationFrame handle) s))
      as [-> | ->]; exact Ha.
Qed.

Lemma pageStep_inv (e : PageEvent) (p : Page) :
  pageInv p -> pageInv (pageStep euclideanDistance Math_round e p).
Proof.
  intros [Ho Hl]. destruct e as [e'|a|i|i]; cbn [pageStep].
  - assert (Hgen : pageInv (reconcile (step euclideanDistance Math_round e' (session p))
                              (login p) (orphans p)) \/ e' = LoggedIn).
    { destruct (login p) as [m|] eqn:El.
      - destruct Hl as [Hr Hp].
        destruct e'; try (right; reflexivity); left;
          (match goal with |- pageInv (reconcile (step _ _ ?ev _) _ _) =>
             assert (Hk : isAuthenticated (hooks (step euclideanDistance Math_round ev (session p))) = false)
               by (apply step_keeps_signed_out; [discriminate|apply render_login; exact Hr])
           end;
           apply render_login_iff in Hk; unfold reconcile; rewrite Hk;
           split; [exact Ho|cbn [login session]; split; [exact Hk|exact Hp]]).
      - left. unfold reconcile.
        destruct (render (hooks (step euclideanDistance Math_round e' (session p)))) eqn:Er;
          (split; [exact Ho|cbn [login session]; rewrite Er]);
          try discriminate. split; reflexivity. }
    destruct Hgen as [H | ->]; [|split; assumption].
    destruct e'; try exact H. split; assumption.
  - destruct (login p) as [m|] eqn:El; [|split; [exact Ho|rewrite El; exact Hl]].
    destruct Hl as [Hr Hp]. split; [exact Ho|]. cbn [login session].
    split; [exact Hr|apply click_pending; exact Hp].
  - destruct (login p) as [m|] eqn:El; [|split; [exact Ho|rewrite El; exact Hl]].
    destruct Hl as [Hr Hp]. unfold Login.fire.
    destruct m as [[l r rs] pend]. cbn [Login.pending Login.st Login.loading] in *.
    destruct l.
    + destruct pend as [|t [|t' pend]]; try discriminate Hp.
      destruct i as [|i]; cbn [nth_error].
      * destruct t as [[|] dl]; cbn [Login.callback].
        -- unfold reconcile.
           destruct (render (hooks (onLogin (session p)))) eqn:Er;
             [contradiction (render_after_onLogin (session p))| |];
             (split; [cbn [orphans Login.pending removeNth]; rewrite Ho; reflexivity|]);
             cbn [login session]; rewrite Er; discriminate.
        -- unfold reconcile. rewrite Hr. split; [exact Ho|].
           cbn [login session]. split; [exact Hr|reflexivity].
      * destruct i; cbn [nth_error]; unfold reconcile; rewrite Hr;
          (split; [exact Ho|cbn [login session]; split; [exact Hr|reflexivity]]).
    + destruct pend; [|discriminate Hp]. destruct i; cbn [nth_error];
        unfold reconcile; rewrite Hr;
        (split; [exact Ho|cbn [login session]; split; [exact Hr|reflexivity]]).
  - rewrite Ho. destruct i; cbn [nth_error]; (split; [exact Ho|exact Hl]).
Qed.

(** At every moment of every run of the page, the form is mounted exactly
    while the login screen is rendered, it has one timeout pending while its
    controls are disabled and none otherwise, and no timeout is left from a
    form that has been unmounted. *)
Theorem login_timeouts_never_outlive_form (events : list PageEvent) :
  pageInv (runPage euclideanDistance Math_round events initialPage) /\
  orphans (runPage euclideanDistance Math_round events initialPage) = [].
Proof.
  assert (H : pageInv (runPage euclideanDistance Math_round events initialPage)).
  { unfold runPage. assert (H0 : pageInv initialPage) by (repeat split).
    revert H0. generalize initialPage. induction events as [|e events IH]; intros p Hp.
    - exact Hp.
    - cbn [fold_left]. apply IH. apply pageStep_inv. exact Hp. }
  split; [exact H|exact (proj1 H)].
Qed.

Lemma pageStep_without_form (e : PageEvent) (p : Page) :
  isFormAction e = false ->
  pageInv p -> isAuthenticated (hooks (session p)) = false ->
  (forall m, login p = Some m -> Login.loading (Login.st m) = false) ->
  isAuthenticated (hooks (session (pageStep euclideanDistance Math_round e p))) = false /\
  login (pageStep euclideanDistance Math_round e p) = login p.
Proof.
  intros He [Ho Hl] Ha Hload.
  destruct (login p) as [m|] eqn:El;
    [|contradiction Hl; apply render_login_iff; exact Ha].
  destruct Hl as [Hr Hp]. rewrite (Hload m eq_refl) in Hp.
  destruct e as [e'|a|i|i]; try discriminate He; cbn [pageStep]; rewrite ?El.
  - assert (Hk : e' <> LoggedIn ->
              isAuthenticated (hooks (session (reconcile (step euclideanDistance Math_round e' (session p))
                                                 (Some m) (orphans p)))) = false /\
              login (reconcile (step euclideanDistance Math_round e' (session p))
                       (Some m) (orphans p)) = Some m).
    { intros Hne. pose proof (step_keeps_signed_out e' (session p) Hne Ha) as Hk.
      unfold reconcile. rewrite (proj2 (render_login_iff _) Hk).
      split; [exact Hk|reflexivity]. }
    destruct e'; try (apply Hk; discriminate). rewrite El. split; [exact Ha|reflexivity].
  - unfold Login.fire.
    destruct (Login.pending m); [|discriminate Hp].
    destruct i; cbn [nth_error]; unfold reconcile; rewrite Hr; (split; [exact Ha|reflexivity]).
  - rewrite Ho. destruct i; cbn [nth_error]; rewrite ?El; (split; [exact Ha|reflexivity]).
Qed.

(** Nothing but the user's action on the form leads to a login.  From a page
    that shows the login form with its controls enabled (as it is at the
    start and after every sign-out), any run of events that has no click on
    the form and no submission leaves the session signed out and the form as
    it is, whatever else happens in [App]; and whenever a session becomes
    authenticated, the event is a due timeout of the mounted form, the one
    [handleLogin] registered. *)
Theorem only_the_form_logs_in (events : list PageEvent) (p : Page) :
  pageInv p -> isAuthenticated (hooks (session p)) = false ->
  (forall m, login p = Some m -> Login.loading (Login.st m) = false) ->
  Forall (fun e => isFormAction e = false) events ->
  isAuthenticated (hooks (session (runPage euclideanDistance Math_round events p))) = false /\
  login (runPage euclideanDistance Math_round events p) = login p /\
  (forall (e : PageEvent) (q : Page),
     pageInv q -> isAuthenticated (hooks (session q)) = false ->
     isAuthenticated (hooks (session (pageStep euclideanDistance Math_round e q))) = true ->
     exists i m t,
       e = TimeoutDue i /\ login q = Some m /\ nth_error (Login.pending m) i = Some t /\
       Login.callback t = Login.CallOnLogin /\ Login.loading (Login.st m) = true).
Proof.
  intros Hinv Ha Hload Hall.
  assert (Hrun : isAuthenticated (hooks (session (runPage euclideanDistance Math_round events p))) = false /\
                 login (runPage euclideanDistance Math_round events p) = login p).
  { unfold runPage. revert p Hinv Ha Hload.
    induction Hall as [|e events He _ IH]; intros p Hinv Ha Hload; [split; [exact Ha|reflexivity]|].
    cbn [fold_left].
    destruct (pageStep_without_form e p He Hinv Ha Hload) as [Ha' Hl'].
    destruct (IH (pageStep euclideanDistance Math_round e p)) as [H1 H2].
    - apply pageStep_inv. exact Hinv.
    - exact Ha'.
    - rewrite Hl'. exact Hload.
    - split; [exact H1|]. rewrite H2. exact Hl'. }
  split; [exact (proj1 Hrun)|]. split; [exact (proj2 Hrun)|].
  clear. intros e q [Ho Hl] Ha Ht.
  destruct (login q) as [m|] eqn:El;
    [|contradiction Hl; apply render_login_iff; exact Ha].
  destruct Hl as [Hr Hp].
  destruct e as [e'|a|i|i]; cbn [pageStep] in Ht.
  - exfalso.
    assert (Hk : e' <> LoggedIn ->
              isAuthenticated (hooks (session (reconcile (step euclideanDistance Math_round e' (session q))
                                                 (login q) (orphans q)))) = false).
    { intros Hne. pose proof (step_keeps_signed_out e' (session q) Hne Ha) as Hk.
      unfold reconcile. rewrite (proj2 (render_login_iff _) Hk), El. exact Hk. }
    destruct e'; try (rewrite Hk in Ht; [discriminate Ht|discriminate]). congruence.
  - rewrite El in Ht. cbn [session] in Ht. congruence.
  - rewrite El in Ht. unfold Login.fire in Ht.
    destruct (nth_error (Login.pending m) i) as [t|] eqn:En.
    + destruct (Login.callback t) eqn:Ec.
      * exists i, m, t. repeat split; try assumption; try reflexivity.
        destruct (Login.loading (Login.st m)); [reflexivity|].
        destruct (Login.pending m); [destruct i; discriminate En|discriminate Hp].
      * unfold reconcile in Ht. rewrite Hr in Ht. cbn [session] in Ht. congruence.
    + unfold reconcile in Ht. rewrite Hr in Ht. cbn [session] in Ht. congruence.
  - rewrite Ho in Ht. destruct i; cbn [nth_error] in Ht; congruence.
Qed.

(** The timeout of [handleReset] stores [resetSent] in whatever mode the form
    is when it comes due, and only the "Back to Sign In" button, which the
    confirmation alone shows, clears it.  So after a reset that was cancelled
    while it was pending, the next click on "Forgot Password?" shows the
    confirmation at once, with no form to enter an address. *)
Theorem cancelled_reset_still_confirms :
  (forall (m : Login.Mounted) (i : nat) (t : Login.Timeout),
     nth_error (Login.pending m) i = Some t -> Login.callback t = Login.FinishReset ->
     Login.resetSent (Login.st (fst (Login.fire i m))) = true /\
     Login.loading (Login.st (fst (Login.fire i m))) = false /\
     Login.isResetMode (Login.st (fst (Login.fire i m))) = Login.isResetMode (Login.st m) /\
     snd (Login.fire i m) = false) /\
  (forall (a : Login.Action) (m : Login.Mounted),
     Login.resetSent (Login.st m) = true ->
     Login.resetSent (Login.st (Login.click a m)) = true \/
     (a = Login.BackToSignIn /\ Login.isResetMode (Login.st m) = true)) /\
  (forall m : Login.Mounted,
     Login.resetSent (Login.st m) = true -> Login.isResetMode (Login.st m) = false ->
     Login.body (Login.render (Login.st (Login.click Login.ForgotPassword m)))
       = Login.ResetConfirmation) /\
  (let m1 := Login.click Login.Submit (Login.click Login.ForgotPassword Login.mount) in
   let m2 := fst (Login.fire 0 (Login.click Login.Cancel m1)) in
   Login.pending m1 = [{| Login.callback := Login.FinishReset; Login.delay := 1500 |}] /\
   Login.st m2 = {| Login.loading := false; Login.isResetMode := false; Login.resetSent := true |} /\
   Login.body (Login.render (Login.st (Login.click Login.ForgotPassword m2)))
     = Login.ResetConfirmation).
Proof.
  split; [|split; [|split]].
  - intros m i t Hn Hc. unfold Login.fire. rewrite Hn, Hc. repeat split.
  - intros a [[l r rs] pend]. cbn [Login.st Login.resetSent]. intros ->.
    destruct a, l, r; cbn; try (left; reflexivity); right; split; reflexivity.
  - intros [[l r rs] pend]. cbn [Login.st Login.resetSent Login.isResetMode]. intros -> ->.
    destruct l; reflexivity.
  - repeat split.
Qed.

(** Signing out clears nothing and stops nothing: it only puts the login form
    in place of the main view.  The state of [App] (the uploads, the record,
    the phase, the error) is kept, the callbacks and the detection calls of a
    running scan stay registered, and once the user has logged in again the
    state of [App] is exactly what it was before the sign-out. *)
Theorem sign_out_keeps_the_session (p : Page) :
  pageInv p -> mainShown (hooks (session p)) ->
  let out := pageStep euclideanDistance Math_round (OfApp SignedOut) p in
  let back := runPage euclideanDistance Math_round [OfLogin Login.Submit; TimeoutDue 0] out in
  render (hooks (session out)) = LoginScreen /\
  login out = Some Login.mount /\
  hooks (session out) = setIsAuthenticated false (hooks (session p)) /\
  animationFrames (runtime (session out)) = animationFrames (runtime (session p)) /\
  inFlight (runtime (session out)) = inFlight (runtime (session p)) /\
  hooks (session back) = hooks (session p) /\
  login back = None /\ orphans back = [].
Proof.
  intros [Ho Hl] Hm out back.
  assert (Hr : render (hooks (session p)) <> LoginScreen).
  { rewrite (render_main_shown _ Hm). discriminate. }
  destruct (login p) as [m|] eqn:El; [destruct Hl as [Hl _]; contradiction|].
  assert (Hout : out = {| session := onHooks (setIsAuthenticated false) (session p);
                          login := Some Login.mount; orphans := [] |}).
  { subst out. cbn [pageStep]. unfold step. rewrite (render_main_shown _ Hm), El, Ho.
    reflexivity. }
  assert (Hback : onLogin (onHooks (setIsAuthenticated false) (session p)) = session p).
  { destruct Hm as [Ha _]. destruct p as [[h r] lg orph]. cbn [session hooks] in *.
    destruct h. cbn in Ha. subst. reflexivity. }
  assert (Hb : back = {| session := session p; login := None; orphans := [] |}).
  { subst back. rewrite Hout. unfold runPage. cbn [fold_left pageStep login session orphans].
    cbn [Login.click Login.render Login.body Login.st Login.mount Login.initialState
         Login.isResetMode Login.resetSent Login.loading andb Login.submitDisabled
         Login.call Login.handleLogin Login.setLoading Login.pending app].
    unfold Login.fire.
    cbn [Login.pending nth_error Login.callback Login.st removeNth firstn skipn app].
    unfold reconcile. rewrite Hback, (render_main_shown _ Hm). reflexivity. }
  rewrite Hout, Hb. repeat split.
Qed.

End LoginProperties.

(** * The forensic report *)

Lemma stripPrefix_spec (prefix s rest : string) :
  GeminiService.stripPrefix prefix s = Some rest -> s = (prefix ++ rest)%string.
Proof.
  revert s. induction prefix as [|c prefix IH]; intros s H.
  - cbn in H. injection H as ->. reflexivity.
  - destruct s as [|c' s]; [discriminate|]. cbn in H.
    destruct (Ascii.eqb c c') eqn:E; [|discriminate].
    apply Ascii.eqb_eq in E. subst c'. cbn. f_equal. apply IH. exact H.
Qed.

(** [cleanBase64] removes exactly one leading [data:image/...;base64,] of type
    [png], [jpeg] or [jpg] and nothing else: a data URL of one of these types
    comes out as its bare payload, a string that does not start with
    [data:image/] comes out unchanged, and in every case the input is the
    output behind the empty string or behind one of the three prefixes.  With
    a key, the request then carries that payload, declared as [image/jpeg]
    whichever of the three types the prefix named. *)
Theorem cleanBase64_strips_one_prefix (s payload : string) :
  GeminiService.cleanBase64 ("data:image/png;base64," ++ payload)%string = payload /\
  GeminiService.cleanBase64 ("data:image/jpeg;base64," ++ payload)%string = payload /\
  GeminiService.cleanBase64 ("data:image/jpg;base64," ++ payload)%string = payload /\
  (GeminiService.stripPrefix "data:image/" s = None -> GeminiService.cleanBase64 s = s) /\
  (exists prefix,
     s = (prefix ++ GeminiService.cleanBase64 s)%string /\
     (prefix = "" \/ prefix = "data:image/png;base64," \/
      prefix = "data:image/jpeg;base64," \/ prefix = "data:image/jpg;base64,")) /\
  (forall (key : string) (similarityScore : number),
     key <> "" ->
     option_map (fun r => (GeminiService.data r, GeminiService.mimeType r))
       (GeminiService.analyzeBestMatch_request (Some key) ("data:image/png;base64," ++ payload)%string
          similarityScore)
     = Some (payload, "image/jpeg")).
Proof.
  split; [reflexivity|]. split; [reflexivity|]. split; [reflexivity|].
  split; [|split].
  - intros H. unfold GeminiService.cleanBase64. rewrite H. reflexivity.
  - unfold GeminiService.cleanBase64.
    destruct (GeminiService.stripPrefix "data:image/" s) as [rest|] eqn:E0;
      [|exists ""; split; [reflexivity|left; reflexivity]].
    apply stripPrefix_spec in E0.
    destruct (GeminiService.stripPrefix "png" rest) as [r1|] eqn:E1.
    + destruct (GeminiService.stripPrefix ";base64," r1) as [r|] eqn:E1'.
      * apply stripPrefix_spec in E1, E1'. subst.
        exists "data:image/png;base64,". split; [reflexivity|right; left; reflexivity].
      * destruct (GeminiService.stripPrefix "jpeg" rest) as [r2|] eqn:E2.
        { apply stripPrefix_spec in E1, E2. rewrite E1 in E2. discriminate. }
        destruct (GeminiService.stripPrefix "jpg" rest) as [r3|] eqn:E3.
        { apply stripPrefix_spec in E1, E3. rewrite E1 in E3. discriminate. }
        exists "". split; [reflexivity|left; reflexivity].
    + destruct (GeminiService.stripPrefix "jpeg" rest) as [r2|] eqn:E2.
      * destruct (GeminiService.stripPrefix ";base64," r2) as [r|] eqn:E2'.
        -- apply stripPrefix_spec in E2, E2'. subst.
           exists "data:image/jpeg;base64,". split; [reflexivity|right; right; left; reflexivity].
        -- destruct (GeminiService.stripPrefix "jpg" rest) as [r3|] eqn:E3.
           { apply stripPrefix_spec in E2, E3. rewrite E2 in E3. discriminate. }
           exists "". split; [reflexivity|left; reflexivity].
      * destruct (GeminiService.stripPrefix "jpg" rest) as [r3|] eqn:E3.
        -- destruct (GeminiService.stripPrefix ";base64," r3) as [r|] eqn:E3'.
           ++ apply stripPrefix_spec in E3, E3'. subst.
              exists "data:image/jpg;base64,". split; [reflexivity|right; right; right; reflexivity].
           ++ exists "". split; [reflexivity|left; reflexivity].
        -- exists "". split; [reflexivity|left; reflexivity].
  - intros key sc Hk. unfold GeminiService.analyzeBestMatch_request, GeminiService.getClient.
    destruct (String.eqb key "") eqn:E; [apply String.eqb_eq in E; contradiction|].
    reflexivity.
Qed.

Section CardProperties.

Variable API_KEY : option string.
Variable JSON_parse : string -> option MatchCard.JsonValue.
Variable Math_round : number -> number.

Lemma cardStep_inv (e : MatchCard.Event) (c : MatchCard.Card) :
  cardInv c -> cardInv (MatchCard.step API_KEY JSON_parse Math_round e c).
Proof.
  intros Hc. pose proof Hc as (Hlen & Hload & Hrep). destruct e as [m| |i reply]; cbn [MatchCard.step].
  - exact Hc.
  - unfold MatchCard.render. cbn [MatchCard.action].
    destruct (js_ge (score (MatchCard.match_ c)) 0.5); [|exact Hc].
    destruct (MatchCard.truthy (MatchCard.analysis (MatchCard.st c))) eqn:Et;
      cbn [negb andb]; [exact Hc|].
    destruct (MatchCard.loading (MatchCard.st c)) eqn:El;
      cbn [negb]; [exact Hc|].
    unfold cardInv, MatchCard.handleAnalyze_begin.
    cbn [MatchCard.st MatchCard.requests MatchCard.loading MatchCard.error MatchCard.analysis
         MatchCard.setError MatchCard.setLoading].
    rewrite length_app, Hlen, Et. split; [reflexivity|]. split; [reflexivity|discriminate].
  - destruct (nth_error (MatchCard.requests c) i) as [sent|] eqn:En;
      [|exact Hc].
    destruct (MatchCard.loading (MatchCard.st c)) eqn:El.
    + destruct (MatchCard.requests c) as [|x [|y l]] eqn:Er; try discriminate Hlen.
      destruct i as [|i]; [|destruct i; discriminate En].
      assert (Hf : MatchCard.truthy (MatchCard.analysis (MatchCard.st c)) = false).
      { destruct (MatchCard.truthy (MatchCard.analysis (MatchCard.st c))); [|reflexivity].
        destruct (Hrep eq_refl); discriminate. }
      pose proof (Hload eq_refl) as He.
      unfold cardInv, MatchCard.handleAnalyze_end.
      cbn [MatchCard.st MatchCard.requests MatchCard.loading MatchCard.setLoading removeNth
           firstn skipn app List.length].
      split; [reflexivity|]. split; [discriminate|].
      destruct (GeminiService.analyzeBestMatch_settle sent reply) as [[text|]|];
        cbn [MatchCard.analysis MatchCard.error MatchCard.setError MatchCard.setLoading];
        try (rewrite Hf; discriminate).
      destruct (MatchCard.stringTruthy text); [|rewrite Hf; discriminate].
      destruct (JSON_parse text) as [v|];
        cbn [MatchCard.analysis MatchCard.error MatchCard.setError MatchCard.setAnalysis];
        [|rewrite Hf; discriminate].
      intros _. split; [reflexivity|exact He].
    + destruct (MatchCard.requests c); [destruct i; discriminate En|discriminate Hlen].
Qed.

Lemma cardRun_inv (events : list MatchCard.Event) (c : MatchCard.Card) :
  cardInv c -> cardInv (MatchCard.run API_KEY JSON_parse Math_round events c).
Proof.
  unfold MatchCard.run. revert c. induction events as [|e events IH]; intros c Hc; [exact Hc|].
  cbn [fold_left]. apply IH. apply cardStep_inv. exact Hc.
Qed.

Lemma cardStep_report (e : MatchCard.Event) (c : MatchCard.Card) :
  cardInv c -> MatchCard.truthy (MatchCard.analysis (MatchCard.st c)) = true ->
  MatchCard.st (MatchCard.step API_KEY JSON_parse Math_round e c) = MatchCard.st c /\
  MatchCard.requests (MatchCard.step API_KEY JSON_parse Math_round e c) = [].
Proof.
  intros (Hlen & Hload & Hrep) Ht. destruct (Hrep Ht) as [Hl He].
  rewrite Hl in Hlen. destruct (MatchCard.requests c) eqn:Er; [|discriminate Hlen].
  destruct e as [m| |i reply]; cbn [MatchCard.step].
  - split; [reflexivity|exact Er].
  - unfold MatchCard.render. cbn [MatchCard.action]. rewrite Ht. cbn [negb andb].
    destruct (js_ge (score (MatchCard.match_ c)) 0.5); split; try reflexivity; exact Er.
  - rewrite Er. destruct i; cbn [nth_error]; split; try reflexivity; exact Er.
Qed.

(** At most one [analyzeBestMatch] call of a card is out at any time.  Once a
    call has brought a report, the card never sends another and never
    changes the report, whatever it is rendered with afterwards: when [App]
    replaces the match by a better one, the card shows the new frame with
    the report made for the old one, and no button to make a new report. *)
Theorem report_is_kept_for_the_life_of_the_card :
  (forall (m0 : FaceMatchResult) (events : list MatchCard.Event),
     cardInv (MatchCard.run API_KEY JSON_parse Math_round events (MatchCard.mount m0))) /\
  (forall (c : MatchCard.Card) (events : list MatchCard.Event),
     cardInv c -> MatchCard.truthy (MatchCard.analysis (MatchCard.st c)) = true ->
     MatchCard.analysis (MatchCard.st (MatchCard.run API_KEY JSON_parse Math_round events c))
       = MatchCard.analysis (MatchCard.st c) /\
     MatchCard.requests (MatchCard.run API_KEY JSON_parse Math_round events c) = [] /\
     forall m : FaceMatchResult,
       js_ge (score m) 0.5 = true ->
       MatchCard.action
         (MatchCard.render Math_round m
            (MatchCard.st (MatchCard.run API_KEY JSON_parse Math_round
                             (events ++ [MatchCard.Rendered m]) c)))
       = MatchCard.Forensic false false None (MatchCard.Report (MatchCard.analysis (MatchCard.st c)))).
Proof.
  split.
  - intros m0 events. apply cardRun_inv. repeat split; discriminate.
  - intros c events Hc Ht.
    assert (Hrun : forall evs c', cardInv c' ->
              MatchCard.st c' = MatchCard.st c -> MatchCard.requests c' = [] ->
              MatchCard.st (MatchCard.run API_KEY JSON_parse Math_round evs c') = MatchCard.st c /\
              MatchCard.requests (MatchCard.run API_KEY JSON_parse Math_round evs c') = []).
    { unfold MatchCard.run. induction evs as [|e evs IH]; intros c' Hc' Hs Hr; [split; assumption|].
      cbn [fold_left].
      assert (Ht' : MatchCard.truthy (MatchCard.analysis (MatchCard.st c')) = true)
        by (rewrite Hs; exact Ht).
      destruct (cardStep_report e c' Hc' Ht') as [Hs' Hr'].
      apply IH; [apply cardStep_inv; exact Hc'|rewrite Hs'; exact Hs|exact Hr']. }
    assert (Hreq0 : MatchCard.requests c = []).
    { destruct Hc as (Hlen & _ & Hrep). destruct (Hrep Ht) as [Hl _]. rewrite Hl in Hlen.
      destruct (MatchCard.requests c); [reflexivity|discriminate Hlen]. }
    destruct (Hrun events c Hc eq_refl Hreq0) as [Hs Hr].
    split; [rewrite Hs; reflexivity|]. split; [exact Hr|].
    intros m Hm.
    destruct (Hrun (events ++ [MatchCard.Rendered m]) c Hc eq_refl Hreq0) as [Hs2 _].
    rewrite Hs2. unfold MatchCard.render. cbn [MatchCard.action]. rewrite Hm, Ht.
    destruct Hc as (_ & _ & Hrep). destruct (Hrep Ht) as [-> ->].
    unfold MatchCard.reportSlot. rewrite Ht. reflexivity.
Qed.

(** How a click on "Generate Forensic Report" ends.  The click sets [loading],
    clears the error and sends one request (none if [API_KEY] is missing or
    empty).  When the call settles [loading] is cleared; without a key, or
    when the request fails, the error message is stored; when the response
    has no text, or an empty one, neither a report nor an error is stored.
    Whenever no report has come, the button is rendered again. *)
Theorem analysis_request_outcomes (c : MatchCard.Card) (reply : GeminiService.Reply) :
  js_ge (score (MatchCard.match_ c)) 0.5 = true ->
  MatchCard.truthy (MatchCard.analysis (MatchCard.st c)) = false ->
  MatchCard.loading (MatchCard.st c) = false ->
  MatchCard.requests c = [] ->
  let sent := GeminiService.analyzeBestMatch_request API_KEY
                (frameDataUrl (MatchCard.match_ c)) (score (MatchCard.match_ c)) in
  let c1 := MatchCard.step API_KEY JSON_parse Math_round MatchCard.GenerateClicked c in
  let c2 := MatchCard.step API_KEY JSON_parse Math_round (MatchCard.Settled 0 reply) c1 in
  MatchCard.requests c1 = [sent] /\
  MatchCard.st c1 = MatchCard.setError None (MatchCard.setLoading true (MatchCard.st c)) /\
  (sent = None <-> GeminiService.getClient API_KEY = None) /\
  MatchCard.requests c2 = [] /\ MatchCard.loading (MatchCard.st c2) = false /\
  (GeminiService.getClient API_KEY = None \/ reply = GeminiService.Failed ->
   MatchCard.error (MatchCard.st c2) = Some "Failed to analyze with Gemini." /\
   MatchCard.analysis (MatchCard.st c2) = MatchCard.analysis (MatchCard.st c)) /\
  (GeminiService.getClient API_KEY <> None ->
   reply = GeminiService.Response None \/ reply = GeminiService.Response (Some "") ->
   MatchCard.error (MatchCard.st c2) = None /\
   MatchCard.analysis (MatchCard.st c2) = MatchCard.analysis (MatchCard.st c)) /\
  (MatchCard.truthy (MatchCard.analysis (MatchCard.st c2)) = true ->
   exists text v,
     GeminiService.getClient API_KEY <> None /\ reply = GeminiService.Response (Some text) /\
     text <> "" /\ JSON_parse text = Some v /\ MatchCard.analysis (MatchCard.st c2) = v /\
     MatchCard.error (MatchCard.st c2) = None) /\
  (MatchCard.truthy (MatchCard.analysis (MatchCard.st c2)) = false ->
   exists errorText report,
     MatchCard.action (MatchCard.render Math_round (MatchCard.match_ c2) (MatchCard.st c2))
     = MatchCard.Forensic true false errorText report).
Proof.
  intros Hm Ht Hl Hr sent c1 c2.
  assert (H1 : c1 = {| MatchCard.match_ := MatchCard.match_ c;
                       MatchCard.st := MatchCard.setError None (MatchCard.setLoading true (MatchCard.st c));
                       MatchCard.requests := [sent] |}).
  { subst c1. cbn [MatchCard.step]. unfold MatchCard.render. cbn [MatchCard.action].
    rewrite Hm, Ht, Hl, Hr. reflexivity. }
  assert (H2 : c2 = {| MatchCard.match_ := MatchCard.match_ c;
                       MatchCard.st :=
                         MatchCard.handleAnalyze_end JSON_parse
                           (GeminiService.analyzeBestMatch_settle sent reply)
                           (MatchCard.setError None (MatchCard.setLoading true (MatchCard.st c)));
                       MatchCard.requests := [] |}).
  { subst c2. rewrite H1. reflexivity. }
  rewrite H1, H2. cbn [MatchCard.requests MatchCard.st MatchCard.match_].
  split; [reflexivity|]. split; [reflexivity|]. split.
  { subst sent. unfold GeminiService.analyzeBestMatch_request.
    destruct (GeminiService.getClient API_KEY); split; intros H; try reflexivity; discriminate. }
  split; [reflexivity|]. split; [reflexivity|].
  assert (Hsent : sent = None <-> GeminiService.getClient API_KEY = None).
  { subst sent. unfold GeminiService.analyzeBestMatch_request.
    destruct (GeminiService.getClient API_KEY); split; intros H; try reflexivity; discriminate. }
  clearbody sent. clear H1 H2 c1 c2.
  unfold MatchCard.handleAnalyze_end.
  split; [|split; [|split]].
  - intros [Hk | ->].
    + rewrite (proj2 Hsent Hk). split; reflexivity.
    + destruct sent; split; reflexivity.
  - intros Hk Hrep. destruct sent as [r|]; [|contradiction Hk; apply Hsent; reflexivity].
    destruct Hrep as [-> | ->]; split; reflexivity.
  - destruct sent as [r|]; cbn [GeminiService.analyzeBestMatch_settle];
      [|cbn; rewrite Ht; discriminate].
    destruct reply as [|[text|]]; cbn [GeminiService.analyzeBestMatch_settle];
      try (cbn; rewrite Ht; discriminate).
    destruct (MatchCard.stringTruthy text) eqn:Es; [|cbn; rewrite Ht; discriminate].
    destruct (JSON_parse text) as [v|] eqn:Ep; [|cbn; rewrite Ht; discriminate].
    cbn. intros _. exists text, v.
    split; [intros Hk; apply Hsent in Hk; discriminate|]. split; [reflexivity|].
    split; [intros ->; discriminate Es|].
    split; [exact Ep|]. split; reflexivity.
  - intros Hf. unfold MatchCard.render. cbn [MatchCard.action]. rewrite Hm, Hf.
    eexists. eexists. cbn [negb andb MatchCard.loading MatchCard.setLoading]. reflexivity.
Qed.

End CardProperties.

(** * The dominant expression *)

Section SubtractionSign.
Local Open Scope Z_scope.

Lemma canonical_order m1 e1 m2 e2 :
  bounded prec emax m1 e1 = true -> bounded prec emax m2 e2 = true ->
  (Zpos m1 * 2 ^ (e1 - Z.min e1 e2) < Zpos m2 * 2 ^ (e2 - Z.min e1 e2) <->
   (e1 < e2 \/ (e1 = e2 /\ Zpos m1 < Zpos m2))).
Proof.
  intros H1 H2. apply bounded_inv in H1, H2. destruct H1 as [C1 _], H2 as [C2 _].
  pose proof (digits2_pos_bounds m1) as [L1 U1]. pose proof (digits2_pos_bounds m2) as [L2 U2].
  assert (B1 : Zpos m1 < 2 ^ 53).
  { apply Z.lt_le_trans with (1 := U1). apply Z.pow_le_mono_r; lia. }
  assert (B2 : Zpos m2 < 2 ^ 53).
  { apply Z.lt_le_trans with (1 := U2). apply Z.pow_le_mono_r; lia. }
  assert (N1 : -1074 < e1 -> 2 ^ 52 <= Zpos m1).
  { intros Hn. replace (Zpos (digits2_pos m1) - 1) with 52 in L1 by lia. exact L1. }
  assert (N2 : -1074 < e2 -> 2 ^ 52 <= Zpos m2).
  { intros Hn. replace (Zpos (digits2_pos m2) - 1) with 52 in L2 by lia. exact L2. }
  change (2 ^ 52) with 4503599627370496 in *. change (2 ^ 53) with 9007199254740992 in *.
  clear L1 U1 L2 U2.
  destruct (Z.lt_trichotomy e1 e2) as [Hlt|[Heq|Hgt]].
  - rewrite Z.min_l by lia. replace (e1 - e1) with 0 by lia. rewrite Z.pow_0_r, Z.mul_1_r.
    assert (2 <= 2 ^ (e2 - e1)) by (apply (Z.pow_le_mono_r 2 1); lia).
    specialize (N2 ltac:(lia)). split; [intros _; left; lia|intros _; nia].
  - subst e2. rewrite Z.min_id, Z.sub_diag, Z.pow_0_r, !Z.mul_1_r.
    split; [intros; right; split; [reflexivity|assumption]|intros [?|[_ ?]]; [lia|assumption]].
  - rewrite Z.min_r by lia. replace (e2 - e2) with 0 by lia. rewrite Z.pow_0_r, Z.mul_1_r.
    assert (2 <= 2 ^ (e1 - e2)) by (apply (Z.pow_le_mono_r 2 1); lia).
    specialize (N1 ltac:(lia)). split; [intros; nia|intros [?|[? _]]; lia].
Qed.

(** Rounding a positive mantissa at an exponent of the format never gives a
    zero. *)
Lemma binary_round_strict sx mx ex :
  -1074 <= ex ->
  binary_round prec emax sx mx ex = S754_infinity sx \/
  exists m e, binary_round prec emax sx mx ex = S754_finite sx m e.
Proof.
  intros Hex. unfold binary_round.
  pose proof (digits2_pos_bounds mx) as [Zlo Zhi].
  set (D := Zpos (digits2_pos mx)) in *.
  assert (HD0 : 0 < D) by (subst D; lia).
  rewrite fexp64.
  destruct (Z.le_gt_cases D 53) as [HD|HD].
  - set (e' := Z.max (D + ex - 53) (-1074)).
    assert (He' : e' <= ex) by (subst e'; lia).
    destruct (shl_align_spec mx ex e' He') as [S1 S2].
    destruct (shl_align mx ex e') as [mz ez]. cbn [fst snd] in S1, S2. subst ez.
    assert (Hdz : Zpos (digits2_pos mz) = D + (ex - e')).
    { apply digits2_pos_unique. rewrite S1.
      replace (D + (ex - e') - 1) with ((D - 1) + (ex - e')) by lia.
      rewrite !pow2_split by lia.
      assert (0 < 2 ^ (ex - e')) by (apply Z.pow_pos_nonneg; lia). nia. }
    rewrite bra_exact by (rewrite Hdz, fexp64; subst e'; lia).
    destruct (e' <=? 971); [right; eexists; eexists; reflexivity|left; reflexivity].
  - assert (Hno : shl_align mx ex (Z.max (D + ex - 53) (-1074)) = (mx, ex)).
    { unfold shl_align. destruct (Z.max (D + ex - 53) (-1074) - ex) eqn:Ed; try reflexivity. lia. }
    rewrite Hno.
    destruct (bra_round sx mx ex HD Hex) as (q & rem & _ & _ & _ & Hbra). rewrite Hbra.
    destruct (round_up _ q rem && (q =? 2 ^ 53 - 1));
      match goal with |- context [if ?c then _ else _] => destruct c end;
      try (left; reflexivity); right; eexists; eexists; reflexivity.
Qed.

Lemma SFltb_finite mx ex my ey :
  SFltb (S754_finite false mx ex) (S754_finite false my ey) = true <->
  (ex < ey \/ (ex = ey /\ Zpos mx < Zpos my)).
Proof.
  unfold SFltb, SFcompare. destruct (Z.compare_spec ex ey) as [E|E|E].
  - rewrite Pos.compare_cont_spec. cbn [Pos.switch_Eq].
    destruct (Pos.compare_spec mx my) as [Em|Em|Em].
    + split; [discriminate|]. intros [?|[_ ?]]; lia.
    + split; [intros _; right; split; [exact E|lia]|reflexivity].
    + split; [discriminate|]. intros [?|[_ ?]]; lia.
  - split; [intros _; left; exact E|reflexivity].
  - split; [discriminate|]. intros [?|[? _]]; lia.
Qed.

Lemma SFsub_sign mx ex my ey :
  bounded prec emax mx ex = true -> bounded prec emax my ey = true ->
  SFltb (S754_zero false) (SF64sub (S754_finite false my ey) (S754_finite false mx ex)) =
  SFltb (S754_finite false mx ex) (S754_finite false my ey).
Proof.
  intros Hx Hy. pose proof (canonical_order mx ex my ey Hx Hy) as Hord.
  pose proof (proj1 (bounded_inv _ _ Hx)) as Cx. pose proof (proj1 (bounded_inv _ _ Hy)) as Cy.
  rewrite <- SFltb_finite in Hord.
  unfold SF64sub, SFsub. cbv zeta. cbn [cond_Zopp].
  destruct (shl_align_spec my ey (Z.min ey ex) ltac:(lia)) as [H1 _].
  destruct (shl_align_spec mx ex (Z.min ey ex) ltac:(lia)) as [H2 _].
  rewrite H1, H2. rewrite (Z.min_comm ey ex).
  destruct (Zpos my * 2 ^ (ey - Z.min ex ey) - Zpos mx * 2 ^ (ex - Z.min ex ey)) as [|p|p] eqn:Ed;
    cbn [binary_normalize].
  - destruct (SFltb (S754_finite false mx ex) (S754_finite false my ey)); [|reflexivity].
    pose proof (proj2 Hord eq_refl). lia.
  - assert (Ht : SFltb (S754_finite false mx ex) (S754_finite false my ey) = true)
      by (apply Hord; lia).
    rewrite Ht.
    destruct (binary_round_strict false p (Z.min ex ey) ltac:(lia)) as [-> | (m & e & ->)];
      reflexivity.
  - assert (Hf : SFltb (S754_finite false mx ex) (S754_finite false my ey) = false).
    { destruct (SFltb (S754_finite false mx ex) (S754_finite false my ey)); [|reflexivity].
      pose proof (proj2 Hord eq_refl). lia. }
    rewrite Hf. pose proof (binary_round_shape true p (Z.min ex ey)) as Hs.
    destruct (binary_round prec emax true p (Z.min ex ey)) as [s|s| |s m e];
      cbn [SFshape] in Hs; try contradiction; subst s; reflexivity.
Qed.

End SubtractionSign.

(** For two numbers of [[0, 1]], [y - x > 0] exactly when [x < y]: the
    difference of two distinct numbers never rounds to zero. *)
Lemma sub_pos_iff_lt (x y : number) :
  (0 <=? x) = true -> (x <=? 1) = true -> (0 <=? y) = true -> (y <=? 1) = true ->
  js_gt (y - x) 0 = (x <? y).
Proof.
  unfold js_gt. rewrite !FloatAxioms.leb_spec, !FloatAxioms.ltb_spec, sub_spec, Prim2SF_one, Prim2SF_zero.
  pose proof (Prim2SF_valid x) as Vx. pose proof (Prim2SF_valid y) as Vy.
  destruct (Prim2SF x) as [sx|sx| |sx mx ex], (Prim2SF y) as [sy|sy| |sy my ey];
    try discriminate; try (destruct sx; discriminate); try (destruct sy; discriminate).
  - intros _ _ _ _. destruct sx, sy; reflexivity.
  - destruct sy; [discriminate|]. intros _ _ _ _. reflexivity.
  - destruct sx; [discriminate|]. intros _ _ _ _. destruct sy; reflexivity.
  - destruct sx; [discriminate|]. destruct sy; [discriminate|]. intros _ _ _ _.
    cbn [valid_binary] in Vx, Vy. apply SFsub_sign; assumption.
Qed.

Lemma insertSorted_head cmp x l :
  hd_error (insertSorted cmp x l) =
  match hd_error l with
  | None => Some x
  | Some y => if js_gt (cmp x y) 0 then Some y else Some x
  end.
Proof.
  destruct l as [|y l]; [reflexivity|]. cbn [insertSorted hd_error].
  destruct (js_gt (cmp x y) 0); reflexivity.
Qed.

Lemma dominantExpression_head expressions :
  dominantExpression expressions = option_map fst (hd_error (sortExpressions expressions)).
Proof.
  unfold dominantExpression. destruct (sortExpressions expressions) as [|[key v] l]; reflexivity.
Qed.

Lemma sortExpressions_head expressions :
  probabilities expressions ->
  match hd_error (sortExpressions expressions) with
  | None => expressions = []
  | Some kv =>
      exists before after,
        expressions = before ++ kv :: after /\
        (forall kv', In kv' before -> (snd kv' <? snd kv) = true) /\
        (forall kv', In kv' after -> (snd kv' <=? snd kv) = true)
  end.
Proof.
  induction expressions as [|x rest IH]; intros Hp; [reflexivity|].
  assert (Hrest : probabilities rest) by (intros kv Hin; apply Hp; right; exact Hin).
  specialize (IH Hrest).
  change (sortExpressions (x :: rest))
    with (insertSorted (fun a b => snd b - snd a) x (sortExpressions rest)).
  rewrite insertSorted_head.
  destruct (Hp x (or_introl eq_refl)) as [Hx0 Hx1].
  destruct (hd_error (sortExpressions rest)) as [y|].
  - destruct IH as (before & after & -> & Hb & Ha).
    assert (Hy : (0 <=? snd y) = true /\ (snd y <=? 1) = true).
    { apply Hrest. apply in_or_app. right. left. reflexivity. }
    destruct Hy as [Hy0 Hy1].
    cbv beta. rewrite (sub_pos_iff_lt (snd x) (snd y) Hx0 Hx1 Hy0 Hy1).
    destruct (snd x <? snd y) eqn:E.
    + exists (x :: before), after. split; [reflexivity|]. split; [|exact Ha].
      intros kv' [<-|Hin]; [exact E|exact (Hb kv' Hin)].
    + assert (Hle : (snd y <=? snd x) = true).
      { apply not_ltb_leb; [exact (leb_not_nan_r _ _ Hx0)|exact (leb_not_nan_r _ _ Hy0)|exact E]. }
      exists [], (before ++ y :: after). split; [reflexivity|]. split; [intros kv' []|].
      intros kv' Hin. apply in_app_or in Hin. destruct Hin as [Hin|[<-|Hin]].
      * apply ltb_leb. apply ltb_leb_trans with (snd y); [exact (Hb kv' Hin)|exact Hle].
      * exact Hle.
      * apply leb_trans with (snd y); [exact (Ha kv' Hin)|exact Hle].
  - subst rest. exists [], []. split; [reflexivity|]. split; intros kv' [].
Qed.

(** The expression stored with a record is the most probable one: for scores
    that are probabilities, [dominantExpression] gives the key of the first
    entry, in the engine's key order, whose score is the greatest (every
    entry before it has a strictly smaller score); it gives nothing only for
    an empty object. *)
Theorem dominant_expression_is_first_maximum (expressions : list (string * number)) :
  probabilities expressions ->
  match dominantExpression expressions with
  | None => expressions = []
  | Some key =>
      exists before value after,
        expressions = before ++ (key, value) :: after /\
        (forall kv, In kv before -> (snd kv <? value) = true) /\
        (forall kv, In kv after -> (snd kv <=? value) = true)
  end.
Proof.
  intros Hp. rewrite dominantExpression_head.
  pose proof (sortExpressions_head expressions Hp) as H.
  destruct (hd_error (sortExpressions expressions)) as [[key value]|]; cbn [option_map fst].
  - destruct H as (before & after & He & Hb & Ha). exists before, value, after.
    repeat split; assumption.
  - exact H.
Qed.

(** * Worked runs of the session, the form and the card *)

Lemma frame_confidence_is_frame_maximum_witness :
  let frame := frameAt 2 "data:frame-2" [faceAt 0.25 "male" 31; faceAt 0.5 "male" 52] in
  let s' := processFrame_resume exampleDistance exampleRound (fun _ => false) [0] frame readySession in
  (0 <=? currentSimilarity (hooks s')) = true /\
  (currentSimilarity (hooks s') <=? 1) = true /\
  (detections frame = [] ->
     currentSimilarity (hooks s') = 0 /\ bestMatch (hooks s') = bestMatch (hooks readySession)) /\
  (forall d, In d (detections frame) ->
     (detectionSimilarity exampleDistance [0] d <=? currentSimilarity (hooks s')) = true) /\
  (detections frame <> [] ->
     exists d, In d (detections frame) /\
               currentSimilarity (hooks s') = detectionSimilarity exampleDistance [0] d) /\
  (forall p, bestMatch (hooks s') = Some p ->
     (currentSimilarity (hooks s') <=? score p) = true).
Proof.
  apply (frame_confidence_is_frame_maximum exampleDistance exampleRound (fun _ => false) [0]
           (frameAt 2 "data:frame-2" [faceAt 0.25 "male" 31; faceAt 0.5 "male" 52]) readySession).
  - intros d Hd. cbn in Hd. repeat (destruct Hd as [<-|Hd]; [reflexivity|]). destruct Hd.
  - intros p Hp. vm_compute in Hp. discriminate Hp.
Defined.

Lemma exampleRun_valid : validRun exampleDistance exampleRound exampleRun initialSession.
Proof.
  unfold exampleRun. cbn [validRun].
  repeat split; intros target Ht; vm_compute in Ht; injection Ht as <-;
    intros d Hd; cbn in Hd; repeat (destruct Hd as [<-|Hd]; [reflexivity|]); destruct Hd.
Defined.

Lemma scores_stay_in_range_witness :
  scoresInRange (hooks (run exampleDistance exampleRound exampleRun initialSession)).
Proof.
  apply (scores_stay_in_range exampleDistance exampleRound exampleRun initialSession).
  - exact exampleRun_valid.
  - split; [reflexivity|]. split; [reflexivity|]. intros p Hp. discriminate Hp.
Defined.

Lemma failed_load_is_final_witness :
  let events := [ LoggedIn; ModelsSettled true [true; false; true; true; true];
                  ImageChosen (Some "blob:reference"); StartStopClicked; ResetClicked ] in
  state (hooks (run exampleDistance exampleRound events initialSession)) = LOADING_MODELS /\
  (render (hooks (run exampleDistance exampleRound events initialSession)) = LoginScreen \/
   render (hooks (run exampleDistance exampleRound events initialSession)) = LoadingScreen) /\
  targetImage (hooks (run exampleDistance exampleRound events initialSession)) = None /\
  videoSource (hooks (run exampleDistance exampleRound events initialSession)) = None /\
  targetDescriptor (hooks (run exampleDistance exampleRound events initialSession)) = None /\
  bestMatch (hooks (run exampleDistance exampleRound events initialSession)) = None /\
  runtime (run exampleDistance exampleRound events initialSession) = initialRuntime.
Proof.
  apply (failed_load_is_final exampleDistance exampleRound).
  repeat constructor.
Defined.

Lemma stop_between_frames_ends_updates_witness :
  let events := [ VideoPaused; AnimationFrame 1; ImageAnalysed NoFace; SignedOut;
                  DetectionsResolved 0 (fun _ => true)
                    (frameAt 2 "data:frame-2" [faceAt 0.25 "male" 31]) ] in
  let stopped := step exampleDistance exampleRound StartStopClicked waitingSession in
  let later := run exampleDistance exampleRound events stopped in
  state (hooks stopped) = FINISHED /\ videoPaused (runtime stopped) = true /\
  bestMatch (hooks stopped) = bestMatch (hooks waitingSession) /\
  quiet stopped /\ quiet later /\ state (hooks later) <> PROCESSING /\
  (bestMatch (hooks later) = bestMatch (hooks waitingSession) \/ bestMatch (hooks later) = None).
Proof.
  apply (stop_between_frames_ends_updates exampleDistance exampleRound waitingSession [0]).
  - reflexivity.
  - reflexivity.
  - vm_compute. discriminate.
  - vm_compute. discriminate.
  - reflexivity.
  - reflexivity.
  - vm_compute. discriminate.
  - repeat constructor.
Defined.

Lemma cleared_image_still_sets_descriptor_witness :
  let s' :=
    run exampleDistance exampleRound
      [ImageChosen (Some "blob:reference"); ClearImageClicked; ImageAnalysed (FaceFound [0])]
      idleSession in
  targetImage (hooks s') = None /\
  targetDescriptor (hooks s') = Some [0] /\
  error (hooks s') = None /\
  exists m, render (hooks s') = MainView m /\ targetPanel m = ImageInput /\
    (videoSource (hooks idleSession) = None \/ exists l, videoPanel m = VideoLoaded l false false).
Proof.
  apply (cleared_image_still_sets_descriptor exampleDistance exampleRound idleSession
           "blob:reference" [0]).
  - split; [reflexivity|discriminate].
  - reflexivity.
Defined.

Lemma readyPage_inv : pageInv readyPage.
Proof. split; [reflexivity|]. vm_compute. discriminate. Defined.

Lemma only_the_form_logs_in_witness :
  let events := [ OfApp (ModelsSettled true [true; true; true; true; true]); TimeoutDue 0;
                  OrphanDue 0; OfApp VideoEnded; OfApp SignedOut ] in
  isAuthenticated (hooks (session (runPage exampleDistance exampleRound events initialPage))) = false /\
  login (runPage exampleDistance exampleRound events initialPage) = login initialPage /\
  (forall (e : PageEvent) (q : Page),
     pageInv q -> isAuthenticated (hooks (session q)) = false ->
     isAuthenticated (hooks (session (pageStep exampleDistance exampleRound e q))) = true ->
     exists i m t,
       e = TimeoutDue i /\ login q = Some m /\ nth_error (Login.pending m) i = Some t /\
       Login.callback t = Login.CallOnLogin /\ Login.loading (Login.st m) = true).
Proof.
  apply (only_the_form_logs_in exampleDistance exampleRound).
  - repeat split.
  - reflexivity.
  - intros m Hm. injection Hm as <-. reflexivity.
  - repeat constructor.
Defined.

Lemma sign_out_keeps_the_session_witness :
  let out := pageStep exampleDistance exampleRound (OfApp SignedOut) readyPage in
  let back := runPage exampleDistance exampleRound [OfLogin Login.Submit; TimeoutDue 0] out in
  render (hooks (session out)) = LoginScreen /\
  login out = Some Login.mount /\
  hooks (session out) = setIsAuthenticated false (hooks (session readyPage)) /\
  animationFrames (runtime (session out)) = animationFrames (runtime (session readyPage)) /\
  inFlight (runtime (session out)) = inFlight (runtime (session readyPage)) /\
  hooks (session back) = hooks (session readyPage) /\
  login back = None /\ orphans back = [].
Proof.
  apply (sign_out_keeps_the_session exampleDistance exampleRound readyPage).
  - exact readyPage_inv.
  - split; [reflexivity|]. vm_compute. discriminate.
Defined.

Lemma analysis_request_outcomes_witness :
  let c := MatchCard.mount exampleMatch in
  let reply := GeminiService.Response (Some "{}") in
  let sent := GeminiService.analyzeBestMatch_request (Some "key")
                (frameDataUrl (MatchCard.match_ c)) (score (MatchCard.match_ c)) in
  let c1 := MatchCard.step (Some "key") exampleParse exampleRound MatchCard.GenerateClicked c in
  let c2 := MatchCard.step (Some "key") exampleParse exampleRound (MatchCard.Settled 0 reply) c1 in
  MatchCard.requests c1 = [sent] /\
  MatchCard.st c1 = MatchCard.setError None (MatchCard.setLoading true (MatchCard.st c)) /\
  (sent = None <-> GeminiService.getClient (Some "key") = None) /\
  MatchCard.requests c2 = [] /\ MatchCard.loading (MatchCard.st c2) = false /\
  (GeminiService.getClient (Some "key") = None \/ reply = GeminiService.Failed ->
   MatchCard.error (MatchCard.st c2) = Some "Failed to analyze with Gemini." /\
   MatchCard.analysis (MatchCard.st c2) = MatchCard.analysis (MatchCard.st c)) /\
  (GeminiService.getClient (Some "key") <> None ->
   reply = GeminiService.Response None \/ reply = GeminiService.Response (Some "") ->
   MatchCard.error (MatchCard.st c2) = None /\
   MatchCard.analysis (MatchCard.st c2) = MatchCard.analysis (MatchCard.st c)) /\
  (MatchCard.truthy (MatchCard.analysis (MatchCard.st c2)) = true ->
   exists text v,
     GeminiService.getClient (Some "key") <> None /\ reply = GeminiService.Response (Some text) /\
     text <> "" /\ exampleParse text = Some v /\ MatchCard.analysis (MatchCard.st c2) = v /\
     MatchCard.error (MatchCard.st c2) = None) /\
  (MatchCard.truthy (MatchCard.analysis (MatchCard.st c2)) = false ->
   exists errorText report,
     MatchCard.action (MatchCard.render exampleRound (MatchCard.match_ c2) (MatchCard.st c2))
     = MatchCard.Forensic true false errorText report).
Proof.
  apply (analysis_request_outcomes (Some "key") exampleParse exampleRound
           (MatchCard.mount exampleMatch) (GeminiService.Response (Some "{}")));
    reflexivity.
Defined.

Lemma dominant_expression_is_first_maximum_witness :
  match dominantExpression [("neutral", 0.2); ("happy", 0.7); ("surprised", 0.7)] with
  | None => [("neutral", 0.2); ("happy", 0.7); ("surprised", 0.7)] = []
  | Some key =>
      exists before value after,
        [("neutral", 0.2); ("happy", 0.7); ("surprised", 0.7)] = before ++ (key, value) :: after /\
        (forall kv, In kv before -> (snd kv <? value) = true) /\
        (forall kv, In kv after -> (snd kv <=? value) = true)
  end.
Proof.
  apply (dominant_expression_is_first_maximum
           [("neutral", 0.2); ("happy", 0.7); ("surprised", 0.7)]).
  intros kv Hin. cbn in Hin.
  repeat (destruct Hin as [<-|Hin]; [split; reflexivity|]). destruct Hin.
Defined.
